(** * PPO experience collection of the assistant trainer
    (model/model_training/utils/ppo_utils.py)

    A shallow embedding of [CustomPPOTrainer] (tokenizer set-up, [decode],
    [get_arch], [make_experience]) and of [triton_server_ref_model], with
    the properties of the rollout pipeline proved over it. The generation
    code ([_get_logits_processor], [sample], [generate]), the checkpoint
    loader and [CustomPromptPipeline] follow the rollout definitions; their
    properties close the file.

    Conventions.
    - Token ids and tensor indices are [Z]; a 1-d tensor is a [list], a 2-d
      tensor a list of rows.
    - Python text is [string]; a character is one code point below 256.
    - Tensor scalars are an abstract type with the operations the code uses
      (class [Scalar]); their rounding is not modelled.
    - A Python exception is the [Raise] branch of [result].
    - Collaborators that live outside the file (generation, the policy
      forward pass, the reward function, the Triton client, running
      moments) are fields of records passed to the definitions. *)

From Stdlib Require Import ZArith String Ascii QArith.
From stdpp Require Import base decidable option list strings gmap.

Local Open Scope Z_scope.

(** ** Exceptions and results *)

Inductive exn : Type :=
  | NotImplementedError
  | AssertionError
  | ValueError
  | IndexError
  | TypeError
  | RuntimeError
  | NameError
  | AttributeError
  | ExternalError (code : Z).

Inductive result (A : Type) : Type :=
  | Ok (a : A)
  | Raise (e : exn).
Arguments Ok {A} a.
Arguments Raise {A} e.

#[global] Instance result_ret : MRet result := fun A a => Ok a.
#[global] Instance result_bind : MBind result := fun A B f m =>
  match m with
  | Ok a => f a
  | Raise e => Raise e
  end.

Definition is_ok {A} (r : result A) : bool :=
  match r with Ok _ => true | Raise _ => false end.

(** ** Python and torch indexing *)

Module Py.

(** Clamp of a slice bound for a sequence of length [n]: a negative
    bound counts from the end, and the outcome is cut to [0 .. n]. *)
Definition bound (n : nat) (i : Z) : nat :=
  Z.to_nat (Z.min (Z.of_nat n) (Z.max 0 (if i <? 0 then i + Z.of_nat n else i))).

(** [l[lo:hi]] *)
Definition slice {A} (l : list A) (lo hi : Z) : list A :=
  take (bound (length l) hi - bound (length l) lo) (drop (bound (length l) lo) l).

(** [l[lo:]] *)
Definition slice_from {A} (l : list A) (lo : Z) : list A :=
  drop (bound (length l) lo) l.

(** [l[:hi]] *)
Definition slice_to {A} (l : list A) (hi : Z) : list A :=
  take (bound (length l) hi) l.

(** [l[i]], raising [IndexError] outside [-n .. n-1]. *)
Definition item {A} (l : list A) (i : Z) : result A :=
  let j := if i <? 0 then i + Z.of_nat (length l) else i in
  if j <? 0 then Raise IndexError
  else match l !! Z.to_nat j with
       | Some x => Ok x
       | None => Raise IndexError
       end.

(** [t.shape[1]] of a 2-d tensor given by its rows. *)
Definition shape1 {A} (t : list (list A)) : Z :=
  match t with
  | [] => 0
  | r :: _ => Z.of_nat (length r)
  end.

(** [zip] of three sequences stops at the shortest. *)
Fixpoint zip3 {A B C} (xs : list A) (ys : list B) (zs : list C) : list (A * B * C) :=
  match xs, ys, zs with
  | x :: xs', y :: ys', z :: zs' => (x, y, z) :: zip3 xs' ys' zs'
  | _, _, _ => []
  end.

(** [str.isspace] on one character: the code points below 256 that
    Python counts as white space. *)
Definition isspace (c : ascii) : bool :=
  let n := nat_of_ascii c in
  ((9 <=? n) && (n <=? 13) || (28 <=? n) && (n <=? 32) || (n =? 133) || (n =? 160))%nat.

(** [s.rstrip()] *)
Fixpoint rstrip (s : string) : string :=
  match s with
  | EmptyString => EmptyString
  | String c r =>
      match rstrip r with
      | EmptyString => if isspace c then EmptyString else String c EmptyString
      | r' => String c r'
      end
  end.

(** [s.find(sub)]: [None] stands for the result -1. *)
Definition find (s sub : string) : option nat := String.index 0 sub s.

(** [s[:n]] for [0 <= n]. *)
Definition prefix_to (s : string) (n : nat) : string := String.substring 0 n s.

(** Number of (possibly overlapping) occurrences of [sub] in [s]. *)
Fixpoint occurrences (sub s : string) : nat :=
  match s with
  | EmptyString => 0
  | String _ r => (if String.prefix sub s then 1 else 0) + occurrences sub r
  end%nat.

End Py.

(** ** Tensor scalars *)

(** The floating-point operations the rollout code applies to scores,
    log-probabilities and values. *)
Class Scalar (F : Type) : Type := {
  fadd : F -> F -> F;
  fsub : F -> F -> F;
  fmul : F -> F -> F;
  fdiv : F -> F -> F;
  fneg : F -> F;
  fexp : F -> F;
  fsqrt : F -> F;
  fone : F;
  (** promotion of an integer mask entry *)
  of_int : Z -> F;
  (** [x <= y] *)
  fle : F -> F -> bool;
  (** truth value of a Python number: [x != 0] *)
  ftruthy : F -> bool;
  (** [t.mean()] and [t.std()] over all entries *)
  tmean : list F -> F;
  tstd : list F -> F
}.

(** Exact rationals: an instance to run the definitions on concrete
    numbers. [fexp] and [fsqrt] only feed the logged KL estimate and are the
    identity here; [tstd], which has no rational value in general, is the
    constant 1. *)
#[global] Instance Q_scalar : Scalar Q := {|
  fadd := Qplus; fsub := Qminus; fmul := Qmult; fdiv := Qdiv; fneg := Qopp;
  fexp := fun x => x; fsqrt := fun x => x;
  fone := 1%Q;
  of_int := inject_Z;
  fle := Qle_bool;
  ftruthy := fun x => negb (Qeq_bool x 0);
  tmean := fun l => Qdiv (fold_right Qplus 0%Q l) (inject_Z (Z.of_nat (length l)));
  tstd := fun l => 1%Q
|}.

(** ** Tokenizer and configuration *)

(** The part of the tokenizer the trainer reads after construction. *)
Record tokenizer : Type := {
  pad_token_id : Z;
  eos_token_id : Z;
  eos_token : string;
  sep_token : string;
  (** [tokenizer.decode(ids, skip_special_tokens=False)] *)
  tok_decode : list Z -> string;
  (** [tokenizer(text).input_ids] *)
  tok_encode : string -> list Z
}.

(** [config.model.model_arch_type], [config.method.scale_reward],
    [config.method.cliprange_reward] and the trainer's [stop_sequences]. *)
Record settings (F : Type) : Type := {
  model_arch_type : string;
  scale_reward : option string;
  cliprange_reward : option F;
  stop_sequences : list string
}.
Arguments model_arch_type {F} _.
Arguments scale_reward {F} _.
Arguments cliprange_reward {F} _.
Arguments stop_sequences {F} _.

Definition is_seq2seq {F} (cfg : settings F) : bool :=
  String.eqb (model_arch_type cfg) "seq2seq".

(** ** [CustomPPOTrainer.decode] *)

(** [x[x != PAD_TOKEN_ID]] *)
Definition drop_pad (pad : Z) (x : list Z) : list Z :=
  List.filter (fun t => negb (t =? pad)) x.

(** One turn of [for stop in self.stop_sequences]: the current output and
    the [trimmed] flag. *)
Definition trim_step (acc : string * bool) (stop : string) : string * bool :=
  match Py.find (fst acc) stop with
  | Some stop_ix => (Py.rstrip (Py.prefix_to (fst acc) stop_ix), true)
  | None => acc
  end.

Definition trim_stops (stops : list string) (str_output : string) : string * bool :=
  match stops with
  | [] => (str_output, false)
  | _ => fold_left trim_step stops (str_output, false)
  end.

(** The body of the loop of [decode] for one (prompt, sample, prompt_size). *)
Definition decode_one {F} (tk : tokenizer) (cfg : settings F)
    (append_eos_token : bool) (prompt sample : list Z) (prompt_size : Z)
    : result (string * string * string) :=
  if is_seq2seq cfg then Raise NotImplementedError
  else
    let output_start_ix := prompt_size in
    let PAD_TOKEN_ID := pad_token_id tk in
    let str_prompt := tok_decode tk (drop_pad PAD_TOKEN_ID (Py.slice_to prompt prompt_size)) in
    let str_output := tok_decode tk (drop_pad PAD_TOKEN_ID (Py.slice_from sample output_start_ix)) in
    let '(str_output, trimmed) := trim_stops (stop_sequences cfg) str_output in
    add_eos ←
      (if negb append_eos_token then Ok false
       else if trimmed then Ok true
       else last_tok ← Py.item sample (-1);
            Ok (negb (last_tok =? eos_token_id tk)));
    let str_output := if (add_eos : bool) then str_output +:+ eos_token tk else str_output in
    Ok (str_prompt +:+ str_output, str_prompt, str_output).

Fixpoint decode_loop {F} (tk : tokenizer) (cfg : settings F) (append_eos_token : bool)
    (items : list (list Z * list Z * Z))
    : result (list string * list string * list string) :=
  match items with
  | [] => Ok ([], [], [])
  | (prompt, sample, prompt_size) :: rest =>
      '(s, p, o) ← decode_one tk cfg append_eos_token prompt sample prompt_size;
      '(ss, ps, os) ← decode_loop tk cfg append_eos_token rest;
      Ok (s :: ss, p :: ps, o :: os)
  end.

(** [decode(prompts, samples, prompt_sizes, append_eos_token)]: the triple
    ([str_samples], [str_prompts], [str_outputs]). *)
Definition decode {F} (tk : tokenizer) (cfg : settings F)
    (prompts samples : list (list Z)) (prompt_sizes : option (list Z))
    (append_eos_token : bool)
    : result (list string * list string * list string) :=
  if negb append_eos_token then Raise AssertionError
  else
    let prompt_sizes :=
      match prompt_sizes with
      | None => repeat (Py.shape1 prompts) (length prompts)
      | Some l => l
      end in
    decode_loop tk cfg append_eos_token (Py.zip3 prompts samples prompt_sizes).

(** ** [CustomPPOTrainer.get_arch] *)

(** The value returned for a causal architecture is the model built by
    [CustomCausalLMHydraWithValueHead.from_pretrained]; it is handed in. *)
Definition get_arch {F Model} (cfg : settings F) (from_pretrained : result Model)
    : result Model :=
  if is_seq2seq cfg then Raise NotImplementedError
  else from_pretrained.

(** ** [triton_server_ref_model] *)

(** Modelled from the spec: [prepare_tensor] of the package's [utils]
    module, which is not part of this file; a request carries named integer
    tensors, so the input is its name paired with its rows. *)
Definition prepare_tensor (name : string) (rows : list (list Z)) : string * list (list Z) :=
  (name, rows).

(** [.astype(np.int32)] on one entry: wrap-around to 32 signed bits. *)
Definition astype_int32 (z : Z) : Z := (z + 2 ^ 31) mod 2 ^ 32 - 2 ^ 31.

(** What [client.infer] is called with. *)
Record infer_request : Type := {
  req_model : string;
  req_inputs : list (string * list (list Z))
}.

(** The gRPC client: [client.infer(...)] followed by
    [result.as_numpy("logits")], one row of per-position logits per input
    row, or the error of the transport or of the server. *)
Definition triton_client (Lg : Type) : Type :=
  string -> infer_request -> result (list (list Lg)).

(** [triton_host.split("/")] *)
Fixpoint split_slash (s : string) : list string :=
  match s with
  | EmptyString => [EmptyString]
  | String c r =>
      if Ascii.eqb c "/"%char then EmptyString :: split_slash r
      else match split_slash r with
           | [] => [String c EmptyString]
           | w :: ws => String c w :: ws
           end
  end.

(** The set-up part of [triton_server_ref_model]: the url and the model
    name the closure [ref_model] captures. *)
Definition triton_server_ref_model (environ : gmap string string)
    : result (string * string) :=
  match environ !! "TRITON_HOST_REF"%string with
  | None => Raise AssertionError
  | Some triton_host =>
      match split_slash triton_host with
      | [triton_url; triton_model] => Ok (triton_url, triton_model)
      | _ => Raise ValueError
      end
  end.

Definition mbs : nat := 8.

(** [math.ceil(len(all_tokens) / mbs)] *)
Definition num_chunks (n : nat) : nat := ((n + (mbs - 1)) / mbs)%nat.

(** The request of turn [i] of the loop. *)
Definition chunk_request (triton_model : string) (all_tokens attention_masks : list (list Z))
    (i : nat) : infer_request :=
  let lo := Z.of_nat (i * mbs) in
  let hi := Z.of_nat ((i + 1) * mbs) in
  {| req_model := triton_model;
     req_inputs :=
       [ prepare_tensor "input_ids" (map (map astype_int32) (Py.slice all_tokens lo hi));
         prepare_tensor "attention_mask" (map (map astype_int32) (Py.slice attention_masks lo hi)) ] |}.

(** [for i in range(...)]: the requests sent so far (oldest first) and the
    list [out], or the error that ended the loop. *)
Fixpoint ref_model_loop {Lg} (client : triton_client Lg) (triton_url triton_model : string)
    (all_tokens attention_masks : list (list Z)) (turns : list nat)
    (sent : list infer_request) (out : list (list (list Lg)))
    : list infer_request * result (list (list (list Lg))) :=
  match turns with
  | [] => (sent, Ok out)
  | i :: rest =>
      let req := chunk_request triton_model all_tokens attention_masks i in
      match client triton_url req with
      | Raise e => (sent ++ [req], Raise e)
      | Ok logits =>
          ref_model_loop client triton_url triton_model all_tokens attention_masks rest
            (sent ++ [req]) (out ++ [logits])
      end
  end.

(** [torch.cat(out, dim=0)]; an empty list of tensors is refused. *)
Definition torch_cat0 {A} (out : list (list A)) : result (list A) :=
  match out with
  | [] => Raise RuntimeError
  | _ => Ok (concat out)
  end.

(** The closure [ref_model(all_tokens, attention_masks)], together with the
    requests it sent. *)
Definition ref_model_traced {Lg} (client : triton_client Lg) (triton_url triton_model : string)
    (all_tokens attention_masks : list (list Z))
    : list infer_request * result (list (list Lg)) :=
  let '(sent, out) :=
    ref_model_loop client triton_url triton_model all_tokens attention_masks
      (seq 0 (num_chunks (length all_tokens))) [] [] in
  (sent, out ≫= torch_cat0).

Definition ref_model {Lg} (client : triton_client Lg) (triton_url triton_model : string)
    (all_tokens attention_masks : list (list Z)) : result (list (list Lg)) :=
  snd (ref_model_traced client triton_url triton_model all_tokens attention_masks).

(** One request with the whole batch: what the loop is compared with. *)
Definition whole_batch_request (triton_model : string) (all_tokens attention_masks : list (list Z))
    : infer_request :=
  {| req_model := triton_model;
     req_inputs :=
       [ prepare_tensor "input_ids" (map (map astype_int32) all_tokens);
         prepare_tensor "attention_mask" (map (map astype_int32) attention_masks) ] |}.

(** ** Rollout data *)

(** A batch drawn from the prompt iterator. *)
Record batch : Type := {
  input_ids : list (list Z);
  attention_mask : list (list Z)
}.

(** [trlx.data.ppo_types.PPORLElement] *)
Record PPORLElement (F : Type) : Type := {
  query_tensor : list Z;
  response_tensor : list Z;
  logprobs : list F;
  values : list F;
  rewards : list F
}.
Arguments query_tensor {F} _.
Arguments response_tensor {F} _.
Arguments logprobs {F} _.
Arguments values {F} _.
Arguments rewards {F} _.

(** The collaborators of [make_experience]. [Lg] is the logits of one
    position, [RM] the state of [RunningMoments]. *)
Record world (F Lg RM : Type) : Type := {
  (** [next(self.prompt_iterator)]: the batch of the k-th draw *)
  next_batch : nat -> batch;
  (** [super().generate] under a forced end-of-sequence id *)
  generate : Z -> batch -> result (list (list Z));
  (** [self.reward_fn(samples=, prompts=, outputs=)] *)
  reward_fn : list string -> list string -> list string -> result (list F);
  (** [self.model(all_tokens, attention_mask=)]: logits and values *)
  model : list (list Z) -> list (list Z) -> result (list (list Lg) * list (list F));
  (** [hasattr(self.model, "frozen_head")] and [forward_hydra(...).logits] *)
  has_frozen_head : bool;
  forward_hydra : list (list Z) -> list (list Z) -> result (list (list Lg));
  (** the Triton endpoint behind [self.ref_model] *)
  client : triton_client Lg;
  triton_url : string;
  triton_model : string;
  (** one entry of [logprobs_of_labels]: the log-probability a position's
      logits give to a label *)
  logprob_of_label : Lg -> Z -> F;
  (** [RunningMoments]: [update] returns the new state and the batch's
      mean and std *)
  rm_update : RM -> list F -> RM * (F * F);
  rm_mean : RM -> F;
  rm_std : RM -> F;
  (** [self.accelerator] and [torch.distributed] *)
  is_main_process : bool;
  num_processes : nat;
  dist_initialized : bool;
  pad_across_processes : list (list Z) -> Z -> list (list Z);
  gather : list (list Z) -> list (list Z);
  gather_sizes : list Z -> list Z;
  scatter : nat -> option (list (list F)) -> result (list F);
  all_reduce_avg : F -> F;
  (** the wall-clock interval recorded under a statistics key *)
  wall : string -> F
}.
Arguments next_batch {F Lg RM} _.
Arguments generate {F Lg RM} _.
Arguments reward_fn {F Lg RM} _.
Arguments model {F Lg RM} _.
Arguments has_frozen_head {F Lg RM} _.
Arguments forward_hydra {F Lg RM} _.
Arguments client {F Lg RM} _.
Arguments triton_url {F Lg RM} _.
Arguments triton_model {F Lg RM} _.
Arguments logprob_of_label {F Lg RM} _.
Arguments rm_update {F Lg RM} _.
Arguments rm_mean {F Lg RM} _.
Arguments rm_std {F Lg RM} _.
Arguments is_main_process {F Lg RM} _.
Arguments num_processes {F Lg RM} _.
Arguments dist_initialized {F Lg RM} _.
Arguments pad_across_processes {F Lg RM} _.
Arguments gather {F Lg RM} _.
Arguments gather_sizes {F Lg RM} _.
Arguments scatter {F Lg RM} _.
Arguments all_reduce_avg {F Lg RM} _.
Arguments wall {F Lg RM} _.

(** The attributes of the trainer that [make_experience] reads and
    writes. [store] lists the arguments of the calls of [push_to_store],
    [logged] those of [accelerator.log], oldest first. *)
Record trainer (F RM : Type) : Type := {
  ref_mean : option F;
  ref_std : option F;
  running_moments : RM;
  mean_kl : option F;
  kl_ctl_value : F;
  drawn : nat;
  store : list (list (PPORLElement F));
  logged : list (gmap string F * Z)
}.
Arguments ref_mean {F RM} _.
Arguments ref_std {F RM} _.
Arguments running_moments {F RM} _.
Arguments mean_kl {F RM} _.
Arguments kl_ctl_value {F RM} _.
Arguments drawn {F RM} _.
Arguments store {F RM} _.
Arguments logged {F RM} _.

(** ** Stages of one turn of the loop of [make_experience] *)

(** [t.reshape(num_processes, -1).unbind()] on a 1-d tensor: the number
    of rows must be positive and divide the number of entries; a tensor
    without entries gives rows without entries. *)
Fixpoint rows_of {A} (width : nat) (count : nat) (l : list A) : list (list A) :=
  match count with
  | O => []
  | S c => take width l :: rows_of width c (drop width l)
  end.

Definition reshape_rows {A} (np : nat) (l : list A) : result (list (list A)) :=
  if (np =? 0)%nat then Raise RuntimeError
  else if negb (length l mod np =? 0)%nat then Raise RuntimeError
  else Ok (rows_of (length l / np) np l).

(** Lines 720-757: gather on every worker, decode and score on the main
    one, then hand each worker its shard. *)
Definition collect_scores {F Lg RM} (w : world F Lg RM) (tk : tokenizer) (cfg : settings F)
    (prompt_tensors samples : list (list Z)) : result (list F) :=
  let prompt_sizes := repeat (Py.shape1 prompt_tensors) (length prompt_tensors) in
  let padded_samples := pad_across_processes w samples (pad_token_id tk) in
  let padded_prompts := pad_across_processes w prompt_tensors (pad_token_id tk) in
  let gathered_samples := gather w padded_samples in
  let gathered_prompts := gather w padded_prompts in
  let gathered_prompt_sizes := gather_sizes w prompt_sizes in
  all_scores ←
    (if is_main_process w then
       '(all_str_samples, all_str_prompts, all_str_outputs) ←
         decode tk cfg gathered_prompts gathered_samples (Some gathered_prompt_sizes) true;
       all_scores ← reward_fn w all_str_samples all_str_prompts all_str_outputs;
       rows ← reshape_rows (num_processes w) all_scores;
       Ok (Some rows)
     else Ok None);
  if dist_initialized w then scatter w (length samples) all_scores
  else match all_scores with
       | None => Raise TypeError
       | Some [] => Raise IndexError
       | Some (shard :: _) => Ok shard
       end.

(** [max(map(len, outputs))] *)
Definition max_len {A} (outputs : list (list A)) : result nat :=
  match outputs with
  | [] => Raise ValueError
  | _ => Ok (foldr Nat.max 0%nat (map length outputs))
  end.

(** [F.pad(output, (0, maxsize - len(output)), value=pad)] *)
Definition pad_right (pad : Z) (maxsize : nat) (output : list Z) : list Z :=
  output ++ repeat pad (maxsize - length output).

(** Lines 759-778: decode the local samples, tokenize the outputs again
    and pad them to one width. *)
Definition local_sample_outputs {F} (tk : tokenizer) (cfg : settings F)
    (prompt_tensors samples : list (list Z)) : result (list (list Z)) :=
  '(str_samples, str_prompts, str_outputs) ← decode tk cfg prompt_tensors samples None true;
  let outputs := map (tok_encode tk) str_outputs in
  let outputs := if is_seq2seq cfg then map (cons (pad_token_id tk)) outputs else outputs in
  maxsize ← max_len outputs;
  Ok (map (pad_right (pad_token_id tk) maxsize) outputs).

(** Lines 781-783: the reference pair is taken from the scores while
    [ref_mean] is [None]; the running moments are updated in any case. The
    triple ends with the batch mean and std that [update] returns. *)
Definition update_moments {F Lg RM} `{Scalar F} (w : world F Lg RM) (st : trainer F RM)
    (scores : list F) : trainer F RM * (F * F) :=
  let '(rmean, rstd) :=
    match ref_mean st with
    | None => (Some (tmean scores), Some (tstd scores))
    | Some _ => (ref_mean st, ref_std st)
    end in
  let '(rm, batch_moments) := rm_update w (running_moments st) scores in
  ({| ref_mean := rmean; ref_std := rstd; running_moments := rm;
      mean_kl := mean_kl st; kl_ctl_value := kl_ctl_value st; drawn := drawn st;
      store := store st; logged := logged st |},
   batch_moments).

(** Lines 789-792: [scores /= std] by the configured mode. *)
Definition scale_scores {F Lg RM} `{Scalar F} (w : world F Lg RM) (cfg : settings F)
    (st : trainer F RM) (scores : list F) : result (list F) :=
  match scale_reward cfg with
  | Some mode =>
      if String.eqb mode "running" then
        Ok (map (fun s => fdiv s (rm_std w (running_moments st))) scores)
      else if String.eqb mode "ref" then
        match ref_std st with
        | Some std => Ok (map (fun s => fdiv s std) scores)
        | None => Raise TypeError
        end
      else Ok scores
  | None => Ok scores
  end.

(** [torch.clip(x, lo, hi)] on one entry: [min(max(x, lo), hi)]. *)
Definition clip1 {F} `{Scalar F} (lo hi x : F) : F :=
  let m := if fle x lo then lo else x in
  if fle m hi then m else hi.

(** Lines 794-796: [if clip_reward: scores = torch.clip(...)]. *)
Definition clip_scores {F} `{Scalar F} (cfg : settings F) (scores : list F) : list F :=
  match cliprange_reward cfg with
  | Some clip_reward =>
      if ftruthy clip_reward then map (clip1 (fneg clip_reward) clip_reward) scores
      else scores
  | None => scores
  end.

(** [torch.cat((a, b), dim=1)]: the row counts must agree. *)
Definition torch_cat1 {A} (a b : list (list A)) : result (list (list A)) :=
  if (length a =? length b)%nat then Ok (zip_with app a b)
  else Raise RuntimeError.

(** [all_tokens.not_equal(pad).long()] *)
Definition not_pad_mask (pad : Z) (all_tokens : list (list Z)) : list (list Z) :=
  map (map (fun t => if t =? pad then 0 else 1)) all_tokens.

(** What the forward passes hand to the rest of the turn. *)
Record forward_out (F Lg : Type) : Type := {
  all_tokens : list (list Z);
  mask : list (list Z);
  logits : list (list Lg);
  model_values : list (list F);
  ref_logits : list (list Lg)
}.
Arguments all_tokens {F Lg} _.
Arguments mask {F Lg} _.
Arguments logits {F Lg} _.
Arguments model_values {F Lg} _.
Arguments ref_logits {F Lg} _.

(** Lines 799-850: the policy and the reference forward pass. The
    sequence-to-sequence branch raises before any model is called. *)
Definition forward_pass {F Lg RM} (w : world F Lg RM) (tk : tokenizer) (cfg : settings F)
    (prompt_tensors sample_outputs : list (list Z)) : result (forward_out F Lg) :=
  if is_seq2seq cfg then Raise NotImplementedError
  else
    toks ← torch_cat1 prompt_tensors sample_outputs;
    let attention_mask := not_pad_mask (pad_token_id tk) toks in
    '(lg, vals) ← model w toks attention_mask;
    rlg ← (if has_frozen_head w then forward_hydra w toks attention_mask
           else ref_model (client w) (triton_url w) (triton_model w) toks attention_mask);
    Ok {| all_tokens := toks; mask := attention_mask; logits := lg;
          model_values := vals; ref_logits := rlg |}.

(** [torch.gather] along the last axis: the result has the shape of the
    index, and the input may not be smaller. *)
Fixpoint gather_with {A B C} (f : A -> B -> C) (xs : list A) (ys : list B) {struct ys}
    : result (list C) :=
  match ys with
  | [] => Ok []
  | y :: ys' =>
      match xs with
      | [] => Raise RuntimeError
      | x :: xs' => r ← gather_with f xs' ys'; Ok (f x y :: r)
      end
  end.

Fixpoint gather_rows {A B C} (f : A -> B -> C) (xs : list (list A)) (ys : list (list B))
    {struct ys} : result (list (list C)) :=
  match ys with
  | [] => Ok []
  | y :: ys' =>
      match xs with
      | [] => Raise RuntimeError
      | x :: xs' => r ← gather_with f x y; rs ← gather_rows f xs' ys'; Ok (r :: rs)
      end
  end.

(** [logprobs_of_labels(logits[:, :-1, :], all_tokens[:, 1:])] *)
Definition logprobs_of_labels {F Lg} (lpl : Lg -> Z -> F) (lg : list (list Lg))
    (toks : list (list Z)) : result (list (list F)) :=
  gather_rows lpl (map (fun r => Py.slice_to r (-1)) lg) (map (fun r => Py.slice_from r 1) toks).

(** [sum] of a mask row. *)
Definition zsum (l : list Z) : Z := foldr Z.add 0 l.

(** [range(n)], mapped in order with the first error ending it. *)
Fixpoint for_each {A B} (f : A -> result B) (l : list A) : result (list B) :=
  match l with
  | [] => Ok []
  | x :: l' => y ← f x; ys ← for_each f l'; Ok (y :: ys)
  end.

(** [t[ix]] for [ix] from a [range]. *)
Definition at_index {A} (t : list A) (ix : nat) : result A :=
  match t !! ix with
  | Some r => Ok r
  | None => Raise IndexError
  end.

(** [xs[-1] += v] *)
Definition add_to_last {F} `{Scalar F} (xs : list F) (v : F) : result (list F) :=
  match reverse xs with
  | [] => Raise IndexError
  | x :: before => Ok (reverse before ++ [fadd x v])
  end.

(** The tensors of lines 856-885 that the elements are cut from. *)
Record shaped (F : Type) : Type := {
  start : Z;
  log_ratio : list (list F);
  ends : list Z;
  all_values : list (list F);
  all_logprobs : list (list F);
  kl_penalty : list (list F)
}.
Arguments start {F} _.
Arguments log_ratio {F} _.
Arguments ends {F} _.
Arguments all_values {F} _.
Arguments all_logprobs {F} _.
Arguments kl_penalty {F} _.

(** Lines 856-885. For a causal model [start] is the last prompt column;
    [ends[ix]] is [start], plus the number of non-padding columns from
    [start] on, plus one. *)
Definition shape_rollout {F Lg} `{Scalar F} (lpl : Lg -> Z -> F) (kl : F)
    (prompt_tensors : list (list Z)) (n_samples : nat) (fo : forward_out F Lg)
    : result (shaped F) :=
  lp ← logprobs_of_labels lpl (logits fo) (all_tokens fo);
  rlp ← logprobs_of_labels lpl (ref_logits fo) (all_tokens fo);
  let start := Py.shape1 prompt_tensors - 1 in
  let log_ratio :=
    zip_with (zip_with (fun d m => fmul d (of_int m)))
      (zip_with (zip_with fsub) lp rlp)
      (map (fun r => Py.slice_to r (-1)) (mask fo)) in
  let vals := map (fun r => Py.slice_to r (-1)) (model_values fo) in
  let ends := map (fun r => start + zsum (Py.slice_from r start) + 1) (mask fo) in
  all_values ←
    for_each (fun ix => r ← at_index vals ix; e ← at_index ends ix; Ok (Py.slice r start e))
      (seq 0 n_samples);
  all_logprobs ←
    for_each (fun ix => r ← at_index lp ix; e ← at_index ends ix; Ok (Py.slice r start e))
      (seq 0 n_samples);
  let kl_penalty := map (map (fun x => fmul kl (fneg x))) log_ratio in
  kl_penalty ←
    for_each (fun '(ix, xs) => e ← at_index ends ix; Ok (Py.slice xs start e))
      (zip (seq 0 (length kl_penalty)) kl_penalty);
  Ok {| start := start; log_ratio := log_ratio; ends := ends;
        all_values := all_values; all_logprobs := all_logprobs;
        kl_penalty := kl_penalty |}.

(** Lines 889-903: one replay element per sample; the score of the sample
    is added to the last entry of its slice of the KL penalty. *)
Definition build_element {F} `{Scalar F} (prompt_tensors sample_outputs : list (list Z))
    (sh : shaped F) (scores : list F) (sample_idx : nat) : result (PPORLElement F) :=
  rewards ← at_index (kl_penalty sh) sample_idx;
  score ← at_index scores sample_idx;
  rewards ← add_to_last rewards score;
  query ← at_index prompt_tensors sample_idx;
  response ← at_index sample_outputs sample_idx;
  lp ← at_index (all_logprobs sh) sample_idx;
  vs ← at_index (all_values sh) sample_idx;
  Ok {| query_tensor := query; response_tensor := response;
        logprobs := lp; values := vs; rewards := rewards |}.

Definition build_elements {F} `{Scalar F} (prompt_tensors sample_outputs : list (list Z))
    (sh : shaped F) (scores : list F) (n_samples : nat) : result (list (PPORLElement F)) :=
  for_each (build_element prompt_tensors sample_outputs sh scores) (seq 0 n_samples).

(** [(log_ratio.exp() - 1 - log_ratio).mean()] *)
Definition kl_estimate {F} `{Scalar F} (log_ratio : list (list F)) : F :=
  tmean (concat (map (map (fun x => fsub (fsub (fexp x) fone) x)) log_ratio)).

(** What one turn leaves behind: the trainer, the new elements, the
    statistics written in this turn, and the scores before and after
    scaling and clipping. *)
Record turn_out (F RM : Type) : Type := {
  after : trainer F RM;
  elements : list (PPORLElement F);
  turn_stats : gmap string F;
  raw_scores : list F;
  final_scores : list F;
  cut_from : shaped F;
  padded_outputs : list (list Z)
}.
Arguments after {F RM} _.
Arguments elements {F RM} _.
Arguments turn_stats {F RM} _.
Arguments raw_scores {F RM} _.
Arguments final_scores {F RM} _.
Arguments cut_from {F RM} _.
Arguments padded_outputs {F RM} _.

(** The body of [while len(ppo_rl_elements) < num_rollouts] (lines
    708-904). *)
Definition rollout_turn {F Lg RM} `{Scalar F} (w : world F Lg RM) (tk : tokenizer)
    (cfg : settings F) (st : trainer F RM) : result (turn_out F RM) :=
  let batch := next_batch w (drawn st) in
  samples ← generate w (eos_token_id tk) batch;
  let prompt_tensors := input_ids batch in
  scores ← collect_scores w tk cfg prompt_tensors samples;
  sample_outputs ← local_sample_outputs tk cfg prompt_tensors samples;
  let '(st1, (all_scores_mean, all_scores_std)) := update_moments w st scores in
  let stats : gmap string F :=
    <["exp_scores/running_std"%string := rm_std w (running_moments st1)]>
    (<["exp_scores/running_mean"%string := rm_mean w (running_moments st1)]>
    (<["exp_scores/std"%string := all_scores_std]>
    (<["exp_scores/mean"%string := all_scores_mean]>
    ((if is_main_process w
      then <["time/exp_score"%string := wall w "time/exp_score"]> else id)
    (<["time/exp_generate"%string := wall w "time/exp_generate"]> ∅))))) in
  scaled ← scale_scores w cfg st1 scores;
  let clipped := clip_scores cfg scaled in
  fo ← forward_pass w tk cfg prompt_tensors sample_outputs;
  let n_samples := length samples in
  sh ← shape_rollout (logprob_of_label w) (kl_ctl_value st1) prompt_tensors n_samples fo;
  elems ← build_elements prompt_tensors sample_outputs sh clipped n_samples;
  Ok {| after :=
          {| ref_mean := ref_mean st1; ref_std := ref_std st1;
             running_moments := running_moments st1;
             mean_kl := Some (kl_estimate (log_ratio sh));
             kl_ctl_value := kl_ctl_value st1; drawn := S (drawn st1);
             store := store st1; logged := logged st1 |};
        elements := elems; turn_stats := stats;
        raw_scores := scores; final_scores := clipped;
        cut_from := sh; padded_outputs := sample_outputs |}.

(** ** [make_experience] *)

(** The local variables of the loop: the elements so far, [stats], and
    whether [exp_time] has been assigned. *)
Record loop_vars (F RM : Type) : Type := {
  self : trainer F RM;
  ppo_rl_elements : list (PPORLElement F);
  stats : gmap string F;
  exp_time_bound : bool
}.
Arguments self {F RM} _.
Arguments ppo_rl_elements {F RM} _.
Arguments stats {F RM} _.
Arguments exp_time_bound {F RM} _.

(** The [while] loop under a bound on its turns; [None] when the bound is
    used up before the loop ends. *)
Fixpoint rollout_loop {F Lg RM} `{Scalar F} (turns : nat) (w : world F Lg RM)
    (tk : tokenizer) (cfg : settings F) (num_rollouts : Z) (v : loop_vars F RM)
    : option (result (loop_vars F RM)) :=
  if Z.of_nat (length (ppo_rl_elements v)) <? num_rollouts then
    match turns with
    | O => None
    | S turns' =>
        match rollout_turn w tk cfg (self v) with
        | Raise e => Some (Raise e)
        | Ok t =>
            rollout_loop turns' w tk cfg num_rollouts
              {| self := after t;
                 ppo_rl_elements := ppo_rl_elements v ++ elements t;
                 stats := turn_stats t ∪ stats v;
                 exp_time_bound := true |}
        end
    end
  else Some (Ok v).

(** Lines 909-919: the summary statistics, [accelerator.log] and the one
    call of [push_to_store]. *)
Definition finish_rollouts {F Lg RM} `{Scalar F} (w : world F Lg RM) (iter_count : Z)
    (v : loop_vars F RM) : result (trainer F RM) :=
  match mean_kl (self v) with
  | None => Raise AttributeError
  | Some kl =>
      let kl := if dist_initialized w then all_reduce_avg w kl else kl in
      if negb (exp_time_bound v) then Raise NameError
      else
        let stats :=
          <["time/exp"%string := wall w "time/exp"]>
          (<["kl_ctl_value"%string := kl_ctl_value (self v)]>
          (<["policy/sqrt_kl"%string := fsqrt kl]> (stats v))) in
        Ok {| ref_mean := ref_mean (self v); ref_std := ref_std (self v);
              running_moments := running_moments (self v);
              mean_kl := Some kl;
              kl_ctl_value := kl_ctl_value (self v); drawn := drawn (self v);
              store := store (self v) ++ [ppo_rl_elements v];
              logged := logged (self v) ++ [(stats, iter_count)] |}
  end.

(** [make_experience(num_rollouts, iter_count)]. A turn that returns adds
    an element, so [num_rollouts] turns are enough for the loop. *)
Definition make_experience {F Lg RM} `{Scalar F} (w : world F Lg RM) (tk : tokenizer)
    (cfg : settings F) (num_rollouts iter_count : Z) (st : trainer F RM)
    : option (result (trainer F RM)) :=
  match rollout_loop (Z.to_nat num_rollouts) w tk cfg num_rollouts
          {| self := st; ppo_rl_elements := []; stats := ∅; exp_time_bound := false |} with
  | None => None
  | Some (Raise e) => Some (Raise e)
  | Some (Ok v) => Some (finish_rollouts w iter_count v)
  end.

(** ** Tokenizer set-up in [CustomPPOTrainer.__init__] *)

Module HF.

(** The loaded tokenizer as the constructor sees it: the vocabulary, the
    special tokens, and the id given to a token outside the vocabulary.
    This is the documented behaviour of the tokenizer library, which the
    file imports. *)
Record t : Type := {
  vocab : gmap string Z;
  pad_token : option string;
  eos_token : option string;
  unk_token_id : option Z;
  padding_side : string;
  truncation_side : string
}.

(** [convert_tokens_to_ids] *)
Definition id_of (tk : t) (tok : string) : option Z :=
  match vocab tk !! tok with
  | Some i => Some i
  | None => unk_token_id tk
  end.

(** The properties [pad_token_id] and [eos_token_id]: [None] without the
    token. *)
Definition pad_token_id (tk : t) : option Z := pad_token tk ≫= id_of tk.
Definition eos_token_id (tk : t) : option Z := eos_token tk ≫= id_of tk.

(** [add_special_tokens({"pad_token": tok})]: a token the vocabulary
    lacks gets the next id, [len(tokenizer)]. *)
Definition add_pad_token (tk : t) (tok : string) : t :=
  {| vocab :=
       match vocab tk !! tok with
       | Some _ => vocab tk
       | None => <[tok := Z.of_nat (size (vocab tk))]> (vocab tk)
       end;
     pad_token := Some tok;
     eos_token := eos_token tk;
     unk_token_id := unk_token_id tk;
     padding_side := padding_side tk;
     truncation_side := truncation_side tk |}.

(** Lines 513-524 of [__init__]. *)
Definition init_tokenizer (loaded : t) (cfg_padding_side cfg_truncation_side : string) : t :=
  let tk :=
    if decide (pad_token_id loaded = eos_token_id loaded)
    then add_pad_token loaded "<|padding|>"
    else loaded in
  {| vocab := vocab tk; pad_token := pad_token tk; eos_token := eos_token tk;
     unk_token_id := unk_token_id tk;
     padding_side := cfg_padding_side; truncation_side := cfg_truncation_side |}.

(** Ids are the numbers below the size of the vocabulary, one per
    token. *)
Definition well_formed (tk : t) : Prop :=
  (forall tok i, vocab tk !! tok = Some i -> 0 <= i < Z.of_nat (size (vocab tk))) /\
  (forall tok1 tok2 i, vocab tk !! tok1 = Some i -> vocab tk !! tok2 = Some i -> tok1 = tok2).

End HF.

(** [CustomPPOTrainer.__init__]: the tokenizer, then the constructor of the
    base trainer, then the reference model. The base constructor is handed
    in: it runs on the trainer that holds the tokenizer set up so far, and
    its outcome is the tokenizer it leaves in [self.tokenizer] with the rest
    of what it builds. The result is the tokenizer of the constructed
    trainer, that rest, and the reference model. *)
Definition trainer_init {Base} (loaded : HF.t) (cfg_padding_side cfg_truncation_side : string)
    (super_init : HF.t -> result (HF.t * Base)) (environ : gmap string string)
    : result (HF.t * Base * (string * string)) :=
  let tk := HF.init_tokenizer loaded cfg_padding_side cfg_truncation_side in
  '(tk, base) ← super_init tk;
  ref ← triton_server_ref_model environ;
  Ok (tk, base, ref).

(** ** A small concrete instance *)

(** A tokenizer, a single-process world over the rationals and a trainer
    on which the definitions above run; the examples below are stated on
    them. *)
Module Toy.

(** Token 0 is the padding token, token 2 the end-of-sequence token;
    any other token is the character with its code. *)
Definition word (tok : Z) : string :=
  if tok =? 0 then "<pad>"%string
  else if tok =? 2 then "</s>"%string
  else String (ascii_of_nat (Z.to_nat tok)) EmptyString.

Definition detok (ids : list Z) : string := foldr (fun tok s => word tok +:+ s) EmptyString ids.

Fixpoint entok_from (skip : nat) (s : string) : list Z :=
  match s with
  | EmptyString => []
  | String c r =>
      match skip with
      | S k => entok_from k r
      | O =>
          if String.prefix "</s>" s then 2 :: entok_from 3 r
          else if String.prefix "<pad>" s then 0 :: entok_from 4 r
          else Z.of_nat (nat_of_ascii c) :: entok_from 0 r
      end
  end.

Definition tk : tokenizer :=
  {| pad_token_id := 0; eos_token_id := 2; eos_token := "</s>"; sep_token := "<sep>";
     tok_decode := detok; tok_encode := entok_from 0 |}.

Definition cfg (stops : list string) (mode : option string) (clip : option Q) : settings Q :=
  {| model_arch_type := "causal"; scale_reward := mode;
     cliprange_reward := clip; stop_sequences := stops |}.

Definition seq2seq_cfg : settings Q :=
  {| model_arch_type := "seq2seq"; scale_reward := None;
     cliprange_reward := None; stop_sequences := [] |}.

(** The Triton server: one row of logits per input row, each position's
    logits standing for the token id read there. *)
Definition score_row (ids mask : list Z) : list Q := map inject_Z ids.

Definition triton : triton_client Q := fun url req =>
  match req_inputs req with
  | [(_, ids); (_, masks)] => Ok (zip_with score_row ids masks)
  | _ => Raise (ExternalError 400)
  end.

(** A server whose answer depends on the size of the request: every
    position reports the number of rows received. *)
Definition counting_triton : triton_client Q := fun url req =>
  match req_inputs req with
  | [(_, ids); (_, masks)] =>
      Ok (map (map (fun _ => inject_Z (Z.of_nat (length ids)))) ids)
  | _ => Raise (ExternalError 400)
  end.

(** A server that refuses a request holding token 99. *)
Definition failing_triton : triton_client Q := fun url req =>
  match req_inputs req with
  | [(_, ids); (_, masks)] =>
      if existsb (fun r => existsb (fun t => t =? 99) r) ids
      then Raise (ExternalError 503) else Ok (zip_with score_row ids masks)
  | _ => Raise (ExternalError 400)
  end.

(** Every prompt is continued with the tokens of [continuations], row
    by row, then padded with token 0 to one width. *)
Definition gen (continuations : list (list Z)) (forced_eos : Z) (b : batch)
    : result (list (list Z)) :=
  let rows := zip_with app (input_ids b) continuations in
  let width := foldr Nat.max 0%nat (map length rows) in
  Ok (map (pad_right 0 width) rows).

Definition world_of (prompts : list (list Z)) (continuations : list (list Z))
    (scores : list Q) : world Q Q (list Q) :=
  {| next_batch := fun _ =>
       {| input_ids := prompts;
          attention_mask := map (map (fun t => if t =? 0 then 0 else 1)) prompts |};
     generate := gen continuations;
     reward_fn := fun _ _ outputs => Ok (take (length outputs) scores);
     model := fun toks _ => Ok (map (map (fun t => inject_Z (2 * t))) toks,
                                map (map (fun t => inject_Z (10 * t))) toks);
     has_frozen_head := false;
     forward_hydra := fun _ _ => Raise RuntimeError;
     client := triton;
     triton_url := "localhost:8001";
     triton_model := "ref";
     logprob_of_label := fun lg label => (lg - inject_Z label)%Q;
     rm_update := fun rm xs => (rm ++ xs, (tmean xs, tstd xs));
     rm_mean := tmean;
     rm_std := fun rm => 2%Q;
     is_main_process := true;
     num_processes := 1;
     dist_initialized := false;
     pad_across_processes := fun t _ => t;
     gather := fun t => t;
     gather_sizes := fun t => t;
     scatter := fun _ _ => Raise RuntimeError;
     all_reduce_avg := fun x => x;
     wall := fun _ => 0%Q |}.

Definition fresh_trainer : trainer Q (list Q) :=
  {| ref_mean := None; ref_std := None; running_moments := [];
     mean_kl := None; kl_ctl_value := (1 # 10)%Q; drawn := 0%nat;
     store := []; logged := [] |}.

(** Four two-token prompts, three generated tokens each, the last one
    the end-of-sequence token; scores 1, -2, 1/2 and 3; clip range 2. *)
Definition scenario : world Q Q (list Q) :=
  world_of [[80; 81]; [82; 83]; [84; 85]; [86; 87]]
           [[65; 66; 2]; [67; 68; 2]; [69; 70; 2]; [71; 72; 2]]
           [1%Q; (-2)%Q; (1 # 2)%Q; 3%Q].

Definition scenario_cfg : settings Q := cfg [] None (Some 2%Q).

(** One prompt of two tokens, continued with three tokens. *)
Definition one_example : world Q Q (list Q) :=
  world_of [[80; 81]] [[65; 66; 2]] [1%Q].

(** Two prompts of two tokens: the first is continued with five tokens,
    the second with a token, the stop string ["#"] and the end of the
    sequence, so that its response is two tokens after trimming. *)
Definition two_lengths : world Q Q (list Q) :=
  world_of [[80; 81]; [82; 83]] [[65; 66; 67; 68; 2]; [69; 35; 2]] [1%Q; 3%Q].

Definition hash_stop_cfg : settings Q := cfg ["#"%string] None None.

(** A loaded tokenizer whose padding token is its end-of-sequence
    token. *)
Definition loaded : HF.t :=
  {| HF.vocab := <["</s>"%string := 2]> (<["<unk>"%string := 1]> (<["<s>"%string := 0]> ∅));
     HF.pad_token := Some "</s>"%string; HF.eos_token := Some "</s>"%string;
     HF.unk_token_id := Some 1;
     HF.padding_side := "right"; HF.truncation_side := "right" |}.

(** A loaded tokenizer whose end-of-sequence token is ["<|padding|>"]
    and is its padding token as well. *)
Definition padding_is_eos : HF.t :=
  {| HF.vocab := <["<|padding|>"%string := 1]> (<["<s>"%string := 0]> ∅);
     HF.pad_token := Some "<|padding|>"%string;
     HF.eos_token := Some "<|padding|>"%string;
     HF.unk_token_id := None;
     HF.padding_side := "right"; HF.truncation_side := "right" |}.

(** The environment of the process. *)
Definition environ : gmap string string :=
  {["TRITON_HOST_REF"%string := "localhost:8001/ref"%string]}.

(** A base constructor that leaves the tokenizer as it finds it, and one
    that makes the end-of-sequence token the padding token. *)
Definition keeping_base (tk : HF.t) : result (HF.t * unit) := Ok (tk, tt).

Definition resetting_base (tk : HF.t) : result (HF.t * unit) :=
  Ok ({| HF.vocab := HF.vocab tk; HF.pad_token := HF.eos_token tk;
         HF.eos_token := HF.eos_token tk; HF.unk_token_id := HF.unk_token_id tk;
         HF.padding_side := HF.padding_side tk;
         HF.truncation_side := HF.truncation_side tk |}, tt).

End Toy.

(** ** Notions used in the statements *)

(** A server that scores every row of a request on its own: row [k] of
    the answer is [f] of row [k] of the token ids and of the mask, whatever
    else the request holds. *)
Definition row_wise {Lg} (client : triton_client Lg) (f : list Z -> list Z -> list Lg) : Prop :=
  forall url triton_model ids masks,
    client url {| req_model := triton_model;
                  req_inputs := [ prepare_tensor "input_ids" ids;
                                  prepare_tensor "attention_mask" masks ] |}
    = Ok (zip_with f ids masks).

(** [k] turns of the loop in a row, oldest first. *)
Fixpoint run_turns {F Lg RM} `{Scalar F} (k : nat) (w : world F Lg RM) (tk : tokenizer)
    (cfg : settings F) (st : trainer F RM) : result (list (turn_out F RM)) :=
  match k with
  | O => Ok []
  | S k' =>
      t ← rollout_turn w tk cfg st;
      ts ← run_turns k' w tk cfg (after t);
      Ok (t :: ts)
  end.

(** The trainer after the turns [ts] that started from [st]. *)
Definition state_after {F RM} (st : trainer F RM) (ts : list (turn_out F RM))
    : trainer F RM :=
  fold_left (fun _ t => after t) ts st.

(** The elements of the turns [ts], in the order of their creation. *)
Definition collected {F RM} (ts : list (turn_out F RM)) : list (PPORLElement F) :=
  concat (map elements ts).

(** The running moments after the score batches [bs], oldest first. *)
Definition moments_after {F Lg RM} (w : world F Lg RM) (rm : RM) (bs : list (list F)) : RM :=
  fold_left (fun rm b => fst (rm_update w rm b)) bs rm.

(** The penalty of one position: [kl_ctl.value * -log_ratio]. *)
Definition penalty {F} `{Scalar F} (kl x : F) : F := fmul kl (fneg x).

(** A text without ["/"]. *)
Fixpoint slash_free (s : string) : bool :=
  match s with
  | EmptyString => true
  | String c r => negb (Ascii.eqb c "/"%char) && slash_free r
  end.

(** What the server answered to the request of turn [i] (nothing when it
    failed). *)
Definition chunk_answer {Lg} (client : triton_client Lg) (triton_url triton_model : string)
    (all_tokens attention_masks : list (list Z)) (i : nat) : list (list Lg) :=
  match client triton_url (chunk_request triton_model all_tokens attention_masks i) with
  | Ok lg => lg
  | Raise _ => []
  end.

(** The steps behind a turn that returned [t] from the trainer [st]. *)
Inductive turn_steps {F Lg RM} `{Scalar F} (w : world F Lg RM) (tk : tokenizer)
    (cfg : settings F) (st : trainer F RM) (t : turn_out F RM) : Prop :=
  | Turn_steps (samples : list (list Z)) (scaled : list F) (fo : forward_out F Lg)
      (ts_generate : generate w (eos_token_id tk) (next_batch w (drawn st)) = Ok samples)
      (ts_scores :
         collect_scores w tk cfg (input_ids (next_batch w (drawn st))) samples
         = Ok (raw_scores t))
      (ts_outputs :
         local_sample_outputs tk cfg (input_ids (next_batch w (drawn st))) samples
         = Ok (padded_outputs t))
      (ts_scale :
         scale_scores w cfg (fst (update_moments w st (raw_scores t))) (raw_scores t)
         = Ok scaled)
      (ts_clip : final_scores t = clip_scores cfg scaled)
      (ts_fwd :
         forward_pass w tk cfg (input_ids (next_batch w (drawn st))) (padded_outputs t)
         = Ok fo)
      (ts_shape :
         shape_rollout (logprob_of_label w) (kl_ctl_value st)
           (input_ids (next_batch w (drawn st))) (length samples) fo
         = Ok (cut_from t))
      (ts_build :
         build_elements (input_ids (next_batch w (drawn st))) (padded_outputs t)
           (cut_from t) (final_scores t) (length samples)
         = Ok (elements t))
      (ts_moments :
         running_moments (after t)
         = running_moments (fst (update_moments w st (raw_scores t))))
      (ts_ref_mean :
         ref_mean (after t) = ref_mean (fst (update_moments w st (raw_scores t))))
      (ts_ref_std :
         ref_std (after t) = ref_std (fst (update_moments w st (raw_scores t))))
      (ts_kl : kl_ctl_value (after t) = kl_ctl_value st)
      (ts_store : store (after t) = store st)
      (ts_logged : logged (after t) = logged st)
      (ts_mean_kl : mean_kl (after t) = Some (kl_estimate (log_ratio (cut_from t)))).

(** The lengths of [logprobs], [values] and [rewards] of each element, and
    the number of tokens of each response before padding. *)
Definition element_lengths {F RM} (t : turn_out F RM) : list (nat * nat * nat) :=
  map (fun e => (length (logprobs e), length (values e), length (rewards e))) (elements t).

Definition response_lengths {F RM} (pad : Z) (t : turn_out F RM) : list nat :=
  map (fun r => length (drop_pad pad r)) (padded_outputs t).

(** The forward pass returns one value per token: [values] has the shape
    of [all_tokens]. *)
Definition values_per_token {F Lg RM} (w : world F Lg RM) : Prop :=
  forall toks attention_mask lg vals,
    model w toks attention_mask = Ok (lg, vals) -> map length vals = map length toks.

(** [out] is [text] cut at the first occurrence of one of the stop
    strings, with the white space before the cut removed. *)
Definition cut_at (text : string) (stops : list string) (out : string) : Prop :=
  exists stop stop_ix,
    In stop stops /\ Py.find text stop = Some stop_ix /\
    out = Py.rstrip (Py.prefix_to text stop_ix).

(** ** Exceptions of the generation and loading code *)

(** The exceptions above, and two more that only the code below raises. *)
Inductive exn_ext : Type :=
  | Base (e : exn)
  | ZeroDivisionError
  | KeyError (key : string).

Inductive outcome (A : Type) : Type :=
  | Return (a : A)
  | Throw (e : exn_ext).
Arguments Return {A} a.
Arguments Throw {A} e.

#[global] Instance outcome_ret : MRet outcome := fun A a => Return a.
#[global] Instance outcome_bind : MBind outcome := fun A B f m =>
  match m with
  | Return a => f a
  | Throw e => Throw e
  end.

Definition lift {A} (r : result A) : outcome A :=
  match r with
  | Ok a => Return a
  | Raise e => Throw (Base e)
  end.

(** [a // b] on Python integers. *)
Definition floor_div (a b : Z) : outcome Z :=
  if b =? 0 then Throw ZeroDivisionError else Return (a / b).

(** The two tests the code makes on a float of the configuration:
    [x > 0.0] and [x != 1.0]. *)
Class PyFloat (P : Type) : Type := {
  gt_zero : P -> bool;
  ne_one : P -> bool
}.

#[global] Instance Q_float : PyFloat Q := {|
  gt_zero := fun x => negb (Qle_bool x 0);
  ne_one := fun x => negb (Qeq_bool x 1)
|}.

(** ** [_get_logits_processor] *)

Module Gen.

Section Processors.
Context {P Fn Decay : Type} `{PyFloat P}.

(** An end-of-sequence id of a generation configuration: one id or a
    list of ids. *)
Definition eos_spec : Type := (Z + list Z)%type.

(** The fields of [GenerationConfig] the function reads. *)
Record config : Type := {
  diversity_penalty : option P;
  num_beams : Z;
  num_beam_groups : Z;
  encoder_repetition_penalty : option P;
  repetition_penalty : option P;
  no_repeat_ngram_size : option Z;
  encoder_no_repeat_ngram_size : option Z;
  bad_words_ids : option (list (list Z));
  eos_token_id : option eos_spec;
  min_length : option Z;
  min_new_tokens : option Z;
  forced_bos_token_id : option Z;
  forced_eos_token_id : option eos_spec;
  max_length : option Z;
  remove_invalid_values : option bool;
  exponential_decay_length_penalty : option Decay;
  suppress_tokens : option (list Z);
  begin_suppress_tokens : option (list Z);
  forced_decoder_ids : option (list (list Z));
  renormalize_logits : option bool
}.

(** The logits processors the function builds, each with the arguments
    of its constructor. The checks that the constructors of the library
    make on these arguments are not part of this file and are not
    modelled: a list is returned here also where such a check would
    raise. *)
Inductive processor : Type :=
  | HammingDiversityLogitsProcessor (diversity_penalty : P) (num_beams num_beam_groups : Z)
  | EncoderRepetitionPenaltyLogitsProcessor (penalty : P) (encoder_input_ids : list (list Z))
  | RepetitionPenaltyLogitsProcessor (penalty : P)
  | NoRepeatNGramLogitsProcessor (ngram_size : Z)
  | EncoderNoRepeatNGramLogitsProcessor (ngram_size : Z) (encoder_input_ids : list (list Z))
  | NoBadWordsLogitsProcessor (bad_words_ids : list (list Z)) (eos : option eos_spec)
  | MinLengthLogitsProcessor (min_length : Z) (eos : eos_spec)
  | PrefixConstrainedLogitsProcessor (fn : Fn) (num_beams : Z)
  | ForcedBOSTokenLogitsProcessor (bos_token_id : Z)
  | ForcedEOSTokenLogitsProcessor (max_length : option Z) (eos : eos_spec)
  | InfNanRemoveLogitsProcessor
  | ExponentialDecayLengthPenalty (penalty : Decay) (eos : option eos_spec)
      (input_ids_seq_length : Z)
  | SuppressTokensLogitsProcessor (suppress_tokens : list Z)
  | SuppressTokensAtBeginLogitsProcessor (begin_suppress_tokens : list Z) (begin_index : Z)
  | ForceTokensLogitsProcessor (forced_decoder_ids : list (list Z))
  | LogitNormalization.

(** [processors.append(p)] under a condition. *)
Definition append_if (cond : bool) (p : processor) (processors : list processor)
    : list processor :=
  if cond then processors ++ [p] else processors.

(** [x is not None and test(x)] *)
Definition set_and {A} (x : option A) (test : A -> bool) : bool :=
  match x with
  | Some v => test v
  | None => false
  end.

(** [begin_index] of lines 135-143. *)
Definition begin_index (gc : config) (input_ids_seq_length : Z) : result Z :=
  let begin_index := input_ids_seq_length in
  let begin_index :=
    if (1 <? input_ids_seq_length) || negb (bool_decide (is_Some (forced_bos_token_id gc)))
    then begin_index else begin_index + 1 in
  match forced_decoder_ids gc with
  | Some ids =>
      last_pair ← Py.item ids (-1);
      first ← Py.item last_pair 0;
      Ok (begin_index + first)
  | None => Ok begin_index
  end.

(** The steps of lines 52-148, each on the list built so far. *)

Definition add_hamming_diversity (gc : config) (processors : list processor)
    : list processor :=
  match diversity_penalty gc with
  | Some d => append_if (gt_zero d)
                (HammingDiversityLogitsProcessor d (num_beams gc) (num_beam_groups gc))
                processors
  | None => processors
  end.

Definition add_encoder_repetition_penalty (gc : config) (encoder_input_ids : list (list Z))
    (processors : list processor) : list processor :=
  match encoder_repetition_penalty gc with
  | Some p => append_if (ne_one p)
                (EncoderRepetitionPenaltyLogitsProcessor p encoder_input_ids) processors
  | None => processors
  end.

Definition add_repetition_penalty (gc : config) (processors : list processor)
    : list processor :=
  match repetition_penalty gc with
  | Some p => append_if (ne_one p) (RepetitionPenaltyLogitsProcessor p) processors
  | None => processors
  end.

Definition add_no_repeat_ngram (gc : config) (processors : list processor)
    : list processor :=
  match no_repeat_ngram_size gc with
  | Some n => append_if (0 <? n) (NoRepeatNGramLogitsProcessor n) processors
  | None => processors
  end.

Definition add_encoder_no_repeat_ngram (is_encoder_decoder : bool) (gc : config)
    (encoder_input_ids : list (list Z)) (processors : list processor)
    : outcome (list processor) :=
  match encoder_no_repeat_ngram_size gc with
  | Some n =>
      if 0 <? n then
        if is_encoder_decoder
        then Return (processors ++ [EncoderNoRepeatNGramLogitsProcessor n encoder_input_ids])
        else Throw (Base ValueError)
      else Return processors
  | None => Return processors
  end.

Definition add_no_bad_words (gc : config) (processors : list processor)
    : list processor :=
  match bad_words_ids gc with
  | Some b => processors ++ [NoBadWordsLogitsProcessor b (eos_token_id gc)]
  | None => processors
  end.

Definition add_min_length (gc : config) (processors : list processor)
    : list processor :=
  match min_length gc, eos_token_id gc with
  | Some m, Some e => append_if (0 <? m) (MinLengthLogitsProcessor m e) processors
  | _, _ => processors
  end.

(** Lines 98-109: the branch for [min_new_tokens] is [pass]. *)
Definition add_min_new_tokens (gc : config) (processors : list processor)
    : list processor :=
  match min_new_tokens gc, eos_token_id gc with
  | Some m, Some e => if 0 <? m then processors else processors
  | _, _ => processors
  end.

Definition add_prefix_constrained (gc : config) (prefix_allowed_tokens_fn : option Fn)
    (processors : list processor) : outcome (list processor) :=
  match prefix_allowed_tokens_fn with
  | Some fn =>
      beams ← floor_div (num_beams gc) (num_beam_groups gc);
      Return (processors ++ [PrefixConstrainedLogitsProcessor fn beams])
  | None => Return processors
  end.

Definition add_forced_bos (gc : config) (processors : list processor)
    : list processor :=
  match forced_bos_token_id gc with
  | Some b => processors ++ [ForcedBOSTokenLogitsProcessor b]
  | None => processors
  end.

Definition add_forced_eos (gc : config) (processors : list processor)
    : list processor :=
  match forced_eos_token_id gc with
  | Some e => processors ++ [ForcedEOSTokenLogitsProcessor (max_length gc) e]
  | None => processors
  end.

Definition add_inf_nan_remove (gc : config) (processors : list processor)
    : list processor :=
  append_if (bool_decide (remove_invalid_values gc = Some true))
    InfNanRemoveLogitsProcessor processors.

Definition add_exponential_decay (gc : config) (input_ids_seq_length : Z)
    (processors : list processor) : list processor :=
  match exponential_decay_length_penalty gc with
  | Some d => processors ++ [ExponentialDecayLengthPenalty d (eos_token_id gc)
                               input_ids_seq_length]
  | None => processors
  end.

Definition add_suppress_tokens (gc : config) (processors : list processor)
    : list processor :=
  match suppress_tokens gc with
  | Some s => processors ++ [SuppressTokensLogitsProcessor s]
  | None => processors
  end.

Definition add_begin_suppress (gc : config) (input_ids_seq_length : Z)
    (processors : list processor) : outcome (list processor) :=
  match begin_suppress_tokens gc with
  | Some s =>
      ix ← lift (begin_index gc input_ids_seq_length);
      Return (processors ++ [SuppressTokensAtBeginLogitsProcessor s ix])
  | None => Return processors
  end.

Definition add_force_tokens (gc : config) (processors : list processor)
    : list processor :=
  match forced_decoder_ids gc with
  | Some ids => processors ++ [ForceTokensLogitsProcessor ids]
  | None => processors
  end.

(** Lines 48-148: the list handed to [_merge_criteria_processor_list]. *)
Definition default_processors (is_encoder_decoder : bool) (gc : config)
    (input_ids_seq_length : Z) (encoder_input_ids : list (list Z))
    (prefix_allowed_tokens_fn : option Fn) : outcome (list processor) :=
  let processors : list processor := [] in
  let processors := add_hamming_diversity gc processors in
  let processors := add_encoder_repetition_penalty gc encoder_input_ids processors in
  let processors := add_repetition_penalty gc processors in
  let processors := add_no_repeat_ngram gc processors in
  processors ← add_encoder_no_repeat_ngram is_encoder_decoder gc encoder_input_ids
                 processors;
  let processors := add_no_bad_words gc processors in
  let processors := add_min_length gc processors in
  let processors := add_min_new_tokens gc processors in
  processors ← add_prefix_constrained gc prefix_allowed_tokens_fn processors;
  let processors := add_forced_bos gc processors in
  let processors := add_forced_eos gc processors in
  let processors := add_inf_nan_remove gc processors in
  let processors := add_exponential_decay gc input_ids_seq_length processors in
  let processors := add_suppress_tokens gc processors in
  processors ← add_begin_suppress gc input_ids_seq_length processors;
  let processors := add_force_tokens gc processors in
  Return processors.

(** [_get_logits_processor]. [merge] is the method
    [_merge_criteria_processor_list] of the generation mixin, applied to
    the default list and the caller's [logits_processor]. *)
Definition _get_logits_processor
    (merge : list processor -> option (list processor) -> outcome (list processor))
    (is_encoder_decoder : bool) (gc : config) (input_ids_seq_length : Z)
    (encoder_input_ids : list (list Z)) (prefix_allowed_tokens_fn : option Fn)
    (logits_processor : option (list processor)) : outcome (list processor) :=
  processors ← default_processors is_encoder_decoder gc input_ids_seq_length
                 encoder_input_ids prefix_allowed_tokens_fn;
  processors ← merge processors logits_processor;
  Return (append_if (bool_decide (renormalize_logits gc = Some true))
            LogitNormalization processors).

(** The place of a processor in the order in which the function
    considers them. *)
Definition rank (p : processor) : nat :=
  match p with
  | HammingDiversityLogitsProcessor _ _ _ => 0
  | EncoderRepetitionPenaltyLogitsProcessor _ _ => 1
  | RepetitionPenaltyLogitsProcessor _ => 2
  | NoRepeatNGramLogitsProcessor _ => 3
  | EncoderNoRepeatNGramLogitsProcessor _ _ => 4
  | NoBadWordsLogitsProcessor _ _ => 5
  | MinLengthLogitsProcessor _ _ => 6
  | PrefixConstrainedLogitsProcessor _ _ => 7
  | ForcedBOSTokenLogitsProcessor _ => 8
  | ForcedEOSTokenLogitsProcessor _ _ => 9
  | InfNanRemoveLogitsProcessor => 10
  | ExponentialDecayLengthPenalty _ _ _ => 11
  | SuppressTokensLogitsProcessor _ => 12
  | SuppressTokensAtBeginLogitsProcessor _ _ => 13
  | ForceTokensLogitsProcessor _ => 14
  | LogitNormalization => 15
  end%nat.

End Processors.

Arguments config : clear implicits.
Arguments processor : clear implicits.

End Gen.

(** ** [sample] *)

Module Sampling.

Section Sample.
(** [Out] is what a forward pass returns, [K] the model keyword arguments,
    [Sc] the scores of one step, [T] a tuple entry of attentions or hidden
    states, [G] the state of the random generator, [LP] a list of logits
    processors, [SC] a list of stopping criteria. *)
Context {Out K Sc T G LP SC : Type}.

(** The model and the library behind [sample]. A call into them that
    can raise returns a [result]. *)
Record collaborators : Type := {
  (** the forward pass [self] on what [prepare_inputs_for_generation] makes
      of [input_ids] and [model_kwargs], with [output_attentions] and
      [output_hidden_states] *)
  forward : list (list Z) -> K -> bool -> bool -> result Out;
  (** [outputs.logits[:, -1, :]] *)
  last_logits : Out -> result Sc;
  (** [processors(input_ids, scores)], and the empty [LogitsProcessorList()] *)
  apply_processors : LP -> list (list Z) -> Sc -> result Sc;
  no_processors : LP;
  (** [torch.multinomial(softmax(scores), num_samples=1).squeeze(1)] *)
  multinomial : G -> Sc -> result (list Z * G);
  (** [self._update_model_kwargs_for_generation] *)
  update_model_kwargs : Out -> K -> result K;
  (** [stopping_criteria(input_ids, scores)], the empty list of criteria
      and [validate_stopping_criteria] *)
  stops : SC -> list (list Z) -> option (list Sc) -> result bool;
  no_criteria : SC;
  validate_stopping_criteria : SC -> Z -> SC;
  (** the sum that [dist.all_reduce] adds to this peer's flag in the
      given turn of the loop: the number of other peers still generating *)
  peers_generating : nat -> nat;
  (** [self.config.is_encoder_decoder] *)
  is_encoder_decoder : bool;
  (** [self.generation_config] *)
  gc_pad_token_id : option Z;
  gc_eos_token_id : option (Z + list Z);
  gc_output_scores : bool;
  gc_output_attentions : bool;
  gc_output_hidden_states : bool;
  gc_return_dict_in_generate : bool;
  (** fields of [outputs] and of [model_kwargs["encoder_outputs"]] *)
  decoder_attentions_of : Out -> T;
  attentions_of : Out -> T;
  cross_attentions_of : Out -> T;
  decoder_hidden_states_of : Out -> T;
  hidden_states_of : Out -> T;
  encoder_attentions_of : K -> result (option T);
  encoder_hidden_states_of : K -> result (option T)
}.

(** The arguments of [sample] after [input_ids]. *)
Record arguments : Type := {
  logits_processor : option LP;
  stopping_criteria : option SC;
  logits_warper : option LP;
  max_length : option Z;
  pad_token_id : option Z;
  eos_token_id : option (Z + list Z);
  output_attentions : option bool;
  output_hidden_states : option bool;
  output_scores : option bool;
  return_dict_in_generate : option bool;
  synced_gpus : bool;
  (** whether a streamer is given *)
  streamer : bool;
  model_kwargs : K;
  (** the random generator at the time of the call *)
  generator : G
}.

(** What [sample] returns. *)
Inductive sample_output : Type :=
  | Sequences (input_ids : list (list Z))
  | SampleDecoderOnlyOutput (sequences : list (list Z)) (scores : option (list Sc))
      (attentions hidden_states : option (list T))
  | SampleEncoderDecoderOutput (sequences : list (list Z)) (scores : option (list Sc))
      (encoder_attentions encoder_hidden_states : option T)
      (decoder_attentions cross_attentions decoder_hidden_states : option (list T)).

Definition sequences_of (out : sample_output) : list (list Z) :=
  match out with
  | Sequences ids => ids
  | SampleDecoderOnlyOutput ids _ _ _ => ids
  | SampleEncoderDecoderOutput ids _ _ _ _ _ _ => ids
  end.

Definition scores_of (out : sample_output) : option (list Sc) :=
  match out with
  | Sequences _ => None
  | SampleDecoderOnlyOutput _ scores _ _ => scores
  | SampleEncoderDecoderOutput _ scores _ _ _ _ _ => scores
  end.

(** The variables the loop changes. [streamed] lists the arguments of
    [streamer.put], [turn] counts the turns of the loop. *)
Record loop_state : Type := {
  input_ids : list (list Z);
  unfinished_sequences : list Z;
  this_peer_finished : bool;
  kwargs : K;
  scores : option (list Sc);
  decoder_attentions : option (list T);
  cross_attentions : option (list T);
  decoder_hidden_states : option (list T);
  rng : G;
  streamed : list (list Z);
  turn : nat
}.

(** [x if x is not None else default] *)
Definition or_default {A} (x : option A) (default : A) : A :=
  match x with
  | Some v => v
  | None => default
  end.

(** [if isinstance(eos_token_id, int): eos_token_id = [eos_token_id]] *)
Definition eos_list (eos : option (Z + list Z)) : option (list Z) :=
  match eos with
  | Some (inl e) => Some [e]
  | Some (inr es) => Some es
  | None => None
  end.

(** [tuple += (x,)] on a tuple that may be [None]: adding to [None]
    raises. *)
Definition tuple_add {A} (tuple : option (list A)) (x : A) : result (option (list A)) :=
  match tuple with
  | Some xs => Ok (Some (xs ++ [x]))
  | None => Raise TypeError
  end.

(** Elementwise arithmetic on two vectors of one length. *)
Definition zip_exact {A B C} (f : A -> B -> C) (xs : list A) (ys : list B)
    : result (list C) :=
  if (length xs =? length ys)%nat then Ok (zip_with f xs ys) else Raise RuntimeError.

(** [next_tokens * unfinished_sequences + pad_token_id * (1 - unfinished_sequences)] *)
Definition pad_finished (pad : Z) (next_tokens unfinished : list Z) : result (list Z) :=
  zip_exact (fun tok u => tok * u + pad * (1 - u)) next_tokens unfinished.

(** [next_tokens.tile(k, 1).ne(eos.unsqueeze(1)).prod(dim=0)] on one
    entry: 1 when the token is none of the end-of-sequence ids. *)
Definition not_eos (eos : list Z) (tok : Z) : Z :=
  foldr Z.mul 1 (map (fun e => if tok =? e then 0 else 1) eos).

(** What one turn of [while True] does with the state. *)
Inductive step : Type :=
  | Break (st : loop_state)
  | Continue (st : loop_state).

Definition next_turn (st : loop_state) : loop_state :=
  {| input_ids := input_ids st; unfinished_sequences := unfinished_sequences st;
     this_peer_finished := this_peer_finished st; kwargs := kwargs st;
     scores := scores st; decoder_attentions := decoder_attentions st;
     cross_attentions := cross_attentions st;
     decoder_hidden_states := decoder_hidden_states st;
     rng := rng st; streamed := streamed st; turn := S (turn st) |}.

(** The body of the loop, lines 332-409. *)
Definition loop_body (c : collaborators) (a : arguments)
    (logits_processor' logits_warper' : LP) (stopping_criteria' : SC)
    (pad : option Z) (eos : option (list Z))
    (output_scores' output_attentions' output_hidden_states' return_dict' : bool)
    (st : loop_state) : result step :=
  if synced_gpus a
     && ((if this_peer_finished st then 0 else 1) + peers_generating c (turn st) =? 0)%nat
  then Ok (Break st)
  else
    outputs ← forward c (input_ids st) (kwargs st) output_attentions' output_hidden_states';
    if synced_gpus a && this_peer_finished st then Ok (Continue (next_turn st))
    else
      next_token_logits ← last_logits c outputs;
      next_token_scores ← apply_processors c logits_processor' (input_ids st)
                            next_token_logits;
      next_token_scores ← apply_processors c logits_warper' (input_ids st)
                            next_token_scores;
      scores' ←
        (if return_dict' && output_scores' then tuple_add (scores st) next_token_scores
         else Ok (scores st));
      decoder_attentions' ←
        (if return_dict' && output_attentions' then
           tuple_add (decoder_attentions st)
             (if is_encoder_decoder c then decoder_attentions_of c outputs
              else attentions_of c outputs)
         else Ok (decoder_attentions st));
      cross_attentions' ←
        (if return_dict' && output_attentions' && is_encoder_decoder c then
           tuple_add (cross_attentions st) (cross_attentions_of c outputs)
         else Ok (cross_attentions st));
      decoder_hidden_states' ←
        (if return_dict' && output_hidden_states' then
           tuple_add (decoder_hidden_states st)
             (if is_encoder_decoder c then decoder_hidden_states_of c outputs
              else hidden_states_of c outputs)
         else Ok (decoder_hidden_states st));
      '(next_tokens, rng') ← multinomial c (rng st) next_token_scores;
      next_tokens ←
        (match eos with
         | Some _ =>
             match pad with
             | None => Raise ValueError
             | Some pad_token_id =>
                 pad_finished pad_token_id next_tokens (unfinished_sequences st)
             end
         | None => Ok next_tokens
         end);
      input_ids' ← zip_exact (fun r tok => r ++ [tok]) (input_ids st) next_tokens;
      let streamed' := if streamer a then streamed st ++ [next_tokens] else streamed st in
      kwargs' ← update_model_kwargs c outputs (kwargs st);
      unfinished' ←
        (match eos with
         | Some es =>
             zip_exact Z.mul (unfinished_sequences st) (map (not_eos es) next_tokens)
         | None => Ok (unfinished_sequences st)
         end);
      let st' :=
        {| input_ids := input_ids'; unfinished_sequences := unfinished';
           this_peer_finished := this_peer_finished st; kwargs := kwargs';
           scores := scores'; decoder_attentions := decoder_attentions';
           cross_attentions := cross_attentions';
           decoder_hidden_states := decoder_hidden_states';
           rng := rng'; streamed := streamed'; turn := S (turn st) |} in
      stop ← stops c stopping_criteria' input_ids' scores';
      if (stop : bool) then
        if negb (synced_gpus a) then Ok (Break st')
        else Ok (Continue
                   {| input_ids := input_ids'; unfinished_sequences := unfinished';
                      this_peer_finished := true; kwargs := kwargs';
                      scores := scores'; decoder_attentions := decoder_attentions';
                      cross_attentions := cross_attentions';
                      decoder_hidden_states := decoder_hidden_states';
                      rng := rng'; streamed := streamed'; turn := S (turn st) |})
      else Ok (Continue st').

(** [while True] under a bound on its turns; [None] when the bound is
    used up. *)
Fixpoint loop (turns : nat) (c : collaborators) (a : arguments)
    (logits_processor' logits_warper' : LP) (stopping_criteria' : SC)
    (pad : option Z) (eos : option (list Z))
    (output_scores' output_attentions' output_hidden_states' return_dict' : bool)
    (st : loop_state) : option (result loop_state) :=
  match turns with
  | O => None
  | S turns' =>
      match loop_body c a logits_processor' logits_warper' stopping_criteria' pad eos
              output_scores' output_attentions' output_hidden_states' return_dict' st with
      | Raise e => Some (Raise e)
      | Ok (Break st') => Some (Ok st')
      | Ok (Continue st') =>
          loop turns' c a logits_processor' logits_warper' stopping_criteria' pad eos
            output_scores' output_attentions' output_hidden_states' return_dict' st'
      end
  end.

(** Lines 295-298: the padding id and the end-of-sequence ids in force,
    the argument first, the generation configuration of the model
    otherwise. *)
Definition pad_of (c : collaborators) (a : arguments) : option Z :=
  match pad_token_id a with
  | Some p => Some p
  | None => gc_pad_token_id c
  end.

Definition eos_of (c : collaborators) (a : arguments) : option (list Z) :=
  eos_list (match eos_token_id a with
            | Some e => Some e
            | None => gc_eos_token_id c
            end).

(** [sample(input_ids, ...)], with the number of deprecation warnings it
    issued; [None] when the loop has not ended within [turns] turns. *)
Definition sample (turns : nat) (c : collaborators) (prompt : list (list Z))
    (a : arguments) : option (result (sample_output * nat)) :=
  let logits_processor' := or_default (logits_processor a) (no_processors c) in
  let stopping_criteria' := or_default (stopping_criteria a) (no_criteria c) in
  let '(stopping_criteria', warned) :=
    match max_length a with
    | Some m => (validate_stopping_criteria c stopping_criteria' m, 1%nat)
    | None => (stopping_criteria', 0%nat)
    end in
  let logits_warper' := or_default (logits_warper a) (no_processors c) in
  let pad := pad_of c a in
  let eos := eos_of c a in
  let output_scores' := or_default (output_scores a) (gc_output_scores c) in
  let output_attentions' := or_default (output_attentions a) (gc_output_attentions c) in
  let output_hidden_states' :=
    or_default (output_hidden_states a) (gc_output_hidden_states c) in
  let return_dict' :=
    or_default (return_dict_in_generate a) (gc_return_dict_in_generate c) in
  let tuple_if (b : bool) {A} : option (list A) := if b then Some [] else None in
  match
    (if return_dict' && is_encoder_decoder c then
       ea ← (if output_attentions' then encoder_attentions_of c (model_kwargs a)
             else Ok None);
       eh ← (if output_hidden_states' then encoder_hidden_states_of c (model_kwargs a)
             else Ok None);
       Ok (ea, eh)
     else Ok (None, None))
  with
  | Raise e => Some (Raise e)
  | Ok (encoder_attentions, encoder_hidden_states) =>
      match
        loop turns c a logits_processor' logits_warper' stopping_criteria' pad eos
          output_scores' output_attentions' output_hidden_states' return_dict'
          {| input_ids := prompt;
             unfinished_sequences := repeat 1 (length prompt);
             this_peer_finished := false;
             kwargs := model_kwargs a;
             scores := tuple_if (return_dict' && output_scores');
             decoder_attentions := tuple_if (return_dict' && output_attentions');
             cross_attentions := tuple_if (return_dict' && output_attentions');
             decoder_hidden_states := tuple_if (return_dict' && output_hidden_states');
             rng := generator a; streamed := []; turn := 0 |}
      with
      | None => None
      | Some (Raise e) => Some (Raise e)
      | Some (Ok st) =>
          Some (Ok
            (if return_dict' then
               if is_encoder_decoder c then
                 SampleEncoderDecoderOutput (input_ids st) (scores st)
                   encoder_attentions encoder_hidden_states
                   (decoder_attentions st) (cross_attentions st)
                   (decoder_hidden_states st)
               else
                 SampleDecoderOnlyOutput (input_ids st) (scores st)
                   (decoder_attentions st) (decoder_hidden_states st)
             else Sequences (input_ids st),
             warned))
      end
  end.

(** In the generated part [g] of a row, whatever follows an
    end-of-sequence id is the padding id. *)
Definition padded_after_eos (eos : list Z) (pad : Z) (g : list Z) : Prop :=
  forall before e after, g = before ++ e :: after -> In e eos -> Forall (eq pad) after.

(** A row of [unfinished_sequences] (entry [u]) and its generated part
    [g]: the entry is 0 or 1, a row still marked 1 holds no
    end-of-sequence id, and the padding rule holds. *)
Definition row_state (eos : list Z) (pad : Z) (u : Z) (g : list Z) : Prop :=
  (u = 0 \/ u = 1) /\
  (u = 1 -> Forall (fun tok => ~ In tok eos) g) /\
  padded_after_eos eos pad g.

End Sample.

Arguments collaborators : clear implicits.
Arguments arguments : clear implicits.
Arguments sample_output : clear implicits.
Arguments loop_state : clear implicits.
Arguments step : clear implicits.

End Sampling.

(** ** [CustomPPOTrainer.generate] and [generate_eval] *)

(** A keyword argument of [generate]. *)
Inductive kwarg : Type :=
  | IntArg (z : Z)
  | TensorArg (t : list (list Z))
  | OtherArg (repr : string).

(** [kwargs['forced_eos_token_id'] = self.tokenizer.eos_token_id], then
    the [generate] of the base trainer on the same [input_ids] and
    positional arguments. *)
Definition trainer_generate {A}
    (super_generate : list (list Z) -> list kwarg -> gmap string kwarg -> result A)
    (tk : tokenizer) (input_ids : list (list Z)) (args : list kwarg)
    (kwargs : gmap string kwarg) : result A :=
  let kwargs := <["forced_eos_token_id"%string := IntArg (eos_token_id tk)]> kwargs in
  super_generate input_ids args kwargs.

Definition trainer_generate_eval {A}
    (super_generate : list (list Z) -> list kwarg -> gmap string kwarg -> result A)
    (tk : tokenizer) (input_ids : list (list Z)) (args : list kwarg)
    (kwargs : gmap string kwarg) : result A :=
  let kwargs := <["forced_eos_token_id"%string := IntArg (eos_token_id tk)]> kwargs in
  super_generate input_ids args kwargs.

(** ** [CustomPromptPipeline] *)

Module Pipeline.

(** The attributes of the pipeline: whether [self.tokenizer] is true,
    and [self.prompts], each entry the ["input_ids"] and the
    ["attention_mask"] of one prompt. *)
Record t : Type := {
  has_tokenizer : bool;
  prompts : list (list Z * list Z)
}.

(** The loop of lines 985-988: the number of warnings issued, the loop
    ending at the first prompt without the end-of-sequence id. *)
Fixpoint warn_truncated (eos : Z) (prompts_tokens : list (list Z)) : nat :=
  match prompts_tokens with
  | [] => 0
  | prompt_tokens :: rest =>
      if negb (existsb (Z.eqb eos) prompt_tokens) then 1
      else warn_truncated eos rest
  end.

(** [__init__(prompts, max_prompt_length, tokenizer)]: the pipeline and
    the number of warnings. [tokenize] is the call of the tokenizer with
    truncation and padding to [max_length], returning ["input_ids"] and
    ["attention_mask"]. *)
Definition init (tokenize : list string -> Z -> result (list (list Z) * list (list Z)))
    (tokenizer_true : bool) (eos_token_id : Z)
    (prompts : list string) (max_prompt_length : Z) : result (t * nat) :=
  if max_prompt_length <? 16 then Raise ValueError
  else
    '(prompts_tokens_, attention_mask) ← tokenize prompts max_prompt_length;
    let warned := warn_truncated eos_token_id prompts_tokens_ in
    let prompts_tokens := prompts_tokens_ in
    Ok ({| has_tokenizer := tokenizer_true;
           prompts := zip prompts_tokens attention_mask |}, warned).

(** [__getitem__(ix)] *)
Definition getitem (p : t) (ix : Z) : result (list Z * list Z) := Py.item (prompts p) ix.

(** [__len__()] *)
Definition len (p : t) : nat := length (prompts p).

(** [create_loader(batch_size, shuffle)]: the arguments given to
    [DataLoader]. *)
Inductive collate : Type := DataCollatorWithPadding | torch_vstack.

Definition create_loader (p : t) (batch_size : Z) (shuffle : bool)
    : t * Z * collate * bool :=
  let collate_fn := if has_tokenizer p then DataCollatorWithPadding else torch_vstack in
  (p, batch_size, collate_fn, shuffle).

End Pipeline.

(** ** [CustomCausalLMHydraWithValueHead.from_pretrained] *)

Module Loader.

Section FromPretrained.
(** [Model] is the model with its heads, [W] a tensor of weights. *)
Context {Model W : Type}.

(** The file system, the hub and the libraries behind the loader. *)
Record collaborators : Type := {
  (** [cls(get_model(config, tokenizer, ...), num_layers_unfrozen=...)] *)
  build : result Model;
  (** [os.path.exists] and [os.path.join] *)
  path_exists : string -> bool;
  path_join : string -> string -> string;
  (** [hf_hub_download(repo, filename, revision=revision)] *)
  hf_hub_download : string -> string -> result string;
  (** [json.load] of the index file, then [index["weight_map"].items()] *)
  weight_map_items : string -> outcome (list (string * string));
  (** [cls._supported_modules] *)
  supported_modules : list string;
  (** the order in which Python iterates over a set *)
  set_order : gset string -> list string;
  (** [torch.load(filename, map_location="cpu")] *)
  torch_load : string -> result (gmap string W);
  (** [model.post_init(state_dict=state_dict)] *)
  post_init : Model -> gmap string W -> result Model
}.

(** [module in k] on strings. *)
Definition contains (k module : string) : bool :=
  match Py.find k module with
  | Some _ => true
  | None => false
  end.

(** Lines 484-487: the shard files that hold a weight of a supported
    module. *)
Definition files_to_download (c : collaborators) (items : list (string * string))
    : gset string :=
  fold_left
    (fun files kv =>
       if existsb (contains (fst kv)) (supported_modules c)
       then files ∪ {[snd kv]} else files)
    items ∅.

(** Lines 494-499 for the shard files [shards] in turn: the requests made
    to the hub so far and the merged state dict. *)
Fixpoint load_shards (c : collaborators) (name : string) (shards : list string)
    (asked : list (string * string)) (state_dict : gmap string W)
    : list (string * string) * outcome (gmap string W) :=
  match shards with
  | [] => (asked, Return state_dict)
  | shard_file :: rest =>
      let filename := path_join c name shard_file in
      let '(asked, filename) :=
        if negb (path_exists c filename)
        then (asked ++ [(name, shard_file)], hf_hub_download c name shard_file)
        else (asked, Ok filename) in
      match filename with
      | Raise e => (asked, Throw (Base e))
      | Ok filename =>
          match torch_load c filename with
          | Raise e => (asked, Throw (Base e))
          | Ok shard => load_shards c name rest asked (shard ∪ state_dict)
          end
      end
  end.

(** Lines 461-503: the requests made to the hub, oldest first, and the
    state dict. [model_name] is [config.model_name]: a path or repository
    name, or a model given by its state dict. *)
Definition load_state_dict (c : collaborators) (model_name : string + gmap string W)
    : list (string * string) * outcome (gmap string W) :=
  match model_name with
  | inr own_state_dict => ([], Return own_state_dict)
  | inl name =>
      let filename := path_join c name "pytorch_model.bin" in
      let sharded_index_filename := path_join c name "pytorch_model.bin.index.json" in
      if path_exists c filename then ([], lift (torch_load c filename))
      else
        match hf_hub_download c name "pytorch_model.bin" with
        | Ok filename => ([(name, "pytorch_model.bin"%string)], lift (torch_load c filename))
        | Raise _ =>
            let asked := [(name, "pytorch_model.bin"%string)] in
            let '(asked, index_file_name) :=
              if path_exists c sharded_index_filename
              then (asked, Ok sharded_index_filename)
              else (asked ++ [(name, "pytorch_model.bin.index.json"%string)],
                    hf_hub_download c name "pytorch_model.bin.index.json") in
            match index_file_name with
            | Raise e => (asked, Throw (Base e))
            | Ok index_file_name =>
                match weight_map_items c index_file_name with
                | Throw e => (asked, Throw e)
                | Return items =>
                    load_shards c name (set_order c (files_to_download c items)) asked ∅
                end
            end
        end
  end.

(** [from_pretrained(config, tokenizer)] *)
Definition from_pretrained (c : collaborators) (model_name : string + gmap string W)
    : list (string * string) * outcome Model :=
  match build c with
  | Raise e => ([], Throw (Base e))
  | Ok model =>
      let '(asked, state_dict) := load_state_dict c model_name in
      (asked, state_dict ≫= fun sd => lift (post_init c model sd))
  end.

End FromPretrained.

Arguments collaborators : clear implicits.

End Loader.

(** ** Instances and notions for the generation code *)

(** The configuration with [min_new_tokens] replaced. *)
Definition with_min_new_tokens {P Decay} (gc : Gen.config P Decay) (m : option Z)
    : Gen.config P Decay :=
  {| Gen.diversity_penalty := Gen.diversity_penalty gc;
     Gen.num_beams := Gen.num_beams gc;
     Gen.num_beam_groups := Gen.num_beam_groups gc;
     Gen.encoder_repetition_penalty := Gen.encoder_repetition_penalty gc;
     Gen.repetition_penalty := Gen.repetition_penalty gc;
     Gen.no_repeat_ngram_size := Gen.no_repeat_ngram_size gc;
     Gen.encoder_no_repeat_ngram_size := Gen.encoder_no_repeat_ngram_size gc;
     Gen.bad_words_ids := Gen.bad_words_ids gc;
     Gen.eos_token_id := Gen.eos_token_id gc;
     Gen.min_length := Gen.min_length gc;
     Gen.min_new_tokens := m;
     Gen.forced_bos_token_id := Gen.forced_bos_token_id gc;
     Gen.forced_eos_token_id := Gen.forced_eos_token_id gc;
     Gen.max_length := Gen.max_length gc;
     Gen.remove_invalid_values := Gen.remove_invalid_values gc;
     Gen.exponential_decay_length_penalty := Gen.exponential_decay_length_penalty gc;
     Gen.suppress_tokens := Gen.suppress_tokens gc;
     Gen.begin_suppress_tokens := Gen.begin_suppress_tokens gc;
     Gen.forced_decoder_ids := Gen.forced_decoder_ids gc;
     Gen.renormalize_logits := Gen.renormalize_logits gc |}.

(** In [ps] the processors stand in the order of their ranks, no rank
    twice. *)
Definition in_rank_order {P Fn Decay} (ps : list (Gen.processor P Fn Decay)) : Prop :=
  forall i j p q, ps !! i = Some p -> ps !! j = Some q -> (i < j)%nat ->
    (Gen.rank p < Gen.rank q)%nat.

(** [ps] is in rank order with all its ranks below [k]. *)
Definition ranked_below {P Fn Decay} (k : nat) (ps : list (Gen.processor P Fn Decay))
    : Prop :=
  in_rank_order ps /\ Forall (fun p => (Gen.rank p < k)%nat) ps.

(** A sampling configuration of a decoder-only model: repetition
    penalty 1.2, minimum length 4, end-of-sequence id 2 forced at length
    64, logits renormalized. *)
Definition sampling_config : Gen.config Q unit :=
  {| Gen.diversity_penalty := None;
     Gen.num_beams := 1;
     Gen.num_beam_groups := 1;
     Gen.encoder_repetition_penalty := None;
     Gen.repetition_penalty := Some (12 # 10)%Q;
     Gen.no_repeat_ngram_size := Some 0;
     Gen.encoder_no_repeat_ngram_size := None;
     Gen.bad_words_ids := None;
     Gen.eos_token_id := Some (inl 2);
     Gen.min_length := Some 4;
     Gen.min_new_tokens := Some 8;
     Gen.forced_bos_token_id := None;
     Gen.forced_eos_token_id := Some (inl 2);
     Gen.max_length := Some 64;
     Gen.remove_invalid_values := None;
     Gen.exponential_decay_length_penalty := None;
     Gen.suppress_tokens := None;
     Gen.begin_suppress_tokens := None;
     Gen.forced_decoder_ids := None;
     Gen.renormalize_logits := Some true |}.

(** The same with [encoder_no_repeat_ngram_size] 3. *)
Definition encoder_ngram_config : Gen.config Q unit :=
  {| Gen.diversity_penalty := None;
     Gen.num_beams := 1;
     Gen.num_beam_groups := 1;
     Gen.encoder_repetition_penalty := None;
     Gen.repetition_penalty := Some (12 # 10)%Q;
     Gen.no_repeat_ngram_size := Some 0;
     Gen.encoder_no_repeat_ngram_size := Some 3;
     Gen.bad_words_ids := None;
     Gen.eos_token_id := Some (inl 2);
     Gen.min_length := Some 4;
     Gen.min_new_tokens := Some 8;
     Gen.forced_bos_token_id := None;
     Gen.forced_eos_token_id := Some (inl 2);
     Gen.max_length := Some 64;
     Gen.remove_invalid_values := None;
     Gen.exponential_decay_length_penalty := None;
     Gen.suppress_tokens := None;
     Gen.begin_suppress_tokens := None;
     Gen.forced_decoder_ids := None;
     Gen.renormalize_logits := Some true |}.

(** A decoder-only model for [sample]: the forward pass proposes for
    each row the successor of its last token, sampling takes the
    proposal, and the stopping criterion is a length every row has
    reached. End of sequence is 3; [pad] is the padding id of the
    generation configuration. *)
Definition toy_sampler (pad : option Z)
    : Sampling.collaborators (list Z) unit (list Z) unit nat unit nat :=
  {| Sampling.forward := fun ids _ _ _ => Ok (map (fun row => List.last row 0 + 1) ids);
     Sampling.last_logits := fun o => Ok o;
     Sampling.apply_processors := fun _ _ s => Ok s;
     Sampling.no_processors := tt;
     Sampling.multinomial := fun g s => Ok (s, S g);
     Sampling.update_model_kwargs := fun _ k => Ok k;
     Sampling.stops := fun sc ids _ =>
       Ok (forallb (fun row => (sc <=? length row)%nat) ids);
     Sampling.no_criteria := 5%nat;
     Sampling.validate_stopping_criteria := fun sc _ => sc;
     Sampling.peers_generating := fun _ => 0%nat;
     Sampling.is_encoder_decoder := false;
     Sampling.gc_pad_token_id := pad;
     Sampling.gc_eos_token_id := Some (inl 3);
     Sampling.gc_output_scores := false;
     Sampling.gc_output_attentions := false;
     Sampling.gc_output_hidden_states := false;
     Sampling.gc_return_dict_in_generate := false;
     Sampling.decoder_attentions_of := fun _ => tt;
     Sampling.attentions_of := fun _ => tt;
     Sampling.cross_attentions_of := fun _ => tt;
     Sampling.decoder_hidden_states_of := fun _ => tt;
     Sampling.hidden_states_of := fun _ => tt;
     Sampling.encoder_attentions_of := fun _ => Ok None;
     Sampling.encoder_hidden_states_of := fun _ => Ok None |}.

(** A call of [sample] with [return_dict_in_generate] and
    [output_scores] as given and every other optional argument left
    out. *)
Definition toy_arguments (return_dict_in_generate output_scores : option bool)
    : Sampling.arguments unit nat unit nat :=
  {| Sampling.logits_processor := None;
     Sampling.stopping_criteria := None;
     Sampling.logits_warper := None;
     Sampling.max_length := None;
     Sampling.pad_token_id := None;
     Sampling.eos_token_id := None;
     Sampling.output_attentions := None;
     Sampling.output_hidden_states := None;
     Sampling.output_scores := output_scores;
     Sampling.return_dict_in_generate := return_dict_in_generate;
     Sampling.synced_gpus := false;
     Sampling.streamer := false;
     Sampling.model_kwargs := tt;
     Sampling.generator := 0%nat |}.

(** A tokenizer call for the pipeline: the tokens of the toy tokenizer,
    cut to [max_length], with a mask of ones. *)
Definition toy_tokenize (prompts : list string) (max_length : Z)
    : result (list (list Z) * list (list Z)) :=
  let ids := map (fun s => take (Z.to_nat max_length) (Toy.entok_from 0 s)) prompts in
  Ok (ids, map (map (fun _ => 1)) ids).

(** A sharded checkpoint under [repo] (a whole one under [local]): no
    [pytorch_model.bin], an index that the hub
    serves, three shard files of which the first is on disk, heads in the
    first two. A loaded file holds one weight, named after the file. *)
Definition toy_checkpoint : Loader.collaborators (gmap string Z) Z :=
  {| Loader.build := Ok ∅;
     Loader.path_exists := fun p =>
       String.eqb p "repo/shard-1.bin" || String.eqb p "local/pytorch_model.bin";
     Loader.path_join := fun a b => (a +:+ "/" +:+ b)%string;
     Loader.hf_hub_download := fun repo f =>
       if String.eqb f "pytorch_model.bin" then Raise (ExternalError 404)
       else Ok ("cache/" +:+ f)%string;
     Loader.weight_map_items := fun _ =>
       Return [("v_head.0.weight", "shard-1.bin"); ("frozen_head.ln.weight", "shard-2.bin");
               ("v_head.2.weight", "shard-2.bin"); ("base.embed.weight", "shard-3.bin")]%string;
     Loader.supported_modules := ["v_head"; "frozen_head"]%string;
     Loader.set_order := base.elements;
     Loader.torch_load := fun f => Ok {[ f := 1 ]};
     Loader.post_init := fun m sd => Ok sd |}.

(** * Properties *)

(** ** Results *)

Lemma bind_ok {A B} (m : result A) (f : A -> result B) (b : B) :
  m ≫= f = Ok b -> exists a, m = Ok a /\ f a = Ok b.
Proof. destruct m as [a|e]; simpl; [eauto | discriminate]. Qed.

Lemma bind_raise {A B} (e : exn) (f : A -> result B) : Raise e ≫= f = Raise e.
Proof. reflexivity. Qed.

(** Splits a hypothesis [m ≫= f = Ok b] into the two steps. *)
Ltac bind_inv H :=
  let a := fresh "a" in
  let Ha := fresh "Ha" in
  apply bind_ok in H; destruct H as (a & Ha & H).

Lemma map_fmap {A B} (f : A -> B) (l : list A) : map f l = f <$> l.
Proof. reflexivity. Qed.

(** ** Sequence-to-sequence configuration *)

Lemma decode_one_seq2seq {F} tk (cfg : settings F) b prompt sample prompt_size :
  is_seq2seq cfg = true ->
  decode_one tk cfg b prompt sample prompt_size = Raise NotImplementedError.
Proof. intros Hs. unfold decode_one. rewrite Hs. reflexivity. Qed.

Lemma decode_loop_seq2seq {F} tk (cfg : settings F) b items :
  is_seq2seq cfg = true -> items <> [] ->
  decode_loop tk cfg b items = Raise NotImplementedError.
Proof.
  intros Hs Hne. destruct items as [|[[p s] z] rest]; [congruence|].
  simpl. rewrite decode_one_seq2seq by exact Hs. reflexivity.
Qed.

Lemma decode_loop_lengths {F} tk (cfg : settings F) b items ss ps os :
  decode_loop tk cfg b items = Ok (ss, ps, os) ->
  length ss = length items /\ length ps = length items /\ length os = length items.
Proof.
  revert ss ps os. induction items as [|[[p s] z] rest IH]; intros ss ps os Hd; simpl in Hd.
  - inversion Hd; subst. auto.
  - bind_inv Hd. destruct a as [[s1 p1] o1]. bind_inv Hd. destruct a as [[ss' ps'] os'].
    inversion Hd; subst. destruct (IH _ _ _ Ha0) as (? & ? & ?). simpl. auto.
Qed.

Lemma local_sample_outputs_seq2seq {F} tk (cfg : settings F) prompt_tensors samples :
  is_seq2seq cfg = true ->
  is_ok (local_sample_outputs tk cfg prompt_tensors samples) = false.
Proof.
  intros Hs. unfold local_sample_outputs, decode. simpl.
  destruct (Py.zip3 prompt_tensors samples _) as [|i items] eqn:Hz.
  - simpl. rewrite Hs. reflexivity.
  - rewrite decode_loop_seq2seq by (exact Hs || discriminate). reflexivity.
Qed.

Lemma rollout_turn_seq2seq {F Lg RM} `{Scalar F} (w : world F Lg RM) tk cfg st :
  is_seq2seq cfg = true -> is_ok (rollout_turn w tk cfg st) = false.
Proof.
  intros Hs. unfold rollout_turn.
  destruct (generate w _ _) as [samples|e]; [|reflexivity]. simpl.
  destruct (collect_scores w tk cfg _ samples) as [scores|e]; [|reflexivity]. simpl.
  pose proof (local_sample_outputs_seq2seq tk cfg
                (input_ids (next_batch w (drawn st))) samples Hs) as Hl.
  destruct (local_sample_outputs tk cfg _ samples); [discriminate | reflexivity].
Qed.

(** C9 (as amended). With the sequence-to-sequence architecture
    configured: [get_arch] raises [NotImplementedError]; the forward-pass
    branch of [make_experience] raises it before any model is called;
    [decode] raises it as soon as there is one example to decode (and
    [append_eos_token] passes the assertion); and no turn of the rollout
    loop returns. *)
Theorem seq2seq_not_implemented {F Lg RM Model} `{Scalar F}
    (w : world F Lg RM) (tk : tokenizer) (cfg : settings F) :
  is_seq2seq cfg = true ->
  (forall from_pretrained : result Model,
      get_arch cfg from_pretrained = Raise NotImplementedError) /\
  (forall prompt_tensors sample_outputs,
      forward_pass w tk cfg prompt_tensors sample_outputs = Raise NotImplementedError) /\
  (forall p prompts s samples prompt_sizes,
      prompt_sizes <> Some [] ->
      decode tk cfg (p :: prompts) (s :: samples) prompt_sizes true
      = Raise NotImplementedError) /\
  (forall st, is_ok (rollout_turn w tk cfg st) = false).
Proof.
  intros Hs. repeat split.
  - intros fp. unfold get_arch. rewrite Hs. reflexivity.
  - intros pt so. unfold forward_pass. rewrite Hs. reflexivity.
  - intros p prompts s samples sizes Hne. unfold decode. simpl.
    apply decode_loop_seq2seq; [exact Hs|].
    destruct sizes as [[|z zs]|]; simpl; congruence.
  - intros st. apply rollout_turn_seq2seq. exact Hs.
Qed.

Lemma seq2seq_not_implemented_witness :
  is_seq2seq Toy.seq2seq_cfg = true /\
  decode Toy.tk Toy.seq2seq_cfg [[80; 81]] [[80; 81; 65; 2]] None true
  = Raise NotImplementedError.
Proof.
  split; [reflexivity|].
  apply (seq2seq_not_implemented (Model := unit)
           (Toy.world_of [[80; 81]] [[65; 2]] [1%Q]) Toy.tk Toy.seq2seq_cfg eq_refl).
  discriminate.
Defined.

(** C9, the case the claim misses: the check sits inside the loop over the
    examples, so with no example to decode [decode] returns three empty
    lists under the sequence-to-sequence configuration. *)
Lemma decode_seq2seq_empty_batch :
  is_seq2seq Toy.seq2seq_cfg = true /\
  decode Toy.tk Toy.seq2seq_cfg [] [] None true = Ok ([], [], []).
Proof. split; reflexivity. Qed.

(** ** The remote reference scorer *)

Lemma split_slash_free s : slash_free s = true -> split_slash s = [s].
Proof.
  induction s as [|c r IH]; simpl; [reflexivity|].
  intros Hs. apply andb_prop in Hs as [Hc Hr].
  apply negb_true_iff in Hc. rewrite Hc, (IH Hr). reflexivity.
Qed.

Lemma split_slash_join u m :
  slash_free u = true -> split_slash (u +:+ String "/" m) = u :: split_slash m.
Proof.
  induction u as [|c r IH]; simpl; [reflexivity|].
  intros Hs. apply andb_prop in Hs as [Hc Hr].
  apply negb_true_iff in Hc. rewrite Hc, (IH Hr). reflexivity.
Qed.

Lemma triton_host_well_formed environ u m :
  slash_free u = true -> slash_free m = true ->
  environ !! "TRITON_HOST_REF"%string = Some (u +:+ String "/" m) ->
  triton_server_ref_model environ = Ok (u, m).
Proof.
  intros Hu Hm Henv. unfold triton_server_ref_model. rewrite Henv.
  rewrite (split_slash_join u m Hu), (split_slash_free m Hm). reflexivity.
Qed.

Lemma seq_split_at (k n : nat) :
  (k < n)%nat -> seq 0 n = seq 0 k ++ k :: seq (S k) (n - S k).
Proof.
  intros Hk. replace n with (k + S (n - S k))%nat at 1 by lia.
  rewrite seq_app. reflexivity.
Qed.

Section RefModelLoop.
Context {Lg : Type} (client : triton_client Lg) (url model : string)
        (toks masks : list (list Z)).

Lemma ref_model_loop_all_ok turns sent out :
  (forall i, In i turns ->
             is_ok (client url (chunk_request model toks masks i)) = true) ->
  ref_model_loop client url model toks masks turns sent out
  = (sent ++ map (chunk_request model toks masks) turns,
     Ok (out ++ map (chunk_answer client url model toks masks) turns)).
Proof using Type.
  revert sent out. induction turns as [|i rest IH]; intros sent out Hall; simpl.
  - rewrite !app_nil_r. reflexivity.
  - pose proof (Hall i (or_introl eq_refl)) as Hi.
    unfold chunk_answer at 1.
    destruct (client url (chunk_request model toks masks i)) as [lg|e] eqn:Hc;
      [|discriminate].
    rewrite IH by (intros j Hj; apply Hall; right; exact Hj).
    rewrite <- !app_assoc. reflexivity.
Qed.

Lemma ref_model_loop_first_failure pre i post e sent out :
  (forall j, In j pre ->
             is_ok (client url (chunk_request model toks masks j)) = true) ->
  client url (chunk_request model toks masks i) = Raise e ->
  ref_model_loop client url model toks masks (pre ++ i :: post) sent out
  = (sent ++ map (chunk_request model toks masks) (pre ++ [i]), Raise e).
Proof using Type.
  revert sent out. induction pre as [|j pre IH]; intros sent out Hall Hfail; simpl.
  - rewrite Hfail. reflexivity.
  - pose proof (Hall j (or_introl eq_refl)) as Hj.
    destruct (client url (chunk_request model toks masks j)) as [lg|e'] eqn:Hc;
      [|discriminate].
    rewrite IH by (try exact Hfail; intros k Hk; apply Hall; right; exact Hk).
    rewrite <- app_assoc. reflexivity.
Qed.

End RefModelLoop.

(** C8. Building the remote reference scorer raises when
    [TRITON_HOST_REF] is absent, so the constructor of the trainer does not
    return; a value [<endpoint>/<model-name>] gives the url and the model
    name of the client; and in a later call the first request that fails
    ends the call with that error, every request up to it having been sent
    once and none after it. *)
Theorem remote_scorer_fails_fast :
  (forall environ : gmap string string,
      environ !! "TRITON_HOST_REF"%string = None ->
      triton_server_ref_model environ = Raise AssertionError /\
      forall Base loaded ps ts (super_init : HF.t -> result (HF.t * Base)),
        is_ok (trainer_init loaded ps ts super_init environ) = false) /\
  (forall (environ : gmap string string) u m,
      slash_free u = true -> slash_free m = true ->
      environ !! "TRITON_HOST_REF"%string = Some (u +:+ String "/" m) ->
      triton_server_ref_model environ = Ok (u, m)) /\
  (forall Lg (client : triton_client Lg) url model toks masks k e,
      (k < num_chunks (length toks))%nat ->
      (forall j, (j < k)%nat ->
                 is_ok (client url (chunk_request model toks masks j)) = true) ->
      client url (chunk_request model toks masks k) = Raise e ->
      ref_model_traced client url model toks masks
      = (map (chunk_request model toks masks) (seq 0 (S k)), Raise e)).
Proof.
  split; [|split].
  - intros environ Habs. unfold trainer_init, triton_server_ref_model. rewrite Habs.
    split; [reflexivity|]. intros Base loaded ps ts super_init.
    destruct (super_init _) as [[tk' base]|e]; reflexivity.
  - exact triton_host_well_formed.
  - intros Lg client url model toks masks k e Hk Hbefore Hfail.
    unfold ref_model_traced. rewrite seq_S.
    rewrite (seq_split_at k (num_chunks (length toks)) Hk).
    rewrite (ref_model_loop_first_failure client url model toks masks
               (seq 0 k) k _ e [] []); try exact Hfail.
    + reflexivity.
    + intros j Hj. apply Hbefore. apply in_seq in Hj. lia.
Qed.

Lemma remote_scorer_fails_fast_witness :
  triton_server_ref_model (∅ : gmap string string) = Raise AssertionError /\
  triton_server_ref_model
    (<["TRITON_HOST_REF"%string := "localhost:8001/ref"%string]> ∅)
  = Ok ("localhost:8001"%string, "ref"%string) /\
  ref_model_traced Toy.failing_triton "localhost:8001" "ref"
    (repeat [5] 8 ++ [[99]; [6]]) (repeat [1] 10)
  = (map (chunk_request "ref" (repeat [5] 8 ++ [[99]; [6]]) (repeat [1] 10)) [0; 1]%nat,
     Raise (ExternalError 503)).
Proof.
  destruct remote_scorer_fails_fast as (Habsent & Hpresent & Hlater).
  split; [|split].
  - apply (Habsent ∅). reflexivity.
  - apply (Hpresent _ "localhost:8001"%string "ref"%string); reflexivity.
  - apply (Hlater Q Toy.failing_triton "localhost:8001"%string "ref"%string
             (repeat [5] 8 ++ [[99]; [6]]) (repeat [1] 10) 1%nat (ExternalError 503)).
    + vm_compute. lia.
    + intros j Hj. assert (j = 0%nat) as -> by lia. reflexivity.
    + reflexivity.
Defined.

(** ** Chunking *)

Lemma bound_of_nat (n a : nat) : Py.bound n (Z.of_nat a) = Nat.min n a.
Proof.
  unfold Py.bound. destruct (Z.ltb_spec (Z.of_nat a) 0); lia.
Qed.

Lemma slice_of_nat {A} (l : list A) (a b : nat) :
  Py.slice l (Z.of_nat a) (Z.of_nat (a + b)) = take b (drop a l).
Proof.
  unfold Py.slice. rewrite !bound_of_nat.
  destruct (Nat.le_gt_cases a (length l)) as [Hle|Hgt].
  - rewrite (Nat.min_r _ a) by lia.
    destruct (Nat.le_gt_cases (a + b) (length l)) as [Hle'|Hgt'].
    + rewrite Nat.min_r by lia. f_equal. lia.
    + rewrite Nat.min_l by lia. rewrite !take_ge; try reflexivity;
        rewrite length_drop; lia.
  - rewrite !(drop_ge l) by lia. rewrite Nat.min_l by lia.
    rewrite !take_nil. reflexivity.
Qed.

Lemma concat_chunks {A} (size : nat) (l : list A) (m k : nat) :
  concat (map (fun i => take size (drop (i * size) l)) (seq k m))
  = take (m * size) (drop (k * size) l).
Proof.
  revert k. induction m as [|m IH]; intros k; simpl; [reflexivity|].
  rewrite IH. simpl.
  rewrite (Nat.add_comm size (k * size)), <- drop_drop.
  apply take_take_drop.
Qed.

Lemma num_chunks_cover (n : nat) : (n <= num_chunks n * mbs)%nat.
Proof.
  unfold num_chunks, mbs. pose proof (Nat.div_mod_eq (n + (8 - 1)) 8) as Hd.
  pose proof (Nat.mod_upper_bound (n + (8 - 1)) 8). lia.
Qed.

Lemma num_chunks_pos (n : nat) : (0 < n)%nat -> (0 < num_chunks n)%nat.
Proof.
  intros Hn. pose proof (num_chunks_cover n). destruct (num_chunks n); lia.
Qed.

(** The rows that turn [i] sends, when the server is row-wise, are answered
    by the rows [i * mbs ..] of the answer to the whole batch. *)
Lemma chunk_answer_row_wise {Lg} (client : triton_client Lg) f url model toks masks i :
  row_wise client f ->
  client url (chunk_request model toks masks i)
  = Ok (take mbs (drop (i * mbs)
          (zip_with f (map (map astype_int32) toks) (map (map astype_int32) masks)))).
Proof.
  intros Hrw. unfold chunk_request. rewrite Hrw. f_equal.
  replace ((i + 1) * mbs)%nat with (i * mbs + mbs)%nat by lia.
  rewrite !slice_of_nat.
  rewrite zip_with_drop, zip_with_take.
  rewrite !skipn_map, !firstn_map. reflexivity.
Qed.

(** C3 (as amended). For a batch of at least one row, with one mask row
    per token row, and a server that scores each row on its own, the loop
    over micro-batches of 8 returns what one request with the whole batch
    returns: one row of logits per input row, in the order of the input. *)
Theorem chunked_scoring_matches_whole_batch {Lg} (client : triton_client Lg)
    (f : list Z -> list Z -> list Lg) (url model : string)
    (all_tokens attention_masks : list (list Z)) :
  row_wise client f ->
  length attention_masks = length all_tokens ->
  all_tokens <> [] ->
  ref_model client url model all_tokens attention_masks
  = client url (whole_batch_request model all_tokens attention_masks) /\
  exists rows,
    ref_model client url model all_tokens attention_masks = Ok rows /\
    length rows = length all_tokens /\
    forall k tok_row mask_row,
      all_tokens !! k = Some tok_row -> attention_masks !! k = Some mask_row ->
      rows !! k = Some (f (map astype_int32 tok_row) (map astype_int32 mask_row)).
Proof.
  intros Hrw Hlen Hne.
  set (whole := zip_with f (map (map astype_int32) all_tokens)
                           (map (map astype_int32) attention_masks)).
  assert (Hloop : ref_model client url model all_tokens attention_masks = Ok whole).
  { unfold ref_model, ref_model_traced.
    rewrite ref_model_loop_all_ok
      by (intros i _; rewrite (chunk_answer_row_wise client f) by exact Hrw; reflexivity).
    cbn [snd app]. 
    assert (Hans : map (chunk_answer client url model all_tokens attention_masks)
                     (seq 0 (num_chunks (length all_tokens)))
                   = map (fun i => take mbs (drop (i * mbs) whole))
                       (seq 0 (num_chunks (length all_tokens)))).
    { apply map_ext. intros i. unfold chunk_answer.
      rewrite (chunk_answer_row_wise client f) by exact Hrw. reflexivity. }
    rewrite Hans.
    assert (Hcat : concat (map (fun i => take mbs (drop (i * mbs) whole))
                          (seq 0 (num_chunks (length all_tokens)))) = whole).
    { rewrite concat_chunks. simpl. apply take_ge.
      subst whole. rewrite length_zip_with, !length_map.
      pose proof (num_chunks_cover (length all_tokens)). lia. }
    destruct (map (fun i => take mbs (drop (i * mbs) whole))
                (seq 0 (num_chunks (length all_tokens)))) as [|c0 cs] eqn:Hm.
    - apply (f_equal (@length _)) in Hm. rewrite length_map, length_seq in Hm.
      pose proof (num_chunks_pos (length all_tokens)).
      destruct all_tokens; [congruence | simpl in *; lia].
    - unfold mbind, result_bind, torch_cat0. rewrite Hcat. reflexivity. }
  split.
  - rewrite Hloop. unfold whole_batch_request. rewrite Hrw. reflexivity.
  - exists whole. split; [exact Hloop|]. split.
    + subst whole. rewrite length_zip_with, !length_map. lia.
    + intros k tok_row mask_row Ht Hm. subst whole.
      rewrite lookup_zip_with, !map_fmap, !list_lookup_fmap, Ht, Hm.
      reflexivity.
Qed.

Lemma toy_triton_row_wise : row_wise Toy.triton Toy.score_row.
Proof. intros url model ids masks. reflexivity. Qed.

Lemma chunked_scoring_matches_whole_batch_witness :
  ref_model Toy.triton "localhost:8001" "ref"
    (map (fun k => [Z.of_nat k; 7]) (seq 0 19)) (repeat [1; 1] 19)
  = Ok (map (fun k => [inject_Z (Z.of_nat k); 7%Q]) (seq 0 19)).
Proof.
  destruct (chunked_scoring_matches_whole_batch Toy.triton Toy.score_row
              "localhost:8001" "ref"
              (map (fun k => [Z.of_nat k; 7]) (seq 0 19)) (repeat [1; 1] 19)
              toy_triton_row_wise eq_refl ltac:(discriminate)) as [Hwhole _].
  rewrite Hwhole. reflexivity.
Defined.

(** C3, where the claim fails as stated. (1) On a batch of no rows the
    loop does not run and the concatenation of no tensors raises, while one
    request with the empty batch is answered with no rows. (2) A server
    may be deterministic and still answer by the size of the request: on 9
    rows the loop gets the answers to 8 rows and to 1 row, not the answer
    to 9 rows. *)
Lemma chunked_scoring_differs :
  (ref_model Toy.triton "localhost:8001" "ref" [] [] = Raise RuntimeError /\
   Toy.triton "localhost:8001" (whole_batch_request "ref" [] []) = Ok []) /\
  (ref_model Toy.counting_triton "localhost:8001" "ref" (repeat [5] 9) (repeat [1] 9)
   = Ok (repeat [8%Q] 8 ++ [[1%Q]]) /\
   Toy.counting_triton "localhost:8001"
     (whole_batch_request "ref" (repeat [5] 9) (repeat [1] 9))
   = Ok (repeat [9%Q] 9)).
Proof. repeat split; reflexivity. Qed.

(** ** Padding and end-of-sequence ids *)

Lemma drop_pad_keeps (pad tok : Z) (x : list Z) :
  tok <> pad -> count_occ Z.eq_dec (drop_pad pad x) tok = count_occ Z.eq_dec x tok.
Proof.
  intros Hne. induction x as [|t x IH]; simpl; [reflexivity|].
  destruct (Z.eqb_spec t pad) as [->|Htp]; simpl.
  - destruct (Z.eq_dec pad tok); [congruence | exact IH].
  - destruct (Z.eq_dec t tok); rewrite IH; reflexivity.
Qed.

Lemma drop_pad_removes (pad : Z) (x : list Z) : ~ In pad (drop_pad pad x).
Proof.
  unfold drop_pad. rewrite filter_In. intros [_ Hp].
  rewrite Z.eqb_refl in Hp. discriminate.
Qed.

Lemma not_pad_mask_row (pad : Z) (toks : list (list Z)) (i j : nat) r t :
  toks !! i = Some r -> r !! j = Some t ->
  exists m, not_pad_mask pad toks !! i = Some m /\
            m !! j = Some (if t =? pad then 0 else 1).
Proof.
  intros Hr Ht. unfold not_pad_mask. rewrite map_fmap, list_lookup_fmap, Hr. simpl.
  eexists. split; [reflexivity|]. rewrite map_fmap, list_lookup_fmap, Ht. reflexivity.
Qed.

Lemma init_tokenizer_ids (loaded : HF.t) ps ts :
  HF.pad_token_id (HF.init_tokenizer loaded ps ts)
  = HF.pad_token_id (if decide (HF.pad_token_id loaded = HF.eos_token_id loaded)
                     then HF.add_pad_token loaded "<|padding|>" else loaded) /\
  HF.eos_token_id (HF.init_tokenizer loaded ps ts)
  = HF.eos_token_id (if decide (HF.pad_token_id loaded = HF.eos_token_id loaded)
                     then HF.add_pad_token loaded "<|padding|>" else loaded).
Proof. split; reflexivity. Qed.

Lemma add_pad_token_ids (loaded : HF.t) (tok : string) :
  HF.well_formed loaded ->
  (forall e, HF.eos_token loaded = Some e ->
             e <> tok /\ is_Some (HF.vocab loaded !! e)) ->
  HF.pad_token_id (HF.add_pad_token loaded tok)
  <> HF.eos_token_id (HF.add_pad_token loaded tok).
Proof.
  intros [Hdense Hinj] Heos.
  unfold HF.pad_token_id, HF.eos_token_id, HF.id_of, HF.add_pad_token. simpl.
  destruct (HF.eos_token loaded) as [e|] eqn:He; simpl.
  2:{ destruct (HF.vocab loaded !! tok) as [i|] eqn:Ht.
      - rewrite Ht. discriminate.
      - rewrite lookup_insert_eq. discriminate. }
  destruct (Heos e eq_refl) as [Hne [j Hj]].
  destruct (HF.vocab loaded !! tok) as [i|] eqn:Ht.
  - rewrite Ht, Hj. intros Heq. injection Heq as ->.
    apply Hne. exact (Hinj e tok j Hj Ht).
  - rewrite lookup_insert_eq, lookup_insert_ne by congruence. rewrite Hj.
    intros Heq. injection Heq as <-. specialize (Hdense e _ Hj). lia.
Qed.

(** C10. After the construction of the trainer the id of the padding
    token differs from the id of the end-of-sequence token, and when the
    loaded tokenizer has them equal ["<|padding|>"] has become the padding
    token, provided that the loaded tokenizer numbers its vocabulary one
    id per token, that its end-of-sequence token, when it has one, is in
    the vocabulary and is not ["<|padding|>"] itself, and that the
    constructor of the base trainer leaves the tokenizer as it finds it.
    With the two ids different, dropping the padding in [decode] keeps
    every end-of-sequence token and the attention mask of
    [make_experience] is 1 on it; with equal ids both would lose it. *)
Theorem pad_differs_from_eos {Base} (loaded : HF.t) (ps ts : string)
    (super_init : HF.t -> result (HF.t * Base)) (environ : gmap string string)
    (tk : HF.t) (base : Base) (ref : string * string) :
  trainer_init loaded ps ts super_init environ = Ok (tk, base, ref) ->
  (forall t t' b, super_init t = Ok (t', b) -> t' = t) ->
  HF.well_formed loaded ->
  (forall e, HF.eos_token loaded = Some e ->
             e <> "<|padding|>"%string /\ is_Some (HF.vocab loaded !! e)) ->
  HF.pad_token_id tk <> HF.eos_token_id tk /\
  (HF.pad_token_id loaded = HF.eos_token_id loaded ->
   HF.pad_token tk = Some "<|padding|>"%string /\
   is_Some (HF.vocab tk !! "<|padding|>"%string)) /\
  (forall pad eos, HF.pad_token_id tk = Some pad -> HF.eos_token_id tk = Some eos ->
     (forall x, count_occ Z.eq_dec (drop_pad pad x) eos = count_occ Z.eq_dec x eos) /\
     (forall toks i j r, toks !! i = Some r -> r !! j = Some eos ->
        exists m, not_pad_mask pad toks !! i = Some m /\ m !! j = Some 1)) /\
  (forall same x, ~ In same (drop_pad same x)).
Proof.
  intros Hinit Hkeep Hwf Heos.
  assert (Htk : tk = HF.init_tokenizer loaded ps ts).
  { unfold trainer_init in Hinit. cbv zeta in Hinit.
    destruct (super_init (HF.init_tokenizer loaded ps ts)) as [[tk' base']|e] eqn:Hs;
      [|discriminate].
    simpl in Hinit. bind_inv Hinit. injection Hinit as <- _ _.
    exact (Hkeep _ _ _ Hs). }
  clear Hinit. subst tk.
  assert (Hdiff : HF.pad_token_id (HF.init_tokenizer loaded ps ts)
                  <> HF.eos_token_id (HF.init_tokenizer loaded ps ts)).
  { destruct (init_tokenizer_ids loaded ps ts) as [-> ->].
    destruct (decide (HF.pad_token_id loaded = HF.eos_token_id loaded)) as [Heq|Hne].
    - apply add_pad_token_ids; assumption.
    - exact Hne. }
  split; [exact Hdiff|]. split; [|split].
  - intros Heq. unfold HF.init_tokenizer.
    destruct (decide (HF.pad_token_id loaded = HF.eos_token_id loaded)); [|contradiction].
    simpl. split; [reflexivity|].
    destruct (HF.vocab loaded !! "<|padding|>"%string) as [i|] eqn:Ht.
    + rewrite Ht. eauto.
    + rewrite lookup_insert_eq. eauto.
  - intros pad eos Hp He.
    assert (eos <> pad) as Hne by (intros ->; apply Hdiff; congruence).
    split.
    + intros x. apply drop_pad_keeps. exact Hne.
    + intros toks i j r Hr Ht.
      destruct (not_pad_mask_row pad toks i j r eos Hr Ht) as (m & Hm & Hj).
      exists m. split; [exact Hm|]. rewrite Hj.
      destruct (Z.eqb_spec eos pad); [contradiction | reflexivity].
  - intros same x. apply drop_pad_removes.
Qed.

(** C10, the claim as first worded: the two ids are equal after the
    construction when the loaded end-of-sequence token is ["<|padding|>"]
    itself, and when the base constructor makes the end-of-sequence token
    the padding token. *)
Theorem pad_equals_eos_after_construction :
  (exists tk ref,
     trainer_init Toy.padding_is_eos "left" "left" Toy.keeping_base Toy.environ
     = Ok (tk, tt, ref) /\
     HF.pad_token_id Toy.padding_is_eos = HF.eos_token_id Toy.padding_is_eos /\
     HF.pad_token tk = Some "<|padding|>"%string /\
     HF.pad_token_id tk = Some 1 /\ HF.eos_token_id tk = Some 1) /\
  (exists tk ref,
     trainer_init Toy.loaded "left" "left" Toy.resetting_base Toy.environ
     = Ok (tk, tt, ref) /\
     HF.pad_token_id tk = Some 2 /\ HF.eos_token_id tk = Some 2).
Proof.
  split.
  - do 2 eexists. split; [vm_compute; reflexivity|].
    repeat split; vm_compute; reflexivity.
  - do 2 eexists. split; [vm_compute; reflexivity|].
    split; vm_compute; reflexivity.
Qed.

Lemma toy_loaded_well_formed : HF.well_formed Toy.loaded.
Proof.
  assert (Hsize : size (HF.vocab Toy.loaded) = 3%nat) by (vm_compute; reflexivity).
  assert (Hcases : forall tok i, HF.vocab Toy.loaded !! tok = Some i ->
            (tok = "</s>"%string /\ i = 2) \/ (tok = "<unk>"%string /\ i = 1) \/
            (tok = "<s>"%string /\ i = 0)).
  { intros tok i Hl. unfold Toy.loaded in Hl. simpl in Hl.
    rewrite !lookup_insert_Some, lookup_empty in Hl. intuition congruence. }
  split.
  - intros tok i Hl. rewrite Hsize.
    destruct (Hcases tok i Hl) as [[_ ->]|[[_ ->]|[_ ->]]]; lia.
  - intros tok1 tok2 i H1 H2.
    destruct (Hcases tok1 i H1) as [[-> ->]|[[-> ->]|[-> ->]]];
      destruct (Hcases tok2 _ H2) as [[-> ?]|[[-> ?]|[-> ?]]]; congruence.
Qed.

Lemma toy_loaded_eos e :
  HF.eos_token Toy.loaded = Some e ->
  e <> "<|padding|>"%string /\ is_Some (HF.vocab Toy.loaded !! e).
Proof.
  intros He. injection He as <-. split; [discriminate|].
  exists 2. reflexivity.
Qed.

Lemma pad_differs_from_eos_witness :
  exists tk ref,
    trainer_init Toy.loaded "left" "left" Toy.keeping_base Toy.environ = Ok (tk, tt, ref) /\
    HF.pad_token_id Toy.loaded = HF.eos_token_id Toy.loaded /\
    HF.pad_token_id tk <> HF.eos_token_id tk.
Proof.
  destruct (trainer_init Toy.loaded "left" "left" Toy.keeping_base Toy.environ)
    as [[[tk u] ref]|e] eqn:Hi; [|vm_compute in Hi; discriminate].
  destruct u. exists tk, ref. split; [reflexivity|]. split; [reflexivity|].
  refine (proj1 (pad_differs_from_eos Toy.loaded "left" "left" Toy.keeping_base
                   Toy.environ tk tt ref Hi _ toy_loaded_well_formed toy_loaded_eos)).
  intros t t' b Hk. injection Hk as <- _. reflexivity.
Defined.

Example init_tokenizer_toy :
  HF.pad_token_id (HF.init_tokenizer Toy.loaded "left" "left") = Some 3 /\
  HF.eos_token_id (HF.init_tokenizer Toy.loaded "left" "left") = Some 2.
Proof. split; vm_compute; reflexivity. Qed.

(** ** One turn of the loop, taken apart *)

Lemma update_moments_fields {F Lg RM} `{Scalar F} (w : world F Lg RM) st scores :
  let st1 := fst (update_moments w st scores) in
  running_moments st1 = fst (rm_update w (running_moments st) scores) /\
  ref_mean st1 = match ref_mean st with
                 | None => Some (tmean scores)
                 | Some _ => ref_mean st
                 end /\
  ref_std st1 = match ref_mean st with
                | None => Some (tstd scores)
                | Some _ => ref_std st
                end /\
  kl_ctl_value st1 = kl_ctl_value st /\ store st1 = store st /\
  logged st1 = logged st /\ drawn st1 = drawn st /\ mean_kl st1 = mean_kl st.
Proof.
  unfold update_moments.
  destruct (ref_mean st) as [m|]; destruct (rm_update w (running_moments st) scores)
    as [rm [bm bs]]; simpl; repeat split; reflexivity.
Qed.

Lemma rollout_turn_steps {F Lg RM} `{Scalar F} (w : world F Lg RM) tk cfg st t :
  rollout_turn w tk cfg st = Ok t -> turn_steps w tk cfg st t.
Proof.
  unfold rollout_turn. intros Ht.
  bind_inv Ht. rename a into samples, Ha into Hgen.
  bind_inv Ht. rename a into scores, Ha into Hsc.
  bind_inv Ht. rename a into so, Ha into Hso.
  pose proof (update_moments_fields w st scores) as Hum.
  destruct (update_moments w st scores) as [st1 [bm bs]] eqn:Hu.
  simpl in Hum. destruct Hum as (Hrm & Hrmean & Hrstd & Hkl & Hst & Hlg & Hdr & Hmk).
  bind_inv Ht. rename a into scaled, Ha into Hscale.
  bind_inv Ht. rename a into fo, Ha into Hfo.
  bind_inv Ht. rename a into sh, Ha into Hsh.
  bind_inv Ht. rename a into elems, Ha into Hel.
  injection Ht as <-. simpl.
  apply (Turn_steps w tk cfg st _ samples scaled fo);
    simpl; rewrite ?Hu; simpl; try assumption; try reflexivity.
  rewrite <- Hkl. exact Hsh.
Qed.

Lemma forward_pass_fields {F Lg RM} (w : world F Lg RM) tk (cfg : settings F) pt so fo :
  forward_pass w tk cfg pt so = Ok fo ->
  length pt = length so /\
  all_tokens fo = zip_with app pt so /\
  mask fo = not_pad_mask (pad_token_id tk) (all_tokens fo) /\
  model w (all_tokens fo) (mask fo) = Ok (logits fo, model_values fo).
Proof.
  unfold forward_pass. intros Hf.
  destruct (is_seq2seq cfg); [discriminate|].
  bind_inv Hf. rename a into toks, Ha into Hcat.
  bind_inv Hf. destruct a as [lg vals]. rename Ha into Hmodel.
  bind_inv Hf. injection Hf as <-. simpl.
  unfold torch_cat1 in Hcat.
  destruct (Nat.eqb_spec (length pt) (length so)) as [Hlen|]; [|discriminate].
  injection Hcat as <-. repeat split; assumption.
Qed.

(** ** Scaling and clipping of the scores *)






(** ** Slices and per-sample loops *)

Lemma for_each_lookup {A B} (f : A -> result B) (l : list A) (ys : list B) :
  for_each f l = Ok ys ->
  length ys = length l /\
  forall i y, ys !! i = Some y -> exists x, l !! i = Some x /\ f x = Ok y.
Proof.
  revert ys. induction l as [|x l IH]; intros ys Hf; simpl in Hf.
  - injection Hf as <-. split; [reflexivity|]. intros i y Hy. destruct i; discriminate.
  - bind_inv Hf. rename a into y0. bind_inv Hf. rename a into ys0.
    injection Hf as <-. destruct (IH ys0 Ha0) as [Hlen Hlook]. split.
    + simpl. rewrite Hlen. reflexivity.
    + intros [|i] y Hy; simpl in Hy.
      * injection Hy as <-. exists x. split; [reflexivity | exact Ha].
      * apply Hlook. exact Hy.
Qed.

Lemma at_index_ok {A} (l : list A) (i : nat) (x : A) :
  at_index l i = Ok x <-> l !! i = Some x.
Proof.
  unfold at_index. destruct (l !! i); split; intros Hx; congruence.
Qed.

Lemma slice_map {A B} (f : A -> B) (l : list A) (lo hi : Z) :
  Py.slice (map f l) lo hi = map f (Py.slice l lo hi).
Proof.
  unfold Py.slice. rewrite length_map, skipn_map, firstn_map. reflexivity.
Qed.

Lemma slice_length {A} (l : list A) (lo hi : Z) :
  length (Py.slice l lo hi)
  = (Py.bound (length l) hi - Py.bound (length l) lo)%nat.
Proof.
  unfold Py.slice. rewrite length_take, length_drop.
  assert (Py.bound (length l) hi <= length l)%nat by (unfold Py.bound; lia).
  lia.
Qed.

Lemma add_to_last_inv {F} `{Scalar F} (xs ys : list F) (v : F) :
  add_to_last xs v = Ok ys ->
  exists before last, xs = before ++ [last] /\ ys = before ++ [fadd last v].
Proof.
  unfold add_to_last. intros Ha.
  destruct (reverse xs) as [|x rest] eqn:Hr; [discriminate|].
  injection Ha as <-. exists (reverse rest), x. split; [|reflexivity].
  rewrite <- (reverse_involutive xs), Hr, reverse_cons. reflexivity.
Qed.

Lemma lookup_enumerate {A} (l : list A) (i : nat) (p : nat * A) :
  zip (seq 0 (length l)) l !! i = Some p ->
  fst p = i /\ l !! i = Some (snd p).
Proof.
  destruct p as [j x]. intros Hz. apply lookup_zip_Some in Hz as [Hj Hx].
  apply lookup_seq in Hj as [-> _]. split; [reflexivity | exact Hx].
Qed.

(** What [shape_rollout] puts into its result. *)
Lemma shape_rollout_fields {F Lg} `{Scalar F} (lpl : Lg -> Z -> F) kl pt n fo sh :
  shape_rollout lpl kl pt n fo = Ok sh ->
  exists lp rlp,
    logprobs_of_labels lpl (logits fo) (all_tokens fo) = Ok lp /\
    logprobs_of_labels lpl (ref_logits fo) (all_tokens fo) = Ok rlp /\
    start sh = Py.shape1 pt - 1 /\
    log_ratio sh =
      zip_with (zip_with (fun d m => fmul d (of_int m)))
        (zip_with (zip_with fsub) lp rlp)
        (map (fun r => Py.slice_to r (-1)) (mask fo)) /\
    ends sh = map (fun r => start sh + zsum (Py.slice_from r (start sh)) + 1) (mask fo) /\
    for_each (fun ix => r ← at_index (map (fun r => Py.slice_to r (-1)) (model_values fo)) ix;
                        e ← at_index (ends sh) ix; Ok (Py.slice r (start sh) e))
      (seq 0 n) = Ok (all_values sh) /\
    for_each (fun ix => r ← at_index lp ix;
                        e ← at_index (ends sh) ix; Ok (Py.slice r (start sh) e))
      (seq 0 n) = Ok (all_logprobs sh) /\
    for_each (fun '(ix, xs) => e ← at_index (ends sh) ix; Ok (Py.slice xs (start sh) e))
      (zip (seq 0 (length (map (map (penalty kl)) (log_ratio sh))))
           (map (map (penalty kl)) (log_ratio sh)))
    = Ok (kl_penalty sh).
Proof.
  unfold shape_rollout. intros Hs.
  bind_inv Hs. rename a into lp, Ha into Hlp.
  bind_inv Hs. rename a into rlp, Ha into Hrlp.
  bind_inv Hs. rename a into avs, Ha into Havs.
  bind_inv Hs. rename a into alps, Ha into Halps.
  bind_inv Hs. rename a into klp, Ha into Hklp.
  injection Hs as <-. simpl. exists lp, rlp. repeat split; assumption.
Qed.

(** ** The reward sequence of an element *)

Lemma build_element_fields {F} `{Scalar F} pt so (sh : shaped F) scores ix e :
  build_element pt so sh scores ix = Ok e ->
  exists cut score,
    kl_penalty sh !! ix = Some cut /\ scores !! ix = Some score /\
    add_to_last cut score = Ok (rewards e) /\
    pt !! ix = Some (query_tensor e) /\ so !! ix = Some (response_tensor e) /\
    all_logprobs sh !! ix = Some (logprobs e) /\
    all_values sh !! ix = Some (values e).
Proof.
  unfold build_element. intros Hb.
  bind_inv Hb. rename a into cut, Ha into Hcut.
  bind_inv Hb. rename a into score, Ha into Hscore.
  bind_inv Hb. rename a into rw, Ha into Hrw.
  bind_inv Hb. rename a into q, Ha into Hq.
  bind_inv Hb. rename a into r, Ha into Hr.
  bind_inv Hb. rename a into lp, Ha into Hlp.
  bind_inv Hb. rename a into vs, Ha into Hvs.
  injection Hb as <-. simpl. exists cut, score.
  rewrite <- !at_index_ok. repeat split; assumption.
Qed.

Lemma build_elements_lookup {F} `{Scalar F} pt so (sh : shaped F) scores n elems :
  build_elements pt so sh scores n = Ok elems ->
  length elems = n /\
  forall ix e, elems !! ix = Some e -> build_element pt so sh scores ix = Ok e.
Proof.
  unfold build_elements. intros Hb. apply for_each_lookup in Hb as [Hlen Hlook].
  rewrite length_seq in Hlen. split; [exact Hlen|].
  intros ix e He. destruct (Hlook ix e He) as (x & Hx & Hbx).
  apply lookup_seq in Hx as [-> _]. exact Hbx.
Qed.

Lemma kl_penalty_row {F Lg} `{Scalar F} (lpl : Lg -> Z -> F) kl pt n fo sh ix cut :
  shape_rollout lpl kl pt n fo = Ok sh ->
  kl_penalty sh !! ix = Some cut ->
  exists lr_row stop,
    log_ratio sh !! ix = Some lr_row /\ ends sh !! ix = Some stop /\
    cut = map (penalty kl) (Py.slice lr_row (start sh) stop).
Proof.
  intros Hs Hcut.
  destruct (shape_rollout_fields lpl kl pt n fo sh Hs)
    as (lp & rlp & _ & _ & _ & _ & _ & _ & _ & Hklp).
  apply for_each_lookup in Hklp as [_ Hlook].
  destruct (Hlook ix cut Hcut) as ([j xs] & Hz & Hf).
  apply lookup_enumerate in Hz as [Hj Hxs]. simpl in Hj, Hxs. subst j.
  bind_inv Hf. rename a into stop. injection Hf as <-.
  rewrite map_fmap, list_lookup_fmap in Hxs.
  destruct (log_ratio sh !! ix) as [lr_row|] eqn:Hlr; [|discriminate].
  simpl in Hxs. injection Hxs as <-.
  exists lr_row, stop. split; [reflexivity|]. split; [apply at_index_ok; exact Ha|].
  apply slice_map.
Qed.

(** C2. In every element of a turn the reward sequence is the slice of the
    log-ratio row of its example, each entry multiplied by [-kl] (as
    [kl * -x]), and the score of the example, after scaling and clipping,
    is added to the last entry and to no other. The log-ratio is the
    difference of the log-probabilities of the policy and of the reference
    model, times the attention mask. *)
Theorem rewards_are_penalty_plus_score {F Lg RM} `{Scalar F} (w : world F Lg RM)
    (tk : tokenizer) (cfg : settings F) (st : trainer F RM) (t : turn_out F RM) :
  rollout_turn w tk cfg st = Ok t ->
  (exists fo lp rlp,
     forward_pass w tk cfg (input_ids (next_batch w (drawn st))) (padded_outputs t)
     = Ok fo /\
     logprobs_of_labels (logprob_of_label w) (logits fo) (all_tokens fo) = Ok lp /\
     logprobs_of_labels (logprob_of_label w) (ref_logits fo) (all_tokens fo) = Ok rlp /\
     log_ratio (cut_from t) =
       zip_with (zip_with (fun d m => fmul d (of_int m)))
         (zip_with (zip_with fsub) lp rlp)
         (map (fun r => Py.slice_to r (-1)) (mask fo))) /\
  forall ix e, elements t !! ix = Some e ->
    exists lr_row stop score before last,
      log_ratio (cut_from t) !! ix = Some lr_row /\
      ends (cut_from t) !! ix = Some stop /\
      final_scores t !! ix = Some score /\
      Py.slice lr_row (start (cut_from t)) stop = before ++ [last] /\
      rewards e = map (penalty (kl_ctl_value st)) before
                  ++ [fadd (penalty (kl_ctl_value st) last) score].
Proof.
  intros Ht.
  destruct (rollout_turn_steps w tk cfg st t Ht)
    as [samples scaled fo _ _ _ _ _ Hfwd Hshape Hbuild _ _ _ _ _ _ _].
  split.
  { destruct (shape_rollout_fields _ _ _ _ _ _ Hshape)
      as (lp & rlp & Hlp & Hrlp & _ & Hlr & _).
    exists fo, lp, rlp. repeat split; assumption. }
  intros ix e He.
  apply build_elements_lookup in Hbuild as [_ Hlook].
  destruct (build_element_fields _ _ _ _ _ _ (Hlook ix e He))
    as (cut & score & Hcut & Hscore & Hadd & _).
  destruct (kl_penalty_row _ _ _ _ _ _ _ _ Hshape Hcut)
    as (lr_row & stop & Hlr & Hstop & ->).
  apply add_to_last_inv in Hadd as (before' & last' & Hsplit & Hrw).
  apply map_eq_app in Hsplit as (before & tail & Hslice & <- & Htail).
  destruct tail as [|last [|? ?]]; try discriminate.
  simpl in Htail. injection Htail as <-.
  exists lr_row, stop, score, before, last. repeat split; assumption.
Qed.

(** ** The loop of [make_experience] *)






Lemma run_turns_length {F Lg RM} `{Scalar F} (w : world F Lg RM) tk cfg k st ts :
  run_turns k w tk cfg st = Ok ts -> length ts = k.
Proof.
  revert st ts. induction k as [|k IH]; intros st ts Hr; simpl in Hr.
  - injection Hr as <-. reflexivity.
  - bind_inv Hr. bind_inv Hr. injection Hr as <-. simpl. f_equal. eauto.
Qed.

Lemma collected_cons {F RM} (t : turn_out F RM) ts :
  collected (t :: ts) = elements t ++ collected ts.
Proof. reflexivity. Qed.

(** What the loop has done when it ends: the turns it ran from the trainer
    it started with, the elements they added, and that the count was below
    the target before the last of them. *)
Lemma rollout_loop_turns {F Lg RM} `{Scalar F} (w : world F Lg RM) tk cfg n fuel :
  forall v v',
    rollout_loop fuel w tk cfg n v = Some (Ok v') ->
    exists ts,
      run_turns (length ts) w tk cfg (self v) = Ok ts /\
      self v' = state_after (self v) ts /\
      ppo_rl_elements v' = ppo_rl_elements v ++ collected ts /\
      exp_time_bound v' = (exp_time_bound v || negb (Nat.eqb (length ts) 0))%bool /\
      n <= Z.of_nat (length (ppo_rl_elements v')) /\
      (forall before last, ts = before ++ [last] ->
         Z.of_nat (length (ppo_rl_elements v ++ collected before)) < n).
Proof.
  induction fuel as [|fuel IH]; intros v v' Hloop; simpl in Hloop;
    destruct (Z.ltb_spec (Z.of_nat (length (ppo_rl_elements v))) n) as [Hlt|Hge];
    try discriminate.
  - injection Hloop as <-. exists []. simpl. rewrite app_nil_r, orb_false_r.
    repeat split; try lia. intros [|? ?] ? ?; discriminate.
  - destruct (rollout_turn w tk cfg (self v)) as [t|e] eqn:Ht; [|discriminate].
    destruct (IH _ v' Hloop) as (ts & Hr & Hs & Hp & He & Hn & Hlast).
    simpl in Hr, Hs, Hp, He, Hlast.
    exists (t :: ts). simpl. rewrite Ht. simpl. rewrite Hr. simpl.
    rewrite collected_cons, app_assoc, orb_true_r.
    repeat split; try assumption.
    intros before last Hts. destruct before as [|b before]; simpl in Hts.
    + simpl. rewrite app_nil_r. exact Hlt.
    + injection Hts as <- Hts. rewrite collected_cons, app_assoc.
      exact (Hlast before last Hts).
  - injection Hloop as <-. exists []. simpl. rewrite app_nil_r, orb_false_r.
    repeat split; try lia. intros [|? ?] ? ?; discriminate.
Qed.



Lemma turn_moments {F Lg RM} `{Scalar F} (w : world F Lg RM) tk cfg st t :
  rollout_turn w tk cfg st = Ok t ->
  running_moments (after t) = fst (rm_update w (running_moments st) (raw_scores t)) /\
  ref_mean (after t) = match ref_mean st with
                       | None => Some (tmean (raw_scores t))
                       | Some _ => ref_mean st
                       end /\
  ref_std (after t) = match ref_mean st with
                      | None => Some (tstd (raw_scores t))
                      | Some _ => ref_std st
                      end.
Proof.
  intros Ht. destruct (rollout_turn_steps w tk cfg st t Ht)
    as [samples scaled fo _ _ _ _ _ _ _ _ Hrm Hmean Hstd _ _ _ _].
  destruct (update_moments_fields w st (raw_scores t)) as (Hrm' & Hmean' & Hstd' & _).
  rewrite Hrm, Hmean, Hstd, Hrm', Hmean', Hstd'. repeat split; reflexivity.
Qed.

Lemma run_turns_frame {F Lg RM} `{Scalar F} (w : world F Lg RM) tk cfg k :
  forall st ts,
    run_turns k w tk cfg st = Ok ts ->
    store (state_after st ts) = store st /\
    logged (state_after st ts) = logged st /\
    kl_ctl_value (state_after st ts) = kl_ctl_value st.
Proof.
  induction k as [|k IH]; intros st ts Hr; simpl in Hr.
  - injection Hr as <-. simpl. auto.
  - bind_inv Hr. rename a into t, Ha into Ht. bind_inv Hr. rename a into ts', Ha into Hts.
    injection Hr as <-. simpl.
    destruct (IH _ _ Hts) as (Hs & Hl & Hk).
    destruct (rollout_turn_steps w tk cfg st t Ht)
      as [samples scaled fo _ _ _ _ _ _ _ _ _ _ _ Hkl Hst Hlg _].
    unfold state_after in *. rewrite Hs, Hl, Hk, Hkl, Hst, Hlg. auto.
Qed.

Lemma run_turns_moments {F Lg RM} `{Scalar F} (w : world F Lg RM) tk cfg k :
  forall st ts,
    run_turns k w tk cfg st = Ok ts ->
    running_moments (state_after st ts)
    = moments_after w (running_moments st) (map raw_scores ts) /\
    match ref_mean st, ts with
    | None, first :: _ =>
        ref_mean (state_after st ts) = Some (tmean (raw_scores first)) /\
        ref_std (state_after st ts) = Some (tstd (raw_scores first))
    | _, _ =>
        ref_mean (state_after st ts) = ref_mean st /\
        ref_std (state_after st ts) = ref_std st
    end.
Proof.
  induction k as [|k IH]; intros st ts Hr; simpl in Hr.
  - injection Hr as <-. simpl. split; [reflexivity|]. destruct (ref_mean st); auto.
  - bind_inv Hr. rename a into t, Ha into Ht. bind_inv Hr. rename a into ts', Ha into Hts.
    injection Hr as <-.
    destruct (IH _ _ Hts) as (Hrm & Href).
    destruct (turn_moments w tk cfg st t Ht) as (Hrm1 & Hmean1 & Hstd1).
    change (state_after st (t :: ts')) with (state_after (after t) ts').
    split.
    + rewrite Hrm, Hrm1. reflexivity.
    + destruct (ref_mean st) as [m|] eqn:Hst; rewrite Hmean1 in Href;
        destruct Href as [-> ->]; rewrite Hstd1; split; reflexivity.
Qed.


Lemma finish_rollouts_fields {F Lg RM} `{Scalar F} (w : world F Lg RM) ic v st' :
  finish_rollouts w ic v = Ok st' ->
  store st' = store (self v) ++ [ppo_rl_elements v] /\
  exp_time_bound v = true /\
  running_moments st' = running_moments (self v) /\
  ref_mean st' = ref_mean (self v) /\ ref_std st' = ref_std (self v) /\
  exists stats, logged st' = logged (self v) ++ [(stats, ic)].
Proof.
  unfold finish_rollouts. intros Hf.
  destruct (mean_kl (self v)) as [kl|]; [|discriminate].
  destruct (exp_time_bound v); [|discriminate].
  injection Hf as <-. simpl. repeat split. eexists. reflexivity.
Qed.

Lemma make_experience_loop {F Lg RM} `{Scalar F} (w : world F Lg RM) tk cfg n ic st st' :
  make_experience w tk cfg n ic st = Some (Ok st') ->
  exists v,
    rollout_loop (Z.to_nat n) w tk cfg n
      {| self := st; ppo_rl_elements := []; stats := ∅; exp_time_bound := false |}
    = Some (Ok v) /\
    finish_rollouts w ic v = Ok st'.
Proof.
  unfold make_experience. intros Hm.
  destruct (rollout_loop _ w tk cfg n _) as [[v|e]|]; try discriminate.
  injection Hm as Hm. eauto.
Qed.


(** ** Reference pair and running moments *)

(** C7. Every turn of the rollout loop updates the running moments with
    the raw scores of the local shard. The reference mean and std are set
    from those scores in a turn that finds [ref_mean] unset, and a turn that
    finds it set leaves both as they are. Hence over any number of turns,
    and over a whole call of [make_experience], the running moments are the
    updates by every score batch in order, and a pair that was unset at the
    start is the mean and std of the first batch, whatever follows. *)
Theorem reference_pair_set_once {F Lg RM} `{Scalar F} (w : world F Lg RM)
    (tk : tokenizer) (cfg : settings F) :
  (forall st t, rollout_turn w tk cfg st = Ok t ->
     running_moments (after t) = fst (rm_update w (running_moments st) (raw_scores t)) /\
     (ref_mean st = None ->
      ref_mean (after t) = Some (tmean (raw_scores t)) /\
      ref_std (after t) = Some (tstd (raw_scores t))) /\
     (ref_mean st <> None ->
      ref_mean (after t) = ref_mean st /\ ref_std (after t) = ref_std st)) /\
  (forall k st ts, run_turns k w tk cfg st = Ok ts ->
     running_moments (state_after st ts)
     = moments_after w (running_moments st) (map raw_scores ts) /\
     match ref_mean st, ts with
     | None, first :: _ =>
         ref_mean (state_after st ts) = Some (tmean (raw_scores first)) /\
         ref_std (state_after st ts) = Some (tstd (raw_scores first))
     | _, _ =>
         ref_mean (state_after st ts) = ref_mean st /\
         ref_std (state_after st ts) = ref_std st
     end) /\
  (forall num_rollouts iter_count st st',
     make_experience w tk cfg num_rollouts iter_count st = Some (Ok st') ->
     exists ts,
       run_turns (length ts) w tk cfg st = Ok ts /\
       running_moments st' = running_moments (state_after st ts) /\
       ref_mean st' = ref_mean (state_after st ts) /\
       ref_std st' = ref_std (state_after st ts)).
Proof.
  split; [|split].
  - intros st t Ht. destruct (turn_moments w tk cfg st t Ht) as (Hrm & Hmean & Hstd).
    split; [exact Hrm|]. split.
    + intros Hnone. rewrite Hnone in Hmean, Hstd. split; assumption.
    + intros Hset. destruct (ref_mean st); [split; assumption | congruence].
  - intros k st ts Hr. exact (run_turns_moments w tk cfg k st ts Hr).
  - intros n ic st st' Hm. apply make_experience_loop in Hm as (v & Hloop & Hfin).
    apply rollout_loop_turns in Hloop as (ts & Hr & Hs & _).
    simpl in Hr, Hs.
    apply finish_rollouts_fields in Hfin as (_ & _ & Hrm & Hmean & Hstd & _).
    exists ts. rewrite Hrm, Hmean, Hstd, Hs. repeat split; assumption.
Qed.

(** ** The scenario of four prompts *)

Lemma scenario_turn_returns :
  exists t, rollout_turn Toy.scenario Toy.tk Toy.scenario_cfg Toy.fresh_trainer = Ok t.
Proof.
  destruct (rollout_turn Toy.scenario Toy.tk Toy.scenario_cfg Toy.fresh_trainer)
    as [t|e] eqn:Ht; [eauto|].
  vm_compute in Ht. discriminate.
Qed.





Lemma rewards_are_penalty_plus_score_witness :
  exists t e,
    rollout_turn Toy.scenario Toy.tk Toy.scenario_cfg Toy.fresh_trainer = Ok t /\
    elements t !! 3%nat = Some e /\
    exists before last score,
      final_scores t !! 3%nat = Some score /\
      rewards e = map (penalty (1 # 10)%Q) before ++ [fadd (penalty (1 # 10)%Q last) score].
Proof.
  destruct (rollout_turn Toy.scenario Toy.tk Toy.scenario_cfg Toy.fresh_trainer)
    as [t|e] eqn:Ht; [|vm_compute in Ht; discriminate].
  destruct (elements t !! 3%nat) as [e|] eqn:He.
  2:{ vm_compute in Ht. injection Ht as <-. vm_compute in He. discriminate. }
  exists t, e. split; [reflexivity|]. split; [exact He|].
  destruct (rewards_are_penalty_plus_score Toy.scenario Toy.tk Toy.scenario_cfg
              Toy.fresh_trainer t Ht) as [_ Hevery].
  destruct (Hevery 3%nat e He)
    as (lr_row & stop & score & before & last & _ & _ & Hscore & _ & Hrw).
  exists before, last, score. split; assumption.
Defined.


Lemma reference_pair_set_once_witness :
  exists first rest,
    run_turns 2 Toy.scenario Toy.tk Toy.scenario_cfg Toy.fresh_trainer
    = Ok (first :: rest) /\
    ref_mean (state_after Toy.fresh_trainer (first :: rest))
    = Some (tmean (raw_scores first)) /\
    ref_std (state_after Toy.fresh_trainer (first :: rest))
    = Some (tstd (raw_scores first)) /\
    running_moments (state_after Toy.fresh_trainer (first :: rest))
    = moments_after Toy.scenario [] (map raw_scores (first :: rest)).
Proof.
  destruct (run_turns 2 Toy.scenario Toy.tk Toy.scenario_cfg Toy.fresh_trainer)
    as [ts|e] eqn:Hr; [|vm_compute in Hr; discriminate].
  destruct (reference_pair_set_once Toy.scenario Toy.tk Toy.scenario_cfg)
    as (_ & Hturns & _).
  destruct (Hturns 2%nat Toy.fresh_trainer ts Hr) as (Hrm & Href).
  pose proof (run_turns_length _ _ _ _ _ _ Hr) as Hlen.
  destruct ts as [|first rest]; [discriminate|].
  exists first, rest. split; [reflexivity|].
  simpl in Href. destruct Href as [Hmean Hstd].
  split; [exact Hmean|]. split; [exact Hstd | exact Hrm].
Defined.

(** ** Trimming at the stop strings *)

Lemma prefix_length (sub a : string) :
  String.prefix sub a = true -> (String.length sub <= String.length a)%nat.
Proof.
  revert a. induction sub as [|c sub IH]; intros a Hp; simpl; [lia|].
  destruct a as [|c' a]; simpl in Hp; [discriminate|].
  destruct (ascii_dec c c'); [|discriminate]. specialize (IH a Hp). simpl. lia.
Qed.

Lemma prefix_app_short (sub a b : string) :
  (String.length sub <= String.length a)%nat ->
  String.prefix sub (a +:+ b) = String.prefix sub a.
Proof.
  revert a. induction sub as [|c sub IH]; intros a Hlen;
    [destruct a; destruct b; reflexivity|].
  destruct a as [|c' a]; simpl in Hlen; [lia|]. simpl.
  destruct (ascii_dec c c'); [|reflexivity]. apply IH. lia.
Qed.

Lemma index_cons (sub : string) (c : ascii) (a : string) :
  String.index 0 sub (String c a)
  = if String.prefix sub (String c a) then Some 0%nat
    else match String.index 0 sub a with
         | Some n => Some (S n)
         | None => None
         end.
Proof. reflexivity. Qed.

Lemma index_bound (sub a : string) (n : nat) :
  String.index 0 sub a = Some n -> (n + String.length sub <= String.length a)%nat.
Proof.
  revert n. induction a as [|c a IH]; intros n Hi.
  - simpl in Hi. destruct sub; [|discriminate]. injection Hi as <-. simpl. lia.
  - rewrite index_cons in Hi. destruct (String.prefix sub (String c a)) eqn:Hp.
    + injection Hi as <-. apply prefix_length in Hp. simpl in *. lia.
    + destruct (String.index 0 sub a) as [m|]; [|discriminate].
      injection Hi as <-. specialize (IH m eq_refl). simpl. lia.
Qed.

Lemma index_app (sub a b : string) (n : nat) :
  String.index 0 sub a = Some n -> String.index 0 sub (a +:+ b) = Some n.
Proof.
  revert n. induction a as [|c a IH]; intros n Hi.
  - simpl in Hi. destruct sub; [|discriminate]. injection Hi as <-.
    simpl. destruct b; reflexivity.
  - pose proof (index_bound sub (String c a) n Hi) as Hb.
    rewrite index_cons in Hi.
    change (String c a +:+ b) with (String c (a +:+ b)). rewrite index_cons.
    change (String c (a +:+ b)) with (String c a +:+ b).
    destruct (String.prefix sub (String c a)) eqn:Hp.
    + injection Hi as <-.
      rewrite prefix_app_short, Hp by (simpl in *; lia). reflexivity.
    + destruct (String.index 0 sub a) as [m|] eqn:Hm; [|discriminate].
      injection Hi as <-.
      rewrite prefix_app_short, Hp by (simpl in *; lia).
      rewrite (IH m eq_refl). reflexivity.
Qed.

Lemma rstrip_is_prefix (x : string) : exists r, x = Py.rstrip x +:+ r.
Proof.
  induction x as [|c x [r IH]]; [exists EmptyString; reflexivity|].
  simpl. destruct (Py.rstrip x) as [|c' x'] eqn:Hx.
  - destruct (Py.isspace c).
    + exists (String c x). reflexivity.
    + exists x. reflexivity.
  - exists r. simpl in *. rewrite IH at 1. reflexivity.
Qed.

Lemma prefix_to_is_prefix (s : string) (k : nat) : exists r, s = Py.prefix_to s k +:+ r.
Proof.
  unfold Py.prefix_to. revert k. induction s as [|c s IH]; intros k.
  - exists EmptyString. destruct k; reflexivity.
  - destruct k as [|k]; simpl.
    + exists (String c s). reflexivity.
    + destruct (IH k) as [r Hr]. exists r. rewrite Hr at 1. reflexivity.
Qed.

Lemma prefix_to_app_short (a b : string) (k : nat) :
  (k <= String.length a)%nat -> Py.prefix_to (a +:+ b) k = Py.prefix_to a k.
Proof.
  unfold Py.prefix_to. revert k. induction a as [|c a IH]; intros k Hk; simpl in Hk.
  - assert (k = 0%nat) as -> by lia. destruct b; reflexivity.
  - destruct k as [|k]; simpl; [reflexivity|]. rewrite IH by lia. reflexivity.
Qed.

Lemma string_app_assoc (a b c : string) : (a +:+ b) +:+ c = a +:+ (b +:+ c).
Proof.
  induction a as [|x a IH]; [reflexivity|].
  change (String x ((a +:+ b) +:+ c) = String x (a +:+ (b +:+ c))).
  rewrite IH. reflexivity.
Qed.

Lemma trim_step_found (text : string) (acc : string * bool) (stop : string) ix :
  (exists r, text = fst acc +:+ r) ->
  Py.find (fst acc) stop = Some ix ->
  Py.find text stop = Some ix /\
  trim_step acc stop = (Py.rstrip (Py.prefix_to text ix), true) /\
  exists r, text = Py.rstrip (Py.prefix_to text ix) +:+ r.
Proof.
  intros [r Hr] Hfind. unfold Py.find in *.
  pose proof (index_bound _ _ _ Hfind) as Hb.
  assert (Hcut : Py.prefix_to (fst acc) ix = Py.prefix_to text ix).
  { rewrite Hr. symmetry. apply prefix_to_app_short. lia. }
  split; [rewrite Hr; apply index_app; exact Hfind|]. split.
  - unfold trim_step, Py.find. rewrite Hfind, Hcut. reflexivity.
  - destruct (prefix_to_is_prefix text ix) as [r1 Hr1].
    destruct (rstrip_is_prefix (Py.prefix_to text ix)) as [r2 Hr2].
    exists (r2 +:+ r1). rewrite <- string_app_assoc, <- Hr2. exact Hr1.
Qed.

Lemma trim_fold (text : string) (stops : list string) (l : list string) :
  forall acc,
    (forall stop, In stop l -> In stop stops) ->
    (exists r, text = fst acc +:+ r) ->
    (snd acc = false -> fst acc = text) ->
    (snd acc = true -> cut_at text stops (fst acc)) ->
    (snd (fold_left trim_step l acc) = true ->
     cut_at text stops (fst (fold_left trim_step l acc))) /\
    (snd (fold_left trim_step l acc) = false ->
     fst (fold_left trim_step l acc) = text /\
     forall stop, In stop l -> Py.find text stop = None).
Proof.
  induction l as [|stop l IH]; intros acc Hin Hpre Hfalse Htrue.
  - simpl. split; [exact Htrue|]. intros Hf. split; [auto | intros ? []].
  - simpl.
    destruct (Py.find (fst acc) stop) as [ix|] eqn:Hfind.
    + destruct (trim_step_found text acc stop ix Hpre Hfind) as (Hft & Hstep & Hpre').
      rewrite Hstep.
      destruct (IH (Py.rstrip (Py.prefix_to text ix), true)) as [IHt IHf].
      * intros s Hs. apply Hin. right. exact Hs.
      * exact Hpre'.
      * discriminate.
      * intros _. exists stop, ix. split; [apply Hin; left; reflexivity|].
        split; [exact Hft | reflexivity].
      * split; [exact IHt|]. intros Hf. destruct (IHf Hf) as [_ Hnone].
        exfalso. clear -Hf. revert Hf.
        generalize (Py.rstrip (Py.prefix_to text ix)). induction l as [|s l IHl];
          intros cur; simpl; [discriminate|].
        unfold trim_step at 2. simpl.
        destruct (Py.find cur s); apply IHl.
    + assert (Hstep : trim_step acc stop = acc)
        by (unfold trim_step; rewrite Hfind; reflexivity).
      rewrite Hstep.
      destruct (IH acc) as [IHt IHf]; try assumption.
      * intros s Hs. apply Hin. right. exact Hs.
      * split; [exact IHt|]. intros Hf. destruct (IHf Hf) as [Htext Hnone].
        split; [exact Htext|]. intros s [<-|Hs]; [|apply Hnone; exact Hs].
        assert (Hacc : snd acc = false).
        { destruct (snd acc) eqn:Hs; [|reflexivity]. exfalso.
          clear -Hf Hs. revert Hf. destruct acc as [cur tr]. simpl in Hs. subst tr.
          revert cur. induction l as [|s l IHl]; intros cur; simpl; [discriminate|].
          unfold trim_step at 2. simpl. destruct (Py.find cur s); apply IHl. }
        rewrite <- (Hfalse Hacc). exact Hfind.
Qed.

(** What the loop over the stop strings returns: a trimmed text is the
    text cut at the first occurrence of one of the stop strings; a text
    that is not trimmed holds none of them. *)
Lemma trim_stops_spec (stops : list string) (text out : string) (trimmed : bool) :
  trim_stops stops text = (out, trimmed) ->
  (trimmed = true -> cut_at text stops out) /\
  (trimmed = false ->
   out = text /\ forall stop, In stop stops -> Py.find text stop = None).
Proof.
  intros Ht. unfold trim_stops in Ht.
  assert (Hfold : fold_left trim_step stops (text, false) = (out, trimmed)).
  { destruct stops; [simpl; exact Ht | exact Ht]. }
  destruct (trim_fold text stops stops (text, false)) as [Htrue Hfalse]; simpl; auto.
  - exists EmptyString. clear. induction text as [|c t IH]; [reflexivity|].
    change (String c t = String c (t +:+ EmptyString)). rewrite <- IH. reflexivity.
  - discriminate.
  - rewrite Hfold in Htrue, Hfalse. simpl in Htrue, Hfalse. split; assumption.
Qed.

(** The output of [decode] for one sample whose decoded text holds a stop
    string: the text cut at the first occurrence of one of the stop
    strings, white space removed, and the marker appended once. *)
Lemma decode_one_trimmed {F} tk (cfg : settings F) prompt sample prompt_size s p o :
  decode_one tk cfg true prompt sample prompt_size = Ok (s, p, o) ->
  (exists stop, In stop (stop_sequences cfg) /\
     Py.find (tok_decode tk (drop_pad (pad_token_id tk) (Py.slice_from sample prompt_size)))
       stop <> None) ->
  exists out,
    cut_at (tok_decode tk (drop_pad (pad_token_id tk) (Py.slice_from sample prompt_size)))
      (stop_sequences cfg) out /\
    o = out +:+ eos_token tk /\ s = p +:+ o.
Proof.
  unfold decode_one. intros Hd (stop & Hin & Hfound).
  destruct (is_seq2seq cfg); [discriminate|].
  destruct (trim_stops (stop_sequences cfg) _) as [out trimmed] eqn:Htrim.
  apply trim_stops_spec in Htrim as [Htrue Hfalse].
  destruct trimmed.
  - simpl in Hd. injection Hd as <- <- <-. exists out. auto.
  - destruct (Hfalse eq_refl) as [_ Hnone]. exfalso. apply Hfound, Hnone, Hin.
Qed.

(** ** The end-of-sequence marker in [decode] *)

(** Without stop strings, a sample whose last token is not the
    end-of-sequence token (a padded row ends with the padding token) gets
    the marker appended to whatever its tokens decode to. *)
Lemma decode_one_appends_marker {F} tk (cfg : settings F) prompt sample prompt_size last :
  is_seq2seq cfg = false -> stop_sequences cfg = [] ->
  Py.item sample (-1) = Ok last -> last <> eos_token_id tk ->
  decode_one tk cfg true prompt sample prompt_size
  = Ok (tok_decode tk (drop_pad (pad_token_id tk) (Py.slice_to prompt prompt_size))
          +:+ (tok_decode tk (drop_pad (pad_token_id tk) (Py.slice_from sample prompt_size))
               +:+ eos_token tk),
        tok_decode tk (drop_pad (pad_token_id tk) (Py.slice_to prompt prompt_size)),
        tok_decode tk (drop_pad (pad_token_id tk) (Py.slice_from sample prompt_size))
          +:+ eos_token tk).
Proof.
  intros Harch Hstops Hlast Hne. unfold decode_one. rewrite Harch, Hstops. simpl.
  rewrite Hlast. simpl.
  destruct (Z.eqb_spec last (eos_token_id tk)); [contradiction | reflexivity].
Qed.

(** C4, evaluated on a batch of two samples of different lengths. The
    second row is padded after its end-of-sequence token, so its last token
    is the padding token: the marker is appended although the decoded text
    ends with it, and the output holds it twice. *)
Theorem decode_appends_second_marker :
  decode Toy.tk (Toy.cfg [] None None)
    [[80; 81]; [82; 83]] [[80; 81; 65; 66; 2]; [82; 83; 67; 2; 0]] None true
  = Ok (["PQAB</s>"; "RSC</s></s>"], ["PQ"; "RS"], ["AB</s>"; "C</s></s>"])%string /\
  Py.occurrences "</s>" "C</s></s>" = 2%nat /\
  Py.occurrences "</s>" (Toy.detok (drop_pad 0 (Py.slice_from [82; 83; 67; 2; 0] 2))) = 1%nat.
Proof. repeat split; vm_compute; reflexivity. Qed.

(** The stop strings are tried one after the other on what the earlier
    ones have left: with ["cd"] before ["bc"], the text ["abcd"] is cut at
    ["cd"], where ["bc"] no longer occurs. *)
Example decode_trims_stops_in_order :
  decode Toy.tk (Toy.cfg ["cd"; "bc"]%string None None)
    [[80]] [[80; 97; 98; 99; 100; 2]] None true
  = Ok (["Pab</s>"], ["P"], ["ab</s>"])%string.
Proof. vm_compute. reflexivity. Qed.

(** ** Lengths of the per-token sequences *)

Lemma gather_with_length {A B C} (f : A -> B -> C) xs ys r :
  gather_with f xs ys = Ok r -> length r = length ys.
Proof.
  revert xs r. induction ys as [|y ys IH]; intros xs r Hg; simpl in Hg.
  - injection Hg as <-. reflexivity.
  - destruct xs as [|x xs]; [discriminate|]. bind_inv Hg. injection Hg as <-.
    simpl. f_equal. eauto.
Qed.

Lemma gather_rows_lookup {A B C} (f : A -> B -> C) xs ys rs i r :
  gather_rows f xs ys = Ok rs -> rs !! i = Some r ->
  exists y, ys !! i = Some y /\ length r = length y.
Proof.
  revert xs rs i. induction ys as [|y ys IH]; intros xs rs i Hg Hr; simpl in Hg.
  - injection Hg as <-. destruct i; discriminate.
  - destruct xs as [|x xs]; [discriminate|].
    bind_inv Hg. rename a into r0, Ha into Hr0. bind_inv Hg. injection Hg as <-.
    destruct i as [|i]; simpl in Hr.
    + injection Hr as <-. exists y. split; [reflexivity|].
      exact (gather_with_length _ _ _ _ Hr0).
    + exact (IH _ _ _ Ha Hr).
Qed.

Lemma slice_from_length {A} (l : list A) (lo : Z) :
  length (Py.slice_from l lo) = (length l - Py.bound (length l) lo)%nat.
Proof. unfold Py.slice_from. apply length_drop. Qed.

Lemma slice_to_length {A} (l : list A) (hi : Z) :
  length (Py.slice_to l hi) = Py.bound (length l) hi.
Proof.
  unfold Py.slice_to. rewrite length_take.
  assert (Py.bound (length l) hi <= length l)%nat by (unfold Py.bound; lia). lia.
Qed.

Lemma bound_minus_one (n : nat) : Py.bound n (-1) = (n - 1)%nat.
Proof. unfold Py.bound. simpl. lia. Qed.

Lemma bound_one (n : nat) : Py.bound n 1 = Nat.min n 1.
Proof. unfold Py.bound. simpl. lia. Qed.

Lemma logprobs_row_length {F Lg} (lpl : Lg -> Z -> F) lg toks lp i r tok_row :
  logprobs_of_labels lpl lg toks = Ok lp ->
  lp !! i = Some r -> toks !! i = Some tok_row ->
  length r = (length tok_row - 1)%nat.
Proof.
  unfold logprobs_of_labels. intros Hg Hr Ht.
  destruct (gather_rows_lookup _ _ _ _ _ _ Hg Hr) as (y & Hy & ->).
  rewrite map_fmap, list_lookup_fmap, Ht in Hy. simpl in Hy. injection Hy as <-.
  rewrite slice_from_length, bound_one. lia.
Qed.

Lemma lookup_map_inv {A B} (f : A -> B) (l : list A) (i : nat) (y : B) :
  map f l !! i = Some y -> exists x, l !! i = Some x /\ y = f x.
Proof.
  rewrite map_fmap, list_lookup_fmap. destruct (l !! i) as [x|]; simpl; intros Hy;
    [|discriminate].
  injection Hy as <-. eauto.
Qed.

Lemma lookup_map_fwd {A B} (f : A -> B) (l : list A) (i : nat) (x : A) :
  l !! i = Some x -> map f l !! i = Some (f x).
Proof. intros Hx. rewrite map_fmap, list_lookup_fmap, Hx. reflexivity. Qed.

Lemma for_each_range_lookup {B} (f : nat -> result B) (n : nat) (ys : list B) i y :
  for_each f (seq 0 n) = Ok ys -> ys !! i = Some y -> f i = Ok y.
Proof.
  intros Hf Hy. apply for_each_lookup in Hf as [_ Hlook].
  destruct (Hlook i y Hy) as (x & Hx & Hfx).
  apply lookup_seq in Hx as [-> _]. exact Hfx.
Qed.

(** The three per-token sequences of an element are slices, between the
    same bounds, of rows that are one column shorter than the row of
    [all_tokens] of the example. *)
Lemma element_slices {F Lg RM} `{Scalar F} (w : world F Lg RM) tk cfg st t :
  rollout_turn w tk cfg st = Ok t ->
  values_per_token w ->
  forall ix e, elements t !! ix = Some e ->
    exists stop,
      input_ids (next_batch w (drawn st)) !! ix = Some (query_tensor e) /\
      padded_outputs t !! ix = Some (response_tensor e) /\
      start (cut_from t) = Py.shape1 (input_ids (next_batch w (drawn st))) - 1 /\
      stop = start (cut_from t)
             + zsum (Py.slice_from
                       (map (fun tok => if tok =? pad_token_id tk then 0 else 1)
                          (query_tensor e ++ response_tensor e))
                       (start (cut_from t)))
             + 1 /\
      let columns := (length (query_tensor e ++ response_tensor e) - 1)%nat in
      let cut := (Py.bound columns stop - Py.bound columns (start (cut_from t)))%nat in
      length (logprobs e) = cut /\ length (values e) = cut /\ length (rewards e) = cut.
Proof.
  intros Ht Hshape_ok ix e He.
  destruct (rollout_turn_steps w tk cfg st t Ht)
    as [samples scaled fo _ _ _ _ _ Hfwd Hshape Hbuild _ _ _ _ _ _ _].
  destruct (forward_pass_fields _ _ _ _ _ _ Hfwd) as (Hrows & Htoks & Hmask & Hmodel).
  destruct (shape_rollout_fields _ _ _ _ _ _ Hshape)
    as (lp & rlp & Hlp & Hrlp & Hstart & Hlr & Hends & Hvals & Hlps & _).
  apply build_elements_lookup in Hbuild as [_ Hlook].
  destruct (build_element_fields _ _ _ _ _ _ (Hlook ix e He))
    as (cut & score & Hcut & _ & Hadd & Hq & Hr & Hlpe & Hve).
  set (tok_row := query_tensor e ++ response_tensor e).
  assert (Htok : all_tokens fo !! ix = Some tok_row).
  { rewrite Htoks, lookup_zip_with, Hq, Hr. reflexivity. }
  assert (Hmrow : mask fo !! ix
                  = Some (map (fun tok => if tok =? pad_token_id tk then 0 else 1) tok_row)).
  { rewrite Hmask. unfold not_pad_mask. apply lookup_map_fwd. exact Htok. }
  pose proof (lookup_map_fwd
                (fun r => start (cut_from t) + zsum (Py.slice_from r (start (cut_from t))) + 1)
                _ _ _ Hmrow) as Hstop.
  rewrite <- Hends in Hstop.
  eexists. split; [exact Hq|]. split; [exact Hr|]. split; [exact Hstart|].
  split; [reflexivity|]. cbv zeta. fold tok_row.
  split; [|split].
  - pose proof (for_each_range_lookup _ _ _ _ _ Hlps Hlpe) as Hf.
    bind_inv Hf. rename a into r, Ha into Hrow. bind_inv Hf. rename a into stop', Ha into Hs'.
    injection Hf as <-. apply at_index_ok in Hrow, Hs'.
    rewrite Hstop in Hs'. injection Hs' as <-.
    rewrite slice_length, (logprobs_row_length _ _ _ _ _ _ _ Hlp Hrow Htok). reflexivity.
  - pose proof (for_each_range_lookup _ _ _ _ _ Hvals Hve) as Hf.
    bind_inv Hf. rename a into r, Ha into Hrow. bind_inv Hf. rename a into stop', Ha into Hs'.
    injection Hf as <-. apply at_index_ok in Hrow, Hs'.
    rewrite Hstop in Hs'. injection Hs' as <-.
    apply lookup_map_inv in Hrow as (vrow & Hvrow & ->).
    pose proof (Hshape_ok _ _ _ _ Hmodel) as Hsame.
    apply (f_equal (fun l => l !! ix)) in Hsame.
    rewrite (lookup_map_fwd _ _ _ _ Hvrow), (lookup_map_fwd _ _ _ _ Htok) in Hsame.
    injection Hsame as Hsame.
    rewrite slice_length, slice_to_length, bound_minus_one, Hsame. reflexivity.
  - destruct (kl_penalty_row _ _ _ _ _ _ _ _ Hshape Hcut)
      as (lr_row & stop' & Hlrow & Hs' & ->).
    rewrite Hstop in Hs'. injection Hs' as <-.
    apply add_to_last_inv in Hadd as (before & last & Hsplit & ->).
    assert (Hlen : length (before ++ [fadd last score])
                   = length (Py.slice lr_row (start (cut_from t))
                               (start (cut_from t)
                                + zsum (Py.slice_from
                                          (map (fun tok => if tok =? pad_token_id tk
                                                           then 0 else 1) tok_row)
                                          (start (cut_from t))) + 1))).
    { etransitivity; [|apply (length_map (penalty (kl_ctl_value st)))].
      rewrite Hsplit, !length_app. reflexivity. }
    rewrite Hlen, slice_length. clear Hlen Hsplit.
    rewrite Hlr in Hlrow. apply lookup_zip_with_Some in Hlrow as (a & b & -> & Ha & Hb).
    apply lookup_zip_with_Some in Ha as (lp_row & rlp_row & -> & Hlprow & Hrlprow).
    apply lookup_map_inv in Hb as (m & Hm & ->).
    rewrite Hmrow in Hm. injection Hm as <-.
    rewrite !length_zip_with, slice_to_length, bound_minus_one, length_map.
    rewrite (logprobs_row_length _ _ _ _ _ _ _ Hlp Hlprow Htok).
    rewrite (logprobs_row_length _ _ _ _ _ _ _ Hrlp Hrlprow Htok).
    rewrite !Nat.min_id. reflexivity.
Qed.

Lemma zsum_app (a b : list Z) : zsum (a ++ b) = zsum a + zsum b.
Proof. induction a as [|x a IH]; simpl; [reflexivity|]. unfold zsum in *. simpl. lia. Qed.

Lemma zsum_not_pad (pad : Z) (l : list Z) :
  zsum (map (fun tok => if tok =? pad then 0 else 1) l)
  = Z.of_nat (length (drop_pad pad l)).
Proof.
  induction l as [|x l IH]; [reflexivity|].
  change (zsum (map (fun tok => if tok =? pad then 0 else 1) (x :: l)))
    with ((if x =? pad then 0 else 1)
          + zsum (map (fun tok => if tok =? pad then 0 else 1) l)).
  rewrite IH. simpl. destruct (x =? pad); simpl; lia.
Qed.

(** The common length in closed form, for an example whose prompt row has
    the width of the prompt tensor and ends with the token [last]: with
    [k] the number of non-padding tokens among [last] and the response, it
    is [k + 1], cut to the padded width of the response. For a left-padded
    prompt this is the length of the response plus two where the padding
    leaves room for it. *)
Lemma element_length_closed_form {F Lg RM} `{Scalar F} (w : world F Lg RM) tk cfg st t :
  rollout_turn w tk cfg st = Ok t ->
  values_per_token w ->
  forall ix e before last,
    elements t !! ix = Some e ->
    query_tensor e = before ++ [last] ->
    Py.shape1 (input_ids (next_batch w (drawn st))) = Z.of_nat (length (query_tensor e)) ->
    let k := ((if (last =? pad_token_id tk)%Z then 0 else 1)
              + length (drop_pad (pad_token_id tk) (response_tensor e)))%nat in
    let cut := Nat.min (length (response_tensor e)) (k + 1) in
    length (logprobs e) = cut /\ length (values e) = cut /\ length (rewards e) = cut.
Proof.
  intros Ht Hshape ix e before last He Hq Hwidth k cut.
  destruct (element_slices w tk cfg st t Ht Hshape ix e He)
    as (stop & _ & _ & Hstart & Hstop & Hlens).
  cbv zeta in Hlens.
  set (P := length before) in *.
  assert (HP : length (query_tensor e) = S P)
    by (rewrite Hq, length_app; simpl; lia).
  assert (Hs : start (cut_from t) = Z.of_nat P) by (rewrite Hstart, Hwidth, HP; lia).
  assert (Hsum : zsum (Py.slice_from
                         (map (fun tok => if tok =? pad_token_id tk then 0 else 1)
                            (query_tensor e ++ response_tensor e))
                         (start (cut_from t)))
                 = Z.of_nat k).
  { rewrite Hs. unfold Py.slice_from. rewrite bound_of_nat, length_map, length_app, HP.
    rewrite Nat.min_r by lia.
    rewrite Hq, <- app_assoc, map_app, drop_app_length'
      by (rewrite length_map; reflexivity).
    simpl app.
    change (map (fun tok => if tok =? pad_token_id tk then 0 else 1)
              (last :: response_tensor e))
      with ((if last =? pad_token_id tk then 0 else 1)
            :: map (fun tok => if tok =? pad_token_id tk then 0 else 1)
                 (response_tensor e)).
    change (zsum (?x :: ?l)) with (x + zsum l).
    rewrite zsum_not_pad. subst k. destruct (last =? pad_token_id tk); lia. }
  rewrite Hsum in Hstop. rewrite Hs in Hstop, Hlens.
  rewrite length_app, HP in Hlens.
  replace stop with (Z.of_nat (P + k + 1)) in Hlens by lia.
  rewrite !bound_of_nat in Hlens.
  destruct Hlens as (H1 & H2 & H3). subst cut. repeat split; lia.
Qed.

Lemma toy_values_per_token prompts continuations scores :
  values_per_token (Toy.world_of prompts continuations scores).
Proof.
  intros toks m lg vals Hm. simpl in Hm. injection Hm as _ <-.
  rewrite map_map. apply map_ext. intros r. apply length_map.
Qed.

(** The closed form on the second example of [Toy.two_lengths]: a response
    of 2 tokens in a width of 5 behind a prompt that ends with a real
    token gives sequences of length [min 5 ((1 + 2) + 1) = 4]. *)
Example two_lengths_closed_form :
  exists t e,
    rollout_turn Toy.two_lengths Toy.tk Toy.hash_stop_cfg Toy.fresh_trainer = Ok t /\
    elements t !! 1%nat = Some e /\
    length (rewards e) = Nat.min 5 ((1 + 2) + 1).
Proof.
  destruct (rollout_turn Toy.two_lengths Toy.tk Toy.hash_stop_cfg Toy.fresh_trainer)
    as [t|err] eqn:Ht; [|vm_compute in Ht; discriminate].
  destruct (elements t !! 1%nat) as [e|] eqn:He.
  2:{ vm_compute in Ht. injection Ht as <-. vm_compute in He. discriminate. }
  exists t, e. split; [reflexivity|]. split; [exact He|].
  assert (Hq : query_tensor e = [82] ++ [83] /\ response_tensor e = [69; 2; 0; 0; 0]).
  { vm_compute in Ht. injection Ht as <-. vm_compute in He. injection He as <-.
    split; reflexivity. }
  destruct Hq as [Hq Hr].
  destruct (element_length_closed_form Toy.two_lengths Toy.tk Toy.hash_stop_cfg
              Toy.fresh_trainer t Ht (toy_values_per_token _ _ _) 1%nat e [82] 83 He Hq)
    as (_ & _ & Hrw).
  - rewrite Hq. reflexivity.
  - rewrite Hrw, Hr. reflexivity.
Qed.

(** C1, evaluated. (1) One prompt of two tokens with a response of three
    tokens and no padding: the three sequences have length 3, the length of
    the response, not 4. (2) Two prompts whose responses have 5 and 2
    tokens, the second padded to width 5: the sequences of the first
    element have length 5, those of the second length 4, two more than its
    response, the last two entries lying on padding. *)
Theorem replay_lengths_at_failing_input :
  (exists t,
     rollout_turn Toy.one_example Toy.tk (Toy.cfg [] None None) Toy.fresh_trainer = Ok t /\
     response_lengths 0 t = [3%nat] /\
     element_lengths t = [(3, 3, 3)%nat]) /\
  (exists t,
     rollout_turn Toy.two_lengths Toy.tk Toy.hash_stop_cfg Toy.fresh_trainer = Ok t /\
     padded_outputs t = [[65; 66; 67; 68; 2]; [69; 2; 0; 0; 0]] /\
     response_lengths 0 t = [5%nat; 2%nat] /\
     element_lengths t = [(5, 5, 5)%nat; (4, 4, 4)%nat]).
Proof.
  split.
  - destruct (rollout_turn Toy.one_example Toy.tk (Toy.cfg [] None None) Toy.fresh_trainer)
      as [t|e] eqn:Ht; vm_compute in Ht; [|discriminate].
    injection Ht as <-. eexists. split; [reflexivity|]. split; vm_compute; reflexivity.
  - destruct (rollout_turn Toy.two_lengths Toy.tk Toy.hash_stop_cfg Toy.fresh_trainer)
      as [t|e] eqn:Ht; vm_compute in Ht; [|discriminate].
    injection Ht as <-. eexists. split; [reflexivity|]. repeat split; vm_compute; reflexivity.
Qed.

(** * Properties of the generation and loading code *)

(** ** [_get_logits_processor] *)

Lemma outcome_bind_return {A B} (m : outcome A) (k : A -> outcome B) (b : B) :
  m ≫= k = Return b -> exists a, m = Return a /\ k a = Return b.
Proof. destruct m as [a|e]; simpl; [eauto | discriminate]. Qed.

Section LogitsProcessors.
Context {P Fn Decay : Type} `{PyFloat P}.
Implicit Types (gc : Gen.config P Decay) (ps : list (Gen.processor P Fn Decay)).

Lemma ranked_below_nil : ranked_below (P := P) (Fn := Fn) (Decay := Decay) 0 [].
Proof.
  split; [|constructor]. intros i j p q Hi. rewrite lookup_nil in Hi. discriminate.
Qed.

Lemma ranked_below_weaken k k' ps :
  ranked_below k ps -> (k <= k')%nat -> ranked_below k' ps.
Proof.
  intros [Ho Hb] Hk. split; [exact Ho|].
  eapply Forall_impl; [exact Hb|]. simpl. intros; lia.
Qed.

Lemma ranked_below_snoc k ps p :
  ranked_below k ps -> (k <= Gen.rank p)%nat -> ranked_below (S (Gen.rank p)) (ps ++ [p]).
Proof.
  intros [Ho Hb] Hk. split.
  - intros i j a b Hi Hj Hij.
    destruct (decide (j < length ps)%nat) as [Hlt|Hge].
    + rewrite lookup_app_l in Hj by exact Hlt.
      rewrite lookup_app_l in Hi by lia. eauto.
    + rewrite lookup_app_r in Hj by lia.
      destruct (j - length ps)%nat eqn:Hd; simpl in Hj; [|rewrite lookup_nil in Hj; discriminate].
      injection Hj as <-.
      rewrite lookup_app_l in Hi by lia.
      rewrite Forall_lookup in Hb. specialize (Hb _ _ Hi). simpl in Hb. lia.
  - apply Forall_app. split.
    + eapply Forall_impl; [exact Hb|]. simpl. intros; lia.
    + repeat constructor.
Qed.

Lemma ranked_below_append_if k k' c ps p :
  ranked_below k ps -> (k <= Gen.rank p)%nat -> (Gen.rank p < k')%nat ->
  ranked_below k' (Gen.append_if c p ps).
Proof.
  intros Hr Hk Hk'. unfold Gen.append_if. destruct c.
  - eapply ranked_below_weaken; [eapply ranked_below_snoc; eauto | lia].
  - eapply ranked_below_weaken; [exact Hr | lia].
Qed.

Lemma ranked_below_add k k' ps p :
  ranked_below k ps -> (k <= Gen.rank p)%nat -> (Gen.rank p < k')%nat ->
  ranked_below k' (ps ++ [p]).
Proof. intros. apply (ranked_below_append_if k k' true); assumption. Qed.

Local Ltac rank_step :=
  first [ eapply ranked_below_append_if; [eassumption | simpl; lia | simpl; lia]
        | eapply ranked_below_add; [eassumption | simpl; lia | simpl; lia]
        | eapply ranked_below_weaken; [eassumption | lia] ].

Lemma default_processors_ranked e gc n ids fn ps :
  Gen.default_processors e gc n ids fn = Return ps -> ranked_below 15 ps.
Proof.
  unfold Gen.default_processors. cbv zeta. intros Hd.
  pose proof ranked_below_nil as R0.
  assert (R1 : ranked_below 1 (Gen.add_hamming_diversity (Fn := Fn) gc [])).
  { unfold Gen.add_hamming_diversity. destruct (Gen.diversity_penalty gc); rank_step. }
  set (l1 := Gen.add_hamming_diversity (Fn := Fn) gc []) in *. clearbody l1. clear R0.
  assert (R2 : ranked_below 2 (Gen.add_encoder_repetition_penalty gc ids l1)).
  { unfold Gen.add_encoder_repetition_penalty.
    destruct (Gen.encoder_repetition_penalty gc); rank_step. }
  set (l2 := Gen.add_encoder_repetition_penalty gc ids l1) in *. clearbody l2. clear R1.
  assert (R3 : ranked_below 3 (Gen.add_repetition_penalty gc l2)).
  { unfold Gen.add_repetition_penalty. destruct (Gen.repetition_penalty gc); rank_step. }
  set (l3 := Gen.add_repetition_penalty gc l2) in *. clearbody l3. clear R2.
  assert (R4 : ranked_below 4 (Gen.add_no_repeat_ngram gc l3)).
  { unfold Gen.add_no_repeat_ngram. destruct (Gen.no_repeat_ngram_size gc); rank_step. }
  set (l4 := Gen.add_no_repeat_ngram gc l3) in *. clearbody l4. clear R3.
  apply outcome_bind_return in Hd as (l5 & H5 & Hd).
  assert (R5 : ranked_below 5 l5).
  { unfold Gen.add_encoder_no_repeat_ngram in H5.
    destruct (Gen.encoder_no_repeat_ngram_size gc) as [k|];
      [destruct (0 <? k); [destruct e|]|]; try discriminate;
      injection H5 as <-; rank_step. }
  clear H5 R4.
  assert (R6 : ranked_below 6 (Gen.add_no_bad_words gc l5)).
  { unfold Gen.add_no_bad_words. destruct (Gen.bad_words_ids gc); rank_step. }
  set (l6 := Gen.add_no_bad_words gc l5) in *. clearbody l6. clear R5.
  assert (R7 : ranked_below 7 (Gen.add_min_length gc l6)).
  { unfold Gen.add_min_length.
    destruct (Gen.min_length gc); [destruct (Gen.eos_token_id gc)|]; rank_step. }
  set (l7 := Gen.add_min_length gc l6) in *. clearbody l7. clear R6.
  assert (R8 : ranked_below 7 (Gen.add_min_new_tokens gc l7)).
  { unfold Gen.add_min_new_tokens.
    destruct (Gen.min_new_tokens gc) as [m|];
      [destruct (Gen.eos_token_id gc); [destruct (0 <? m)|]|]; rank_step. }
  set (l8 := Gen.add_min_new_tokens gc l7) in *. clearbody l8. clear R7.
  apply outcome_bind_return in Hd as (l9 & H9 & Hd).
  assert (R9 : ranked_below 8 l9).
  { unfold Gen.add_prefix_constrained in H9. destruct fn as [f|].
    - apply outcome_bind_return in H9 as (b & _ & H9). injection H9 as <-. rank_step.
    - injection H9 as <-. rank_step. }
  clear H9 R8.
  assert (R10 : ranked_below 9 (Gen.add_forced_bos gc l9)).
  { unfold Gen.add_forced_bos. destruct (Gen.forced_bos_token_id gc); rank_step. }
  set (l10 := Gen.add_forced_bos gc l9) in *. clearbody l10. clear R9.
  assert (R11 : ranked_below 10 (Gen.add_forced_eos gc l10)).
  { unfold Gen.add_forced_eos. destruct (Gen.forced_eos_token_id gc); rank_step. }
  set (l11 := Gen.add_forced_eos gc l10) in *. clearbody l11. clear R10.
  assert (R12 : ranked_below 11 (Gen.add_inf_nan_remove gc l11)).
  { unfold Gen.add_inf_nan_remove. rank_step. }
  set (l12 := Gen.add_inf_nan_remove gc l11) in *. clearbody l12. clear R11.
  assert (R13 : ranked_below 12 (Gen.add_exponential_decay gc n l12)).
  { unfold Gen.add_exponential_decay.
    destruct (Gen.exponential_decay_length_penalty gc); rank_step. }
  set (l13 := Gen.add_exponential_decay gc n l12) in *. clearbody l13. clear R12.
  assert (R14 : ranked_below 13 (Gen.add_suppress_tokens gc l13)).
  { unfold Gen.add_suppress_tokens. destruct (Gen.suppress_tokens gc); rank_step. }
  set (l14 := Gen.add_suppress_tokens gc l13) in *. clearbody l14. clear R13.
  apply outcome_bind_return in Hd as (l15 & H15 & Hd).
  assert (R15 : ranked_below 14 l15).
  { unfold Gen.add_begin_suppress in H15. destruct (Gen.begin_suppress_tokens gc) as [s|].
    - apply outcome_bind_return in H15 as (b & _ & H15). injection H15 as <-. rank_step.
    - injection H15 as <-. rank_step. }
  clear H15 R14.
  injection Hd as <-.
  unfold Gen.add_force_tokens. destruct (Gen.forced_decoder_ids gc); rank_step.
Qed.

End LogitsProcessors.

Section LogitsProcessorsMain.
Context {P Fn Decay : Type} `{PyFloat P}.
Implicit Types (gc : Gen.config P Decay) (ps : list (Gen.processor P Fn Decay)).

(** X1. When the merge with the caller's processors leaves the default
    list as it is (as it does for an empty custom list), the processors
    returned by [_get_logits_processor] stand in the fixed order of the
    source, each kind at most once, [LogitNormalization] last. *)
Theorem logits_processors_in_source_order
    (merge : list (Gen.processor P Fn Decay) -> option (list (Gen.processor P Fn Decay))
             -> outcome (list (Gen.processor P Fn Decay)))
    e gc n ids fn custom ps :
  (forall l, merge l custom = Return l) ->
  Gen._get_logits_processor merge e gc n ids fn custom = Return ps ->
  in_rank_order ps.
Proof.
  intros Hm Hg. unfold Gen._get_logits_processor in Hg.
  apply outcome_bind_return in Hg as (l & Hl & Hg).
  rewrite Hm in Hg. simpl in Hg. injection Hg as <-.
  apply default_processors_ranked in Hl.
  eapply (ranked_below_append_if 15 16); [exact Hl | simpl; lia | simpl; lia].
Qed.

(** X2. On a decoder-only model a positive [encoder_no_repeat_ngram_size]
    makes [_get_logits_processor] raise [ValueError], whatever the other
    settings and the caller's processors are. *)
Theorem encoder_ngram_on_decoder_only_raises
    (merge : list (Gen.processor P Fn Decay) -> option (list (Gen.processor P Fn Decay))
             -> outcome (list (Gen.processor P Fn Decay)))
    gc n ids fn custom k :
  Gen.encoder_no_repeat_ngram_size gc = Some k -> 0 < k ->
  Gen._get_logits_processor merge false gc n ids fn custom = Throw (Base ValueError).
Proof.
  intros Hk Hpos. unfold Gen._get_logits_processor, Gen.default_processors. cbv zeta.
  unfold Gen.add_encoder_no_repeat_ngram. rewrite Hk.
  assert (Hlt : (0 <? k) = true) by (apply Z.ltb_lt; exact Hpos).
  rewrite Hlt. reflexivity.
Qed.

(** X3. [min_new_tokens] has no effect: the processors are the same
    whatever value it has. *)
Theorem min_new_tokens_has_no_effect
    (merge : list (Gen.processor P Fn Decay) -> option (list (Gen.processor P Fn Decay))
             -> outcome (list (Gen.processor P Fn Decay)))
    e gc n ids fn custom m :
  Gen._get_logits_processor merge e (with_min_new_tokens gc m) n ids fn custom
  = Gen._get_logits_processor merge e gc n ids fn custom.
Proof.
  unfold Gen._get_logits_processor, Gen.default_processors. cbv zeta.
  unfold Gen.add_min_new_tokens. simpl.
  destruct (Gen.min_new_tokens gc) as [x|], m as [y|], (Gen.eos_token_id gc);
    try destruct (0 <? x); try destruct (0 <? y); reflexivity.
Qed.

Lemma append_if_In c (p x : Gen.processor P Fn Decay) ps :
  In x ps -> In x (Gen.append_if c p ps).
Proof. unfold Gen.append_if. destruct c; [|auto]. intros; apply in_or_app; auto. Qed.

(** X4. A [forced_eos_token_id] in the configuration gives a
    [ForcedEOSTokenLogitsProcessor] for it at [max_length] among the
    default processors. *)
Theorem forced_eos_processor_is_built e gc n ids fn eos ps :
  Gen.forced_eos_token_id gc = Some eos ->
  Gen.default_processors e gc n ids fn = Return ps ->
  In (Gen.ForcedEOSTokenLogitsProcessor (Gen.max_length gc) eos) ps /\
  forall p, In p ps -> Gen.rank p = 9%nat ->
    p = Gen.ForcedEOSTokenLogitsProcessor (Gen.max_length gc) eos.
Proof.
  intros He Hd. pose proof (default_processors_ranked _ _ _ _ _ _ Hd) as [Ho _].
  assert (Hin : In (Gen.ForcedEOSTokenLogitsProcessor (Gen.max_length gc) eos) ps).
  { unfold Gen.default_processors in Hd. cbv zeta in Hd.
    apply outcome_bind_return in Hd as (l5 & _ & Hd).
    apply outcome_bind_return in Hd as (l9 & _ & Hd).
    apply outcome_bind_return in Hd as (l15 & H15 & Hd).
    injection Hd as <-.
    assert (H11 : In (Gen.ForcedEOSTokenLogitsProcessor (Gen.max_length gc) eos)
                    (Gen.add_forced_eos gc (Gen.add_forced_bos gc l9))).
    { unfold Gen.add_forced_eos. rewrite He. apply in_or_app. right. left. reflexivity. }
    set (l11 := Gen.add_forced_eos gc (Gen.add_forced_bos gc l9)) in *. clearbody l11.
    assert (H14 : In (Gen.ForcedEOSTokenLogitsProcessor (Gen.max_length gc) eos)
                    (Gen.add_suppress_tokens gc
                       (Gen.add_exponential_decay gc n (Gen.add_inf_nan_remove gc l11)))).
    { unfold Gen.add_suppress_tokens, Gen.add_exponential_decay, Gen.add_inf_nan_remove.
      destruct (Gen.suppress_tokens gc), (Gen.exponential_decay_length_penalty gc);
        repeat first [apply append_if_In | exact H11 | (apply in_or_app; left)]. }
    set (l14 := Gen.add_suppress_tokens gc _) in *. clearbody l14.
    assert (H15' : In (Gen.ForcedEOSTokenLogitsProcessor (Gen.max_length gc) eos) l15).
    { unfold Gen.add_begin_suppress in H15. destruct (Gen.begin_suppress_tokens gc).
      - apply outcome_bind_return in H15 as (b & _ & H15). injection H15 as <-.
        apply in_or_app; left; exact H14.
      - injection H15 as <-. exact H14. }
    unfold Gen.add_force_tokens. destruct (Gen.forced_decoder_ids gc);
      [apply in_or_app; left|]; exact H15'. }
  split; [exact Hin|].
  intros p Hp Hr.
  apply list_elem_of_In, list_elem_of_lookup in Hp as [i Hi].
  apply list_elem_of_In, list_elem_of_lookup in Hin as [j Hj].
  destruct (Nat.lt_trichotomy i j) as [Hlt|[->|Hgt]].
  - specialize (Ho _ _ _ _ Hi Hj Hlt). simpl in Ho. lia.
  - congruence.
  - specialize (Ho _ _ _ _ Hj Hi Hgt). simpl in Ho. lia.
Qed.

End LogitsProcessorsMain.

Lemma logits_processors_in_source_order_witness :
  exists ps : list (Gen.processor Q unit unit),
    Gen._get_logits_processor (fun l _ => Return l) false sampling_config 5 [] None (Some [])
    = Return ps /\ in_rank_order ps.
Proof.
  eexists. split; [reflexivity|].
  apply (logits_processors_in_source_order (fun l _ => Return l) false sampling_config 5 []
           None (Some [])); reflexivity.
Defined.

Lemma encoder_ngram_on_decoder_only_raises_witness :
  Gen._get_logits_processor (Fn := unit) (fun l _ => Return l) false encoder_ngram_config
    5 [] None None
  = Throw (Base ValueError).
Proof.
  apply (encoder_ngram_on_decoder_only_raises _ encoder_ngram_config 5 [] None None 3);
    [reflexivity | lia].
Defined.

Lemma forced_eos_processor_is_built_witness :
  In (Gen.ForcedEOSTokenLogitsProcessor (Some 64) (inl 2))
     [Gen.RepetitionPenaltyLogitsProcessor (12 # 10)%Q;
      Gen.MinLengthLogitsProcessor 4 (inl 2);
      @Gen.ForcedEOSTokenLogitsProcessor Q unit unit (Some 64) (inl 2)].
Proof.
  apply (forced_eos_processor_is_built false sampling_config 5 [] None (inl 2));
    reflexivity.
Defined.

(** ** [sample] *)

Lemma zip_exact_ok {A B C} (f : A -> B -> C) xs ys r :
  Sampling.zip_exact f xs ys = Ok r -> length xs = length ys /\ r = zip_with f xs ys.
Proof.
  unfold Sampling.zip_exact. destruct (length xs =? length ys)%nat eqn:E; [|discriminate].
  apply Nat.eqb_eq in E. intros [= <-]. auto.
Qed.

Lemma not_eos_cases (eos : list Z) (tok : Z) :
  (Sampling.not_eos eos tok = 0 /\ In tok eos) \/
  (Sampling.not_eos eos tok = 1 /\ ~ In tok eos).
Proof.
  unfold Sampling.not_eos. induction eos as [|e eos IH]; simpl.
  - right. split; [reflexivity | tauto].
  - destruct (tok =? e) eqn:E.
    + apply Z.eqb_eq in E. left. split; [reflexivity | left; congruence].
    + apply Z.eqb_neq in E. destruct IH as [[-> Hin]|[-> Hnin]].
      * left. split; [reflexivity | right; exact Hin].
      * right. split; [reflexivity | intros [He|Hin]; [congruence | tauto]].
Qed.

Lemma snoc_rows (prompt gens : list (list Z)) :
  forall toks,
    length gens = length prompt -> length toks = length prompt ->
    zip_with (fun r tok => r ++ [tok]) (zip_with app prompt gens) toks
    = zip_with app prompt (zip_with (fun g tok => g ++ [tok]) gens toks).
Proof.
  revert gens. induction prompt as [|p prompt IH]; intros [|g gens] [|t toks] Hg Ht;
    simpl in *; try discriminate; try reflexivity.
  rewrite <- app_assoc. f_equal. apply IH; lia.
Qed.

Lemma empty_rows (prompt : list (list Z)) :
  prompt = zip_with app prompt (repeat [] (length prompt)).
Proof.
  induction prompt as [|p prompt IH]; simpl; [reflexivity|].
  rewrite app_nil_r. f_equal. exact IH.
Qed.

Lemma padded_after_eos_snoc_pad (eos : list Z) (pad : Z) (g : list Z) :
  Sampling.padded_after_eos eos pad g -> Sampling.padded_after_eos eos pad (g ++ [pad]).
Proof.
  intros Hp before e after Heq Hin.
  induction after as [|x after' _] using rev_ind; [constructor|].
  change (before ++ e :: after' ++ [x]) with (before ++ (e :: after') ++ [x]) in Heq.
  rewrite app_assoc in Heq. apply app_inj_tail in Heq as [Hg <-].
  apply Forall_app. split; [eapply Hp; eauto | repeat constructor].
Qed.

Lemma padded_after_eos_snoc_first (eos : list Z) (pad tok : Z) (g : list Z) :
  Forall (fun t => ~ In t eos) g -> Sampling.padded_after_eos eos pad (g ++ [tok]).
Proof.
  intros Hno before e after Heq Hin.
  induction after as [|x after' _] using rev_ind; [constructor|].
  change (before ++ e :: after' ++ [x]) with (before ++ (e :: after') ++ [x]) in Heq.
  rewrite app_assoc in Heq. apply app_inj_tail in Heq as [Hg <-].
  subst g. apply Forall_app in Hno as [_ Hno]. inversion Hno; subst. tauto.
Qed.

Lemma row_state_step (eos : list Z) (pad raw u : Z) (g : list Z) :
  Sampling.row_state eos pad u g ->
  Sampling.row_state eos pad
    (u * Sampling.not_eos eos (raw * u + pad * (1 - u)))
    (g ++ [raw * u + pad * (1 - u)]).
Proof.
  intros ([->| ->] & Hno & Hp).
  - replace (raw * 0 + pad * (1 - 0)) with pad by lia.
    split; [left; lia|]. split; [intros; lia|].
    apply padded_after_eos_snoc_pad. exact Hp.
  - replace (raw * 1 + pad * (1 - 1)) with raw by lia.
    specialize (Hno eq_refl).
    destruct (not_eos_cases eos raw) as [[-> Hin]|[-> Hnin]].
    + split; [left; lia|]. split; [intros; lia|].
      apply padded_after_eos_snoc_first. exact Hno.
    + split; [right; lia|]. split.
      * intros _. apply Forall_app. split; [exact Hno | repeat constructor; exact Hnin].
      * apply padded_after_eos_snoc_first. exact Hno.
Qed.

Lemma rows_state_step (eos : list Z) (pad : Z) (unf : list Z) (gens : list (list Z)) :
  Forall2 (Sampling.row_state eos pad) unf gens ->
  forall raw, length raw = length unf ->
    Forall2 (Sampling.row_state eos pad)
      (zip_with Z.mul unf
         (map (Sampling.not_eos eos)
            (zip_with (fun tok u => tok * u + pad * (1 - u)) raw unf)))
      (zip_with (fun g tok => g ++ [tok]) gens
         (zip_with (fun tok u => tok * u + pad * (1 - u)) raw unf)).
Proof.
  induction 1 as [|u g unf gens Hr Hrest IH]; intros [|r raw] Hl; simpl in *;
    try discriminate; constructor.
  - apply row_state_step. exact Hr.
  - apply IH. lia.
Qed.

Section SampleProperties.
Context {Out K Sc T G LP SC : Type}.
Variable c : Sampling.collaborators Out K Sc T G LP SC.
Variable a : Sampling.arguments K G LP SC.
Variables (lp lw : LP) (sc : SC) (pad : option Z) (eos : option (list Z)).
Variables (os oa oh rd : bool).

(** What a turn of the loop does with the rows and the flags: nothing,
    or one token appended to each row. *)
Lemma loop_body_step st s st' :
  Sampling.loop_body c a lp lw sc pad eos os oa oh rd st = Ok s ->
  s = Sampling.Break st' \/ s = Sampling.Continue st' ->
  (Sampling.input_ids st' = Sampling.input_ids st /\
   Sampling.unfinished_sequences st' = Sampling.unfinished_sequences st /\
   Sampling.scores st' = Sampling.scores st) \/
  (exists toks,
     length toks = length (Sampling.input_ids st) /\
     Sampling.input_ids st'
     = zip_with (fun r tok => r ++ [tok]) (Sampling.input_ids st) toks /\
     match eos with
     | None => Sampling.unfinished_sequences st' = Sampling.unfinished_sequences st
     | Some es =>
         exists p raw,
           pad = Some p /\
           length raw = length (Sampling.unfinished_sequences st) /\
           toks = zip_with (fun tok u => tok * u + p * (1 - u)) raw
                    (Sampling.unfinished_sequences st) /\
           Sampling.unfinished_sequences st'
           = zip_with Z.mul (Sampling.unfinished_sequences st)
               (map (Sampling.not_eos es) toks)
     end /\
     if rd && os
     then exists l x, Sampling.scores st = Some l /\ Sampling.scores st' = Some (l ++ [x])
     else Sampling.scores st' = Sampling.scores st).
Proof.
  unfold Sampling.loop_body. intros Hb Hs.
  destruct (Sampling.synced_gpus a && _) eqn:E1.
  { injection Hb as <-. left. destruct Hs as [[= <-]|[=]]. auto. }
  apply bind_ok in Hb as (outputs & Hfw & Hb).
  destruct (Sampling.synced_gpus a && Sampling.this_peer_finished st) eqn:E2.
  { injection Hb as <-. left. destruct Hs as [[=]|[= <-]]. auto. }
  apply bind_ok in Hb as (lg & Hlg & Hb).
  apply bind_ok in Hb as (s1 & Hs1 & Hb).
  apply bind_ok in Hb as (s2 & Hs2 & Hb).
  apply bind_ok in Hb as (scores' & Hscores & Hb).
  apply bind_ok in Hb as (da & Hda & Hb).
  apply bind_ok in Hb as (ca & Hca & Hb).
  apply bind_ok in Hb as (dh & Hdh & Hb).
  apply bind_ok in Hb as ([raw rng'] & Hmn & Hb).
  apply bind_ok in Hb as (toks & Htoks & Hb).
  apply bind_ok in Hb as (ids' & Hids & Hb).
  apply bind_ok in Hb as (kw' & Hkw & Hb).
  apply bind_ok in Hb as (unf' & Hunf & Hb).
  apply bind_ok in Hb as (stop & Hstop & Hb).
  apply zip_exact_ok in Hids as [Hlen ->].
  assert (Hst : Sampling.input_ids st'
                = zip_with (fun r tok => r ++ [tok]) (Sampling.input_ids st) toks /\
                Sampling.unfinished_sequences st' = unf' /\
                Sampling.scores st' = scores').
  { destruct stop; [destruct (negb (Sampling.synced_gpus a))|];
      injection Hb as <-; destruct Hs as [[= <-]|[= <-]]; auto. }
  destruct Hst as (Hi & Hu & Hsc). right. exists toks. split; [lia|]. split; [exact Hi|].
  split.
  - destruct eos as [es|].
    + destruct pad as [p|]; [|discriminate].
      apply zip_exact_ok in Htoks as [Hl1 ->].
      apply zip_exact_ok in Hunf as [Hl2 ->].
      exists p, raw. auto.
    + injection Hunf as <-. exact Hu.
  - destruct (rd && os).
    + unfold Sampling.tuple_add in Hscores.
      destruct (Sampling.scores st) as [l|]; [|discriminate].
      injection Hscores as <-. eauto.
    + injection Hscores as <-. exact Hsc.
Qed.

Lemma loop_invariant (I : Sampling.loop_state K Sc T G -> Prop) :
  (forall st s st',
     Sampling.loop_body c a lp lw sc pad eos os oa oh rd st = Ok s ->
     s = Sampling.Break st' \/ s = Sampling.Continue st' ->
     I st -> I st') ->
  forall turns st st',
    Sampling.loop turns c a lp lw sc pad eos os oa oh rd st = Some (Ok st') ->
    I st -> I st'.
Proof.
  intros Hstep. induction turns as [|turns IH]; intros st st' Hl Hi; simpl in Hl;
    [discriminate|].
  destruct (Sampling.loop_body c a lp lw sc pad eos os oa oh rd st) as [[x|x]|e] eqn:Hb.
  - injection Hl as <-. eapply Hstep; eauto.
  - eapply IH; [exact Hl|]. eapply Hstep; eauto.
  - discriminate.
Qed.

Lemma snoc_lengths (gens : list (list Z)) (n : nat) :
  Forall (fun g => length g = n) gens ->
  forall toks, Forall (fun g => length g = S n)
                 (zip_with (fun g tok => g ++ [tok]) gens toks).
Proof.
  induction 1 as [|g gens Hg Hn IH]; intros [|t toks]; simpl; constructor;
    [rewrite length_app; simpl; lia | apply IH].
Qed.

Lemma loop_rows (prompt : list (list Z)) turns st st' :
  Sampling.loop turns c a lp lw sc pad eos os oa oh rd st = Some (Ok st') ->
  (exists gens n,
     length gens = length prompt /\
     Sampling.input_ids st = zip_with app prompt gens /\
     Forall (fun g => length g = n) gens) ->
  exists gens n,
    length gens = length prompt /\
    Sampling.input_ids st' = zip_with app prompt gens /\
    Forall (fun g => length g = n) gens.
Proof.
  intros Hl Hi.
  apply (loop_invariant
           (fun st => exists gens n, length gens = length prompt /\
                        Sampling.input_ids st = zip_with app prompt gens /\
                        Forall (fun g => length g = n) gens)) in Hl; [exact Hl| |exact Hi].
  clear. intros st s st' Hb Hs (gens & n & Hg & Hids & Hn).
  destruct (loop_body_step _ _ _ Hb Hs) as [(-> & _ & _)|(toks & Ht & -> & _ & _)].
  - exists gens, n. auto.
  - rewrite Hids in Ht |- *. rewrite length_zip_with in Ht.
    exists (zip_with (fun g tok => g ++ [tok]) gens toks), (S n).
    split; [rewrite length_zip_with; lia|].
    split; [apply snoc_rows; lia|].
    apply snoc_lengths. exact Hn.
Qed.

Lemma loop_scores (prompt : list (list Z)) turns st st' :
  rd && os = true ->
  Sampling.loop turns c a lp lw sc pad eos os oa oh rd st = Some (Ok st') ->
  (exists gens l,
     length gens = length prompt /\
     Sampling.input_ids st = zip_with app prompt gens /\
     Sampling.scores st = Some l /\
     Forall (fun g => length g = length l) gens) ->
  exists gens l,
    length gens = length prompt /\
    Sampling.input_ids st' = zip_with app prompt gens /\
    Sampling.scores st' = Some l /\
    Forall (fun g => length g = length l) gens.
Proof.
  intros Hrd Hl Hi.
  apply (loop_invariant
           (fun st => exists gens l, length gens = length prompt /\
                        Sampling.input_ids st = zip_with app prompt gens /\
                        Sampling.scores st = Some l /\
                        Forall (fun g => length g = length l) gens)) in Hl;
    [exact Hl| |exact Hi].
  clear - Hrd. intros st s st' Hb Hs (gens & l & Hg & Hids & Hsc & Hn).
  destruct (loop_body_step _ _ _ Hb Hs) as [(-> & _ & ->)|(toks & Ht & -> & _ & Hs')].
  - exists gens, l. auto.
  - rewrite Hrd in Hs'. destruct Hs' as (l' & x & Hl' & ->).
    rewrite Hsc in Hl'. injection Hl' as <-.
    rewrite Hids in Ht |- *. rewrite length_zip_with in Ht.
    exists (zip_with (fun g tok => g ++ [tok]) gens toks), (l ++ [x]).
    split; [rewrite length_zip_with; lia|].
    split; [apply snoc_rows; lia|]. split; [reflexivity|].
    rewrite length_app. simpl. replace (length l + 1)%nat with (S (length l)) by lia.
    apply snoc_lengths. exact Hn.
Qed.

Lemma loop_padding (prompt : list (list Z)) (es : list Z) (p : Z) turns st st' :
  eos = Some es -> pad = Some p ->
  Sampling.loop turns c a lp lw sc pad eos os oa oh rd st = Some (Ok st') ->
  (exists gens,
     length gens = length prompt /\
     Sampling.input_ids st = zip_with app prompt gens /\
     Forall2 (Sampling.row_state es p) (Sampling.unfinished_sequences st) gens) ->
  exists gens,
    length gens = length prompt /\
    Sampling.input_ids st' = zip_with app prompt gens /\
    Forall2 (Sampling.row_state es p) (Sampling.unfinished_sequences st') gens.
Proof.
  intros He Hp Hl Hi.
  apply (loop_invariant
           (fun st => exists gens, length gens = length prompt /\
                        Sampling.input_ids st = zip_with app prompt gens /\
                        Forall2 (Sampling.row_state es p)
                          (Sampling.unfinished_sequences st) gens)) in Hl;
    [exact Hl| |exact Hi].
  clear - He Hp. intros st s st' Hb Hs (gens & Hg & Hids & Hrows).
  destruct (loop_body_step _ _ _ Hb Hs) as [(-> & -> & _)|(toks & Ht & -> & Hu & _)].
  - exists gens. auto.
  - rewrite He in Hu. destruct Hu as (p' & raw & Hp' & Hraw & -> & ->).
    rewrite Hp in Hp'. injection Hp' as <-.
    rewrite Hids in Ht |- *. rewrite !length_zip_with in Ht.
    exists (zip_with (fun g tok => g ++ [tok]) gens
              (zip_with (fun tok u => tok * u + p * (1 - u)) raw
                 (Sampling.unfinished_sequences st))).
    split; [rewrite !length_zip_with; lia|].
    split; [apply snoc_rows; rewrite ?length_zip_with; lia|].
    apply rows_state_step; assumption.
Qed.

(** A turn started while this peer is still generating appends a token
    to every row. *)
Lemma loop_body_appends st s st' :
  Sampling.this_peer_finished st = false ->
  Sampling.loop_body c a lp lw sc pad eos os oa oh rd st = Ok s ->
  s = Sampling.Break st' \/ s = Sampling.Continue st' ->
  exists toks,
    length toks = length (Sampling.input_ids st) /\
    Sampling.input_ids st'
    = zip_with (fun r tok => r ++ [tok]) (Sampling.input_ids st) toks.
Proof.
  intros Hf. unfold Sampling.loop_body. rewrite Hf. rewrite andb_false_r.
  replace (Sampling.synced_gpus a && _) with false
    by (destruct (Sampling.synced_gpus a); reflexivity).
  intros Hb Hs.
  apply bind_ok in Hb as (outputs & Hfw & Hb).
  apply bind_ok in Hb as (lg & Hlg & Hb).
  apply bind_ok in Hb as (s1 & Hs1 & Hb).
  apply bind_ok in Hb as (s2 & Hs2 & Hb).
  apply bind_ok in Hb as (scores' & Hscores & Hb).
  apply bind_ok in Hb as (da & Hda & Hb).
  apply bind_ok in Hb as (ca & Hca & Hb).
  apply bind_ok in Hb as (dh & Hdh & Hb).
  apply bind_ok in Hb as ([raw rng'] & Hmn & Hb).
  apply bind_ok in Hb as (toks & Htoks & Hb).
  apply bind_ok in Hb as (ids' & Hids & Hb).
  apply bind_ok in Hb as (kw' & Hkw & Hb).
  apply bind_ok in Hb as (unf' & Hunf & Hb).
  apply bind_ok in Hb as (stop & Hstop & Hb).
  apply zip_exact_ok in Hids as [Hlen ->].
  exists toks. split; [lia|].
  destruct stop; [destruct (negb (Sampling.synced_gpus a))|];
    injection Hb as <-; destruct Hs as [[= <-]|[= <-]]; reflexivity.
Qed.

Lemma loop_rows_grow (prompt : list (list Z)) (m : nat) turns st st' :
  Sampling.loop turns c a lp lw sc pad eos os oa oh rd st = Some (Ok st') ->
  (exists gens,
     length gens = length prompt /\
     Sampling.input_ids st = zip_with app prompt gens /\
     Forall (fun g => (m <= length g)%nat) gens) ->
  exists gens,
    length gens = length prompt /\
    Sampling.input_ids st' = zip_with app prompt gens /\
    Forall (fun g => (m <= length g)%nat) gens.
Proof.
  intros Hl Hi.
  apply (loop_invariant
           (fun st => exists gens, length gens = length prompt /\
                        Sampling.input_ids st = zip_with app prompt gens /\
                        Forall (fun g => (m <= length g)%nat) gens)) in Hl;
    [exact Hl| |exact Hi].
  clear. intros st s st' Hb Hs (gens & Hg & Hids & Hn).
  destruct (loop_body_step _ _ _ Hb Hs) as [(-> & _ & _)|(toks & Ht & -> & _ & _)].
  - exists gens. auto.
  - rewrite Hids in Ht |- *. rewrite length_zip_with in Ht.
    exists (zip_with (fun g tok => g ++ [tok]) gens toks).
    split; [rewrite length_zip_with; lia|].
    split; [apply snoc_rows; lia|].
    clear - Hn. revert toks. induction Hn as [|g gens Hg Hn IH]; intros [|t toks]; simpl;
      constructor; [rewrite length_app; simpl; lia | apply IH].
Qed.

Lemma bind_never_ok {A B} (m : result A) (k : A -> result B) :
  (forall x, m = Ok x -> exists e, k x = Raise e) -> exists e, m ≫= k = Raise e.
Proof. destruct m as [x|e]; simpl; eauto. Qed.

Lemma is_ok_inv {A} (r : result A) : is_ok r = true -> exists x, r = Ok x.
Proof. destruct r; [eauto | discriminate]. Qed.

(** With end-of-sequence ids and no padding id, a turn started while
    this peer is still generating raises. *)
Lemma loop_body_without_pad (es : list Z) st :
  eos = Some es -> pad = None ->
  Sampling.this_peer_finished st = false ->
  exists e, Sampling.loop_body c a lp lw sc pad eos os oa oh rd st = Raise e.
Proof.
  intros -> -> Hf. unfold Sampling.loop_body. rewrite Hf. rewrite andb_false_r.
  replace (Sampling.synced_gpus a && _) with false
    by (destruct (Sampling.synced_gpus a); reflexivity).
  apply bind_never_ok. intros outputs _.
  apply bind_never_ok. intros lg _.
  apply bind_never_ok. intros s1 _.
  apply bind_never_ok. intros s2 _.
  apply bind_never_ok. intros scores' _.
  apply bind_never_ok. intros da _.
  apply bind_never_ok. intros ca _.
  apply bind_never_ok. intros dh _.
  apply bind_never_ok. intros [raw rng'] _.
  eexists. reflexivity.
Qed.

(** It is [ValueError] when the forward pass, the processors and the
    sampling succeed. *)
Lemma loop_body_without_pad_value_error (es : list Z) st :
  eos = Some es -> pad = None ->
  Sampling.this_peer_finished st = false ->
  Sampling.scores st = (if rd && os then Some [] else None) ->
  Sampling.decoder_attentions st = (if rd && oa then Some [] else None) ->
  Sampling.cross_attentions st = (if rd && oa then Some [] else None) ->
  Sampling.decoder_hidden_states st = (if rd && oh then Some [] else None) ->
  is_ok (Sampling.forward c (Sampling.input_ids st) (Sampling.kwargs st) oa oh) = true ->
  (forall o, is_ok (Sampling.last_logits c o) = true) ->
  (forall p ids s, is_ok (Sampling.apply_processors c p ids s) = true) ->
  (forall g s, is_ok (Sampling.multinomial c g s) = true) ->
  Sampling.loop_body c a lp lw sc pad eos os oa oh rd st = Raise ValueError.
Proof.
  intros -> -> Hf Hsc Hda Hca Hdh Hfw Hll Hap Hmn. unfold Sampling.loop_body.
  rewrite Hf, Hsc, Hda, Hca, Hdh. rewrite andb_false_r.
  replace (Sampling.synced_gpus a && _) with false
    by (destruct (Sampling.synced_gpus a); reflexivity).
  destruct (is_ok_inv _ Hfw) as [outputs ->]. simpl.
  destruct (is_ok_inv _ (Hll outputs)) as [lg ->]. simpl.
  destruct (is_ok_inv _ (Hap lp (Sampling.input_ids st) lg)) as [s1 ->]. simpl.
  destruct (is_ok_inv _ (Hap lw (Sampling.input_ids st) s1)) as [s2 ->]. simpl.
  destruct (is_ok_inv _ (Hmn (Sampling.rng st) s2)) as [[raw rng'] Hraw].
  destruct (rd && os), (rd && oa), (rd && oh), (Sampling.is_encoder_decoder c);
    simpl; rewrite Hraw; reflexivity.
Qed.

End SampleProperties.

Section SampleMain.
Context {Out K Sc T G LP SC : Type}.
Implicit Types (c : Sampling.collaborators Out K Sc T G LP SC)
  (a : Sampling.arguments K G LP SC).

Lemma sample_loop turns c prompt a out warned :
  Sampling.sample turns c prompt a = Some (Ok (out, warned)) ->
  exists lp lw sc oa oh st0 st,
    let os := Sampling.or_default (Sampling.output_scores a) (Sampling.gc_output_scores c) in
    let rd := Sampling.or_default (Sampling.return_dict_in_generate a)
                (Sampling.gc_return_dict_in_generate c) in
    Sampling.loop turns c a lp lw sc (Sampling.pad_of c a) (Sampling.eos_of c a)
      os oa oh rd st0 = Some (Ok st) /\
    Sampling.input_ids st0 = prompt /\
    Sampling.unfinished_sequences st0 = repeat 1 (length prompt) /\
    Sampling.this_peer_finished st0 = false /\
    Sampling.scores st0 = (if rd && os then Some [] else None) /\
    Sampling.sequences_of out = Sampling.input_ids st /\
    (rd = true -> Sampling.scores_of out = Sampling.scores st).
Proof.
  unfold Sampling.sample. intros Hs.
  destruct (Sampling.max_length a) as [m|];
    (destruct (if _ && Sampling.is_encoder_decoder c then _ else _) as [[ea eh]|e];
     [|discriminate]);
    match type of Hs with
    | match ?l with _ => _ end = _ => destruct l as [[st|e]|] eqn:Hl; try discriminate
    end;
    injection Hs as <- <-;
    do 7 eexists; cbv zeta;
    (split; [exact Hl|]); (split; [reflexivity|]); (split; [reflexivity|]);
    (split; [reflexivity|]); (split; [reflexivity|]);
    destruct (Sampling.or_default (Sampling.return_dict_in_generate a) _);
    [destruct (Sampling.is_encoder_decoder c)| | destruct (Sampling.is_encoder_decoder c)|];
    (split; [reflexivity|]); first [reflexivity | discriminate].
Qed.

(** X5. Whatever [sample] returns, every row of the sequences is the
    row of the prompt followed by generated tokens, there are as many rows
    as in the prompt, and all rows got the same number of tokens. *)
Theorem sample_rows_extend_the_prompt turns c prompt a out warned :
  Sampling.sample turns c prompt a = Some (Ok (out, warned)) ->
  exists (gens : list (list Z)) (n : nat),
    length gens = length prompt /\
    Sampling.sequences_of out = zip_with app prompt gens /\
    Forall (fun g => length g = n) gens.
Proof.
  intros Hs.
  apply sample_loop in Hs as (lp & lw & sc & oa & oh & st0 & st & Hl & H0 & _ & _ & _ & -> & _).
  eapply loop_rows; [exact Hl|].
  exists (repeat [] (length prompt)), 0%nat.
  split; [apply repeat_length|]. split; [rewrite H0; apply empty_rows|].
  apply List.Forall_forall. intros g Hg. apply repeat_spec in Hg. subst g. reflexivity.
Qed.

(** X6. With end-of-sequence ids [es] and padding id [p] in force, in
    the generated part of every returned row whatever follows an
    end-of-sequence id is padding. *)
Theorem sample_pads_after_end_of_sequence turns c prompt a out warned es p :
  Sampling.eos_of c a = Some es -> Sampling.pad_of c a = Some p ->
  Sampling.sample turns c prompt a = Some (Ok (out, warned)) ->
  exists gens : list (list Z),
    length gens = length prompt /\
    Sampling.sequences_of out = zip_with app prompt gens /\
    Forall (Sampling.padded_after_eos es p) gens.
Proof.
  intros He Hp Hs.
  apply sample_loop in Hs as (lp & lw & sc & oa & oh & st0 & st & Hl & H0 & Hu & _ & _ & -> & _).
  eapply (loop_padding _ _ _ _ _ _ _ _ _ _ _ prompt es p) in Hl; [|exact He|exact Hp|].
  - destruct Hl as (gens & Hg & Hids & Hrows). exists gens. split; [exact Hg|].
    split; [exact Hids|].
    clear - Hrows. induction Hrows as [|u g unf gens Hr _ IH]; constructor; [|exact IH].
    apply Hr.
  - exists (repeat [] (length prompt)).
    split; [apply repeat_length|]. split; [rewrite H0; apply empty_rows|].
    rewrite Hu. clear. induction (length prompt) as [|k IH]; simpl; constructor; [|exact IH].
    split; [right; reflexivity|]. split; [constructor|].
    intros before e after Heq. destruct before; discriminate.
Qed.

(** X23. When a call asks for a dictionary with scores, the scores
    returned are one entry per generated token: as many as every row of
    the sequences got. *)
Theorem sample_scores_one_per_token turns c prompt a out warned :
  Sampling.or_default (Sampling.return_dict_in_generate a)
    (Sampling.gc_return_dict_in_generate c) = true ->
  Sampling.or_default (Sampling.output_scores a) (Sampling.gc_output_scores c) = true ->
  Sampling.sample turns c prompt a = Some (Ok (out, warned)) ->
  exists (gens : list (list Z)) (l : list Sc),
    length gens = length prompt /\
    Sampling.sequences_of out = zip_with app prompt gens /\
    Sampling.scores_of out = Some l /\
    Forall (fun g => length g = length l) gens.
Proof.
  intros Hrd Hos Hs.
  apply sample_loop in Hs as (lp & lw & sc & oa & oh & st0 & st & Hl & H0 & _ & _ & Hsc & -> & Ho).
  cbv zeta in Hl, Hsc, Ho. rewrite (Ho Hrd). rewrite Hrd, Hos in Hsc, Hl.
  eapply (loop_scores _ _ _ _ _ _ _ _ _ _ _ prompt) in Hl; [exact Hl | reflexivity |].
  exists (repeat [] (length prompt)), [].
  split; [apply repeat_length|]. split; [rewrite H0; apply empty_rows|].
  split; [exact Hsc|].
  apply List.Forall_forall. intros g Hg. apply repeat_spec in Hg. subst g. reflexivity.
Qed.

(** X24. A call of [sample] that returns has appended at least one
    token to every row: the stopping criteria are only looked at after a
    token has been added. *)
Theorem sample_appends_at_least_one_token turns c prompt a out warned :
  Sampling.sample turns c prompt a = Some (Ok (out, warned)) ->
  exists gens : list (list Z),
    length gens = length prompt /\
    Sampling.sequences_of out = zip_with app prompt gens /\
    Forall (fun g => (1 <= length g)%nat) gens.
Proof.
  intros Hs.
  apply sample_loop in Hs as (lp & lw & sc & oa & oh & st0 & st & Hl & H0 & _ & Hf & _ & -> & _).
  cbv zeta in Hl. destruct turns as [|turns]; [discriminate|]. simpl in Hl.
  match type of Hl with
  | match ?b with _ => _ end = _ => destruct b as [[st1|st1]|e] eqn:Hb; [| |discriminate]
  end.
  - injection Hl as <-.
    destruct (loop_body_appends _ _ _ _ _ _ _ _ _ _ _ _ _ st1 Hf Hb (or_introl eq_refl))
      as (toks & Ht & ->).
    rewrite H0 in Ht |- *.
    exists (map (fun tok => [tok]) toks). split; [rewrite length_map; exact Ht|].
    split.
    + clear - Ht. revert toks Ht. induction prompt as [|p prompt IH]; intros [|t toks] Ht;
        simpl in *; try discriminate; [reflexivity|]. f_equal. apply IH. lia.
    + apply List.Forall_forall. intros g Hg. apply in_map_iff in Hg as (t & <- & _).
      simpl. lia.
  - destruct (loop_body_appends _ _ _ _ _ _ _ _ _ _ _ _ _ st1 Hf Hb (or_intror eq_refl))
      as (toks & Ht & Hids).
    eapply (loop_rows_grow _ _ _ _ _ _ _ _ _ _ _ prompt 1) in Hl; [exact Hl|].
    rewrite H0 in Ht, Hids.
    exists (map (fun tok => [tok]) toks). split; [rewrite length_map; exact Ht|].
    split.
    + rewrite Hids.
      clear - Ht. revert toks Ht. induction prompt as [|p prompt IH]; intros [|t toks] Ht;
        simpl in *; try discriminate; [reflexivity|]. f_equal. apply IH. lia.
    + apply List.Forall_forall. intros g Hg. apply in_map_iff in Hg as (t & <- & _).
      simpl. lia.
Qed.

(** X7. With an end-of-sequence id but no padding id in force, [sample]
    never returns sequences: the first turn of the loop raises. On a
    decoder-only model it raises [ValueError] there when the forward pass
    on the prompt, the picking of the last logits, the logits processors
    and warpers and the sampling succeed. *)
Theorem sample_needs_pad_with_eos c prompt a es :
  Sampling.eos_of c a = Some es -> Sampling.pad_of c a = None ->
  (forall turns r, Sampling.sample turns c prompt a <> Some (Ok r)) /\
  (forall turns, exists e, Sampling.sample (S turns) c prompt a = Some (Raise e)) /\
  (Sampling.is_encoder_decoder c = false ->
   (forall oa oh, is_ok (Sampling.forward c prompt (Sampling.model_kwargs a) oa oh) = true) ->
   (forall o, is_ok (Sampling.last_logits c o) = true) ->
   (forall p ids s, is_ok (Sampling.apply_processors c p ids s) = true) ->
   (forall g s, is_ok (Sampling.multinomial c g s) = true) ->
   forall turns, Sampling.sample (S turns) c prompt a = Some (Raise ValueError)).
Proof.
  intros He Hp.
  assert (Hfirst : forall turns, exists e,
            Sampling.sample (S turns) c prompt a = Some (Raise e)).
  { intros turns. unfold Sampling.sample.
    destruct (Sampling.max_length a) as [m|];
      (destruct (if _ && Sampling.is_encoder_decoder c then _ else _) as [[ea eh]|e];
       [|eexists; reflexivity]);
      simpl;
      match goal with
      | |- context [Sampling.loop_body c a ?lp ?lw ?sc ?pad ?eos ?os ?oa ?oh ?rd ?st] =>
          destruct (loop_body_without_pad c a lp lw sc pad eos os oa oh rd es st
                      He Hp eq_refl) as [e Hb]
      end;
      rewrite Hb; eexists; reflexivity. }
  split; [|split].
  - intros [|turns] r Hs.
    + unfold Sampling.sample in Hs.
      destruct (Sampling.max_length a) as [m|];
        (destruct (if _ && Sampling.is_encoder_decoder c then _ else _) as [[ea eh]|e];
         [|discriminate]);
        simpl in Hs; discriminate.
    + destruct (Hfirst turns) as [e He']. congruence.
  - exact Hfirst.
  - intros Hdec Hfw Hll Hap Hmn turns. unfold Sampling.sample. rewrite Hdec.
    rewrite andb_false_r.
    destruct (Sampling.max_length a) as [m|]; simpl;
      match goal with
      | |- context [Sampling.loop_body c a ?lp ?lw ?sc ?pad ?eos ?os ?oa ?oh ?rd ?st] =>
          rewrite (loop_body_without_pad_value_error c a lp lw sc pad eos os oa oh rd es st
                     He Hp eq_refl eq_refl eq_refl eq_refl eq_refl (Hfw oa oh) Hll Hap Hmn)
      end;
      reflexivity.
Qed.

End SampleMain.

Lemma sample_rows_extend_the_prompt_witness :
  exists gens n,
    length gens = 2%nat /\
    [[5; 1; 2; 3; 0]; [7; 2; 3; 0; 0]] = zip_with app [[5; 1]; [7; 2]] gens /\
    Forall (fun g : list Z => length g = n) gens.
Proof.
  apply (sample_rows_extend_the_prompt 10 (toy_sampler (Some 0)) [[5; 1]; [7; 2]]
           (toy_arguments None None) (Sampling.Sequences [[5; 1; 2; 3; 0]; [7; 2; 3; 0; 0]]) 0%nat).
  reflexivity.
Defined.

Lemma sample_pads_after_end_of_sequence_witness :
  exists gens,
    length gens = 2%nat /\
    [[5; 1; 2; 3; 0]; [7; 2; 3; 0; 0]] = zip_with app [[5; 1]; [7; 2]] gens /\
    Forall (Sampling.padded_after_eos [3] 0) gens.
Proof.
  apply (sample_pads_after_end_of_sequence 10 (toy_sampler (Some 0)) [[5; 1]; [7; 2]]
           (toy_arguments None None) (Sampling.Sequences [[5; 1; 2; 3; 0]; [7; 2; 3; 0; 0]]) 0%nat [3] 0);
    reflexivity.
Defined.

Lemma sample_needs_pad_with_eos_witness :
  Sampling.sample 10 (toy_sampler None) [[5; 1]; [7; 2]] (toy_arguments None None)
  = Some (Raise ValueError).
Proof.
  apply (sample_needs_pad_with_eos (toy_sampler None) [[5; 1]; [7; 2]]
           (toy_arguments None None) [3]);
    reflexivity.
Defined.

Lemma sample_scores_one_per_token_witness :
  exists (gens : list (list Z)) (l : list (list Z)),
    length gens = 2%nat /\
    [[5; 1; 2; 3; 0]; [7; 2; 3; 0; 0]] = zip_with app [[5; 1]; [7; 2]] gens /\
    Some [[2; 3]; [3; 4]; [4; 1]] = Some l /\
    Forall (fun g => length g = length l) gens.
Proof.
  apply (sample_scores_one_per_token 10 (toy_sampler (Some 0)) [[5; 1]; [7; 2]]
           (toy_arguments (Some true) (Some true))
           (Sampling.SampleDecoderOnlyOutput [[5; 1; 2; 3; 0]; [7; 2; 3; 0; 0]]
              (Some [[2; 3]; [3; 4]; [4; 1]]) None None) 0%nat);
    reflexivity.
Defined.

Lemma sample_appends_at_least_one_token_witness :
  exists gens : list (list Z),
    length gens = 2%nat /\
    [[5; 1; 2; 3; 0; 0; 1]; [7; 2; 3; 0; 0; 0; 1]]
    = zip_with app [[5; 1; 2; 3; 0; 0]; [7; 2; 3; 0; 0; 0]] gens /\
    Forall (fun g => (1 <= length g)%nat) gens.
Proof.
  apply (sample_appends_at_least_one_token 10 (toy_sampler (Some 0))
           [[5; 1; 2; 3; 0; 0]; [7; 2; 3; 0; 0; 0]] (toy_arguments None None)
           (Sampling.Sequences [[5; 1; 2; 3; 0; 0; 1]; [7; 2; 3; 0; 0; 0; 1]]) 0%nat).
  reflexivity.
Defined.

(** ** [CustomPPOTrainer.generate] and [generate_eval] *)

(** X8. [generate] and [generate_eval] hand [super().generate] the
    caller's keyword arguments with [forced_eos_token_id] set to the
    end-of-sequence id of the tokenizer: a value the caller gave for it is
    overwritten, every other argument is passed on unchanged, and the two
    methods do the same. *)
Theorem generate_forces_tokenizer_eos {A}
    (super_generate : list (list Z) -> list kwarg -> gmap string kwarg -> result A)
    (tk : tokenizer) (input_ids : list (list Z)) (args : list kwarg)
    (kwargs : gmap string kwarg) :
  exists passed,
    trainer_generate super_generate tk input_ids args kwargs
    = super_generate input_ids args passed /\
    trainer_generate_eval super_generate tk input_ids args kwargs
    = super_generate input_ids args passed /\
    passed !! "forced_eos_token_id"%string = Some (IntArg (eos_token_id tk)) /\
    (forall k, k <> "forced_eos_token_id"%string -> passed !! k = kwargs !! k) /\
    (forall v, trainer_generate super_generate tk input_ids args
                 (<["forced_eos_token_id"%string := v]> kwargs)
               = super_generate input_ids args passed).
Proof.
  exists (<["forced_eos_token_id"%string := IntArg (eos_token_id tk)]> kwargs).
  split; [reflexivity|]. split; [reflexivity|].
  split; [apply lookup_insert_eq|].
  split.
  - intros k Hk. apply lookup_insert_ne. congruence.
  - intros v. unfold trainer_generate. cbv zeta. rewrite insert_insert_eq. reflexivity.
Qed.

(** ** [CustomPromptPipeline] *)

Lemma warn_truncated_cases (eos : Z) (ids : list (list Z)) :
  (Pipeline.warn_truncated eos ids = 0%nat /\ Forall (fun row => In eos row) ids) \/
  (Pipeline.warn_truncated eos ids = 1%nat /\ Exists (fun row => ~ In eos row) ids).
Proof.
  induction ids as [|row ids IH]; simpl.
  - left. split; [reflexivity | constructor].
  - destruct (existsb (Z.eqb eos) row) eqn:E; simpl.
    + apply existsb_exists in E as (x & Hx & Hxe). apply Z.eqb_eq in Hxe. subst x.
      destruct IH as [[-> Hall]|[-> Hex]].
      * left. split; [reflexivity | constructor; assumption].
      * right. split; [reflexivity | apply Exists_cons_tl; exact Hex].
    + right. split; [reflexivity|]. apply Exists_cons_hd. intros Hin.
      assert (existsb (Z.eqb eos) row = true) as E'
        by (apply existsb_exists; exists eos; split; [exact Hin | apply Z.eqb_refl]).
      congruence.
Qed.

(** X9. A pipeline is only built for [max_prompt_length] of 16 or more
    (a smaller one raises [ValueError] before the tokenizer is called);
    it holds the token ids and masks the tokenizer returned, pairwise, and
    it warns once when some prompt lacks the end-of-sequence id, and not at
    all otherwise. *)
Theorem pipeline_init_checks
    (tokenize : list string -> Z -> result (list (list Z) * list (list Z)))
    (tokenizer_true : bool) (eos : Z) (prompts : list string) (max_prompt_length : Z) :
  (max_prompt_length < 16 ->
   Pipeline.init tokenize tokenizer_true eos prompts max_prompt_length = Raise ValueError) /\
  (forall p warned,
     Pipeline.init tokenize tokenizer_true eos prompts max_prompt_length = Ok (p, warned) ->
     16 <= max_prompt_length /\
     exists ids masks,
       tokenize prompts max_prompt_length = Ok (ids, masks) /\
       Pipeline.prompts p = zip ids masks /\
       ((warned = 0%nat /\ Forall (fun row => In eos row) ids) \/
        (warned = 1%nat /\ Exists (fun row => ~ In eos row) ids))).
Proof.
  unfold Pipeline.init. split.
  - intros Hm. apply Z.ltb_lt in Hm. rewrite Hm. reflexivity.
  - intros p warned Hi. destruct (max_prompt_length <? 16) eqn:E; [discriminate|].
    apply Z.ltb_ge in E. split; [exact E|].
    bind_inv Hi. destruct a as [ids masks]. injection Hi as <- <-.
    exists ids, masks. split; [exact Ha|]. split; [reflexivity|].
    apply warn_truncated_cases.
Qed.

Lemma item_nonneg {A} (l : list A) (i : nat) :
  Py.item l (Z.of_nat i) = at_index l i.
Proof.
  unfold Py.item, at_index. cbv zeta.
  destruct (Z.of_nat i <? 0) eqn:E; [apply Z.ltb_lt in E; lia|].
  rewrite E, Nat2Z.id. reflexivity.
Qed.

(** X10. Indexing a pipeline of [n] prompts: an index [0 <= i < n]
    gives the [i]-th prompt, [i - n] gives the same prompt counted from the
    end, and an index from [n] on or below [-n] raises [IndexError]. *)
Theorem pipeline_getitem_bounds (p : Pipeline.t) (ix : Z) :
  let n := Z.of_nat (Pipeline.len p) in
  (0 <= ix < n ->
   exists x, Pipeline.prompts p !! Z.to_nat ix = Some x /\
             Pipeline.getitem p ix = Ok x /\ Pipeline.getitem p (ix - n) = Ok x) /\
  (n <= ix \/ ix < - n -> Pipeline.getitem p ix = Raise IndexError).
Proof.
  unfold Pipeline.len, Pipeline.getitem. cbv zeta. split.
  - intros Hix.
    destruct (lookup_lt_is_Some_2 (Pipeline.prompts p) (Z.to_nat ix)) as [x Hx]; [lia|].
    exists x. split; [exact Hx|]. unfold Py.item. cbv zeta.
    assert (E1 : (ix <? 0) = false) by (apply Z.ltb_ge; lia).
    assert (E2 : (ix - Z.of_nat (length (Pipeline.prompts p)) <? 0) = true)
      by (apply Z.ltb_lt; lia).
    rewrite E1, E2.
    replace (ix - Z.of_nat (length (Pipeline.prompts p))
             + Z.of_nat (length (Pipeline.prompts p))) with ix by lia.
    rewrite E1, Hx. auto.
  - intros Hout. unfold Py.item. cbv zeta.
    destruct Hout as [Hge|Hlt].
    + assert (E1 : (ix <? 0) = false) by (apply Z.ltb_ge; lia).
      rewrite E1, E1.
      rewrite (lookup_ge_None_2 (Pipeline.prompts p) (Z.to_nat ix)) by lia. reflexivity.
    + assert (E1 : (ix <? 0) = true) by (apply Z.ltb_lt; lia).
      assert (E2 : (ix + Z.of_nat (length (Pipeline.prompts p)) <? 0) = true)
        by (apply Z.ltb_lt; lia).
      rewrite E1, E2. reflexivity.
Qed.

Lemma pipeline_init_checks_witness :
  Pipeline.init toy_tokenize true 2 ["short"%string] 8 = Raise ValueError /\
  exists p,
    Pipeline.init toy_tokenize true 2
      ["Hi there, how are you?</s>"; "Tell me a story about a dragon"]%string 20
    = Ok (p, 1%nat) /\ length (Pipeline.prompts p) = 2%nat.
Proof.
  split.
  - apply (pipeline_init_checks toy_tokenize true 2 ["short"%string] 8). lia.
  - eexists. split; [reflexivity|].
    destruct (proj2 (pipeline_init_checks toy_tokenize true 2
                ["Hi there, how are you?</s>"; "Tell me a story about a dragon"]%string 20)
                _ _ eq_refl) as (_ & ids & masks & Ht & Hp & _).
    rewrite Hp. injection Ht as <- <-. reflexivity.
Defined.

Lemma pipeline_getitem_bounds_witness :
  Pipeline.getitem {| Pipeline.has_tokenizer := true;
                      Pipeline.prompts := [([5; 2], [1; 1]); ([7; 2], [1; 1])] |} 2
  = Raise IndexError.
Proof.
  apply (pipeline_getitem_bounds
           {| Pipeline.has_tokenizer := true;
              Pipeline.prompts := [([5; 2], [1; 1]); ([7; 2], [1; 1])] |} 2).
  left. vm_compute. discriminate.
Defined.

(** ** [CustomCausalLMHydraWithValueHead.from_pretrained] *)

Section LoaderProperties.
Context {Model W : Type}.
Variable c : Loader.collaborators Model W.

Lemma files_to_download_fold (items : list (string * string)) (f : string) :
  forall acc : gset string,
    f ∈ fold_left
          (fun files kv =>
             if existsb (Loader.contains (fst kv)) (Loader.supported_modules c)
             then files ∪ {[snd kv]} else files)
          items acc
    <-> f ∈ acc \/
        exists k, In (k, f) items /\
                  existsb (Loader.contains k) (Loader.supported_modules c) = true.
Proof.
  induction items as [|[k v] items IH]; intros acc; simpl.
  - split; [auto | intros [Hf|(k & [] & _)]; exact Hf].
  - rewrite IH. destruct (existsb (Loader.contains k) (Loader.supported_modules c)) eqn:E.
    + rewrite elem_of_union, elem_of_singleton. split.
      * intros [[Hf| ->]|(k' & Hin & Hk')]; eauto 6.
      * intros [Hf|(k' & [[= -> ->]|Hin] & Hk')]; eauto 6.
    + split.
      * intros [Hf|(k' & Hin & Hk')]; eauto 6.
      * intros [Hf|(k' & [[= -> ->]|Hin] & Hk')]; [auto | congruence | eauto 6].
Qed.

Lemma files_to_download_spec (items : list (string * string)) (f : string) :
  f ∈ Loader.files_to_download c items
  <-> exists k, In (k, f) items /\
                existsb (Loader.contains k) (Loader.supported_modules c) = true.
Proof.
  unfold Loader.files_to_download. rewrite files_to_download_fold.
  split; [intros [Hf|Hk]; [set_solver | exact Hk] | auto].
Qed.

Lemma load_shards_requests (name : string) (shards : list string) :
  forall asked sd r,
    In r (fst (Loader.load_shards c name shards asked sd)) ->
    In r asked \/
    exists f, r = (name, f) /\ In f shards /\
              Loader.path_exists c (Loader.path_join c name f) = false.
Proof.
  induction shards as [|f shards IH]; intros asked sd r; simpl; [auto|].
  destruct (negb (Loader.path_exists c (Loader.path_join c name f))) eqn:E.
  - apply negb_true_iff in E.
    assert (Hnew : forall r, In r (asked ++ [(name, f)]) ->
              In r asked \/
              exists f', r = (name, f') /\ (f = f' \/ In f' shards) /\
                         Loader.path_exists c (Loader.path_join c name f') = false).
    { intros r' Hr. apply in_app_or in Hr as [Hr|[<-|[]]]; [auto|]. right. eauto. }
    destruct (Loader.hf_hub_download c name f) as [file|e]; simpl; [|apply Hnew].
    destruct (Loader.torch_load c file) as [shard|e]; simpl; [|apply Hnew].
    intros Hr. apply IH in Hr as [Hr|(f' & -> & Hin & Hp)]; [apply Hnew; exact Hr|].
    right. eauto 6.
  - destruct (Loader.torch_load c _) as [shard|e]; simpl; [|auto].
    intros Hr. apply IH in Hr as [Hr|(f' & -> & Hin & Hp)]; [auto|]. right. eauto 6.
Qed.

(** X11. When [pytorch_model.bin] exists under the model path, or the
    model is given as an object, [from_pretrained] asks the hub for
    nothing; in the first case the state dict is that file. *)
Theorem local_checkpoint_asks_no_hub (name : string) (own : gmap string W) :
  (Loader.path_exists c (Loader.path_join c name "pytorch_model.bin") = true ->
   fst (Loader.from_pretrained c (inl name)) = [] /\
   Loader.load_state_dict c (inl name)
   = ([], lift (Loader.torch_load c (Loader.path_join c name "pytorch_model.bin")))) /\
  fst (Loader.from_pretrained c (inr own)) = [].
Proof.
  unfold Loader.from_pretrained, Loader.load_state_dict. split.
  - intros He. cbv zeta. rewrite He. destruct (Loader.build c); auto.
  - destruct (Loader.build c); reflexivity.
Qed.

(** X12. Every file [from_pretrained] asks the hub for is asked of the
    model's repository, and is [pytorch_model.bin], the shard index, or a
    shard that is missing on disk and that the index names for a weight of
    a supported module. *)
Theorem hub_requests_are_needed_files (name : string) (repo file : string) :
  (forall s f, In f (Loader.set_order c s) -> f ∈ s) ->
  In (repo, file) (fst (Loader.from_pretrained c (inl name))) ->
  repo = name /\
  (file = "pytorch_model.bin"%string \/
   file = "pytorch_model.bin.index.json"%string \/
   (Loader.path_exists c (Loader.path_join c name file) = false /\
    exists index items key,
      Loader.weight_map_items c index = Return items /\
      In (key, file) items /\
      existsb (Loader.contains key) (Loader.supported_modules c) = true)).
Proof.
  intros Hset. unfold Loader.from_pretrained.
  destruct (Loader.build c) as [model|e]; [|intros []].
  destruct (Loader.load_state_dict c (inl name)) as [asked sd] eqn:Hl. simpl.
  intros Hin.
  assert (Hin' : In (repo, file) (fst (Loader.load_state_dict c (inl name))))
    by (rewrite Hl; exact Hin).
  clear Hl Hin. revert Hin'. unfold Loader.load_state_dict. cbv zeta.
  destruct (Loader.path_exists c (Loader.path_join c name "pytorch_model.bin"));
    [intros []|].
  destruct (Loader.hf_hub_download c name "pytorch_model.bin") as [file0|e0].
  { simpl. intros [[= <- <-]|[]]. auto. }
  assert (Hbase : forall l,
            (l = [(name, "pytorch_model.bin"%string)] \/
             l = [(name, "pytorch_model.bin"%string)]
                 ++ [(name, "pytorch_model.bin.index.json"%string)]) ->
            In (repo, file) l ->
            repo = name /\
            (file = "pytorch_model.bin"%string \/
             file = "pytorch_model.bin.index.json"%string)).
  { intros l [-> | ->]; simpl; intros Hin.
    - destruct Hin as [[= <- <-]|[]]; auto.
    - destruct Hin as [[= <- <-]|[[= <- <-]|[]]]; auto. }
  set (ask := if Loader.path_exists c (Loader.path_join c name "pytorch_model.bin.index.json")
              then _ else _).
  assert (Hask : fst ask = [(name, "pytorch_model.bin"%string)] \/
                 fst ask = [(name, "pytorch_model.bin"%string)]
                           ++ [(name, "pytorch_model.bin.index.json"%string)]).
  { subst ask. destruct (Loader.path_exists c _); simpl; auto. }
  destruct ask as [asked' [index|e]]; simpl in Hask.
  2:{ simpl. intros Hin. destruct (Hbase _ Hask Hin) as [-> Hf]. tauto. }
  destruct (Loader.weight_map_items c index) as [items|e] eqn:Hitems.
  2:{ simpl. intros Hin. destruct (Hbase _ Hask Hin) as [-> Hf]. tauto. }
  intros Hin. apply load_shards_requests in Hin as [Hin|(f & [= -> ->] & Hf & Hp)].
  - destruct (Hbase _ Hask Hin) as [-> Hf]. tauto.
  - split; [reflexivity|]. right. right. split; [exact Hp|].
    apply Hset, files_to_download_spec in Hf as (key & Hk & Hs).
    exists index, items, key. auto.
Qed.

End LoaderProperties.

Lemma toy_set_order (s : gset string) (f : string) :
  In f (Loader.set_order toy_checkpoint s) -> f ∈ s.
Proof. simpl. intros Hf. apply elem_of_elements, list_elem_of_In. exact Hf. Qed.

Lemma local_checkpoint_asks_no_hub_witness :
  fst (Loader.from_pretrained toy_checkpoint (inl "local"%string)) = [].
Proof.
  apply (proj1 (local_checkpoint_asks_no_hub toy_checkpoint "local" ∅)). reflexivity.
Defined.

Lemma hub_requests_are_needed_files_witness :
  In ("repo", "shard-2.bin")%string
     (fst (Loader.from_pretrained toy_checkpoint (inl "repo"%string))) /\
  Loader.path_exists toy_checkpoint
    (Loader.path_join toy_checkpoint "repo" "shard-2.bin") = false.
Proof.
  assert (Hin : In ("repo", "shard-2.bin")%string
                  (fst (Loader.from_pretrained toy_checkpoint (inl "repo"%string)))).
  { vm_compute. tauto. }
  split; [exact Hin|].
  destruct (hub_requests_are_needed_files toy_checkpoint "repo" "repo" "shard-2.bin"
              toy_set_order Hin) as (_ & [Hf|[Hf|[Hp _]]]);
    [discriminate Hf | discriminate Hf | exact Hp].
Defined.

(** * Further properties of the rollout code *)

(** ** [decode] *)

Lemma decode_one_concat {F} tk (cfg : settings F) b prompt sample size s p o :
  decode_one tk cfg b prompt sample size = Ok (s, p, o) -> s = p +:+ o.
Proof.
  unfold decode_one. destruct (is_seq2seq cfg); [discriminate|]. cbv zeta.
  destruct (trim_stops _ _) as [out trimmed]. intros Hd. bind_inv Hd.
  injection Hd as <- <- <-. reflexivity.
Qed.

Lemma decode_loop_concat {F} tk (cfg : settings F) b items :
  forall ss ps os,
    decode_loop tk cfg b items = Ok (ss, ps, os) ->
    forall i s p o, ss !! i = Some s -> ps !! i = Some p -> os !! i = Some o ->
      s = p +:+ o.
Proof.
  induction items as [|[[prompt sample] size] items IH]; intros ss ps os Hd; simpl in Hd.
  - injection Hd as <- <- <-. intros i s p o Hs. rewrite lookup_nil in Hs. discriminate.
  - bind_inv Hd. destruct a as [[s0 p0] o0]. bind_inv Hd. destruct a as [[ss' ps'] os'].
    injection Hd as <- <- <-. intros [|i] s p o Hs Hp Ho; simpl in *.
    + injection Hs as <-. injection Hp as <-. injection Ho as <-.
      eapply decode_one_concat; eauto.
    + eapply IH; eauto.
Qed.

Lemma zip3_length_min {A B C} (xs : list A) (ys : list B) (zs : list C) :
  length (Py.zip3 xs ys zs)
  = Nat.min (length xs) (Nat.min (length ys) (length zs)).
Proof.
  revert ys zs. induction xs as [|x xs IH]; intros [|y ys] [|z zs]; simpl; try reflexivity.
  rewrite IH. reflexivity.
Qed.

(** X13. [decode] returns three lists of one length, that of the
    shortest of its inputs (surplus prompts or samples are dropped), and
    every decoded sample is its prompt followed by its output. *)
Theorem decode_lists_are_aligned {F} tk (cfg : settings F) prompts samples sizes b ss ps os :
  decode tk cfg prompts samples sizes b = Ok (ss, ps, os) ->
  let n := Nat.min (length prompts)
             (Nat.min (length samples)
                (match sizes with Some l => length l | None => length prompts end)) in
  length ss = n /\ length ps = n /\ length os = n /\
  forall i s p o, ss !! i = Some s -> ps !! i = Some p -> os !! i = Some o ->
    s = p +:+ o.
Proof.
  unfold decode. destruct (negb b); [discriminate|]. cbv zeta. intros Hd.
  pose proof (decode_loop_lengths _ _ _ _ _ _ _ Hd) as (H1 & H2 & H3).
  rewrite zip3_length_min in H1, H2, H3.
  assert (Hn : length (match sizes with
                       | Some l => l
                       | None => repeat (Py.shape1 prompts) (length prompts)
                       end)
               = match sizes with Some l => length l | None => length prompts end).
  { destruct sizes; [reflexivity | apply repeat_length]. }
  rewrite Hn in H1, H2, H3.
  split; [exact H1|]. split; [exact H2|]. split; [exact H3|].
  eapply decode_loop_concat; eauto.
Qed.

(** X14. Trimming at the stop sequences: the output is reported as
    trimmed exactly when some stop sequence occurs in it; it is then the
    text cut at the first occurrence of one of them, with trailing white
    space removed, and it is unchanged otherwise. *)
Theorem stop_sequences_cut_the_output (stops : list string) (text out : string)
    (trimmed : bool) :
  trim_stops stops text = (out, trimmed) ->
  (trimmed = true <-> exists stop, In stop stops /\ Py.find text stop <> None) /\
  (trimmed = true -> cut_at text stops out) /\
  (trimmed = false -> out = text).
Proof.
  intros Ht. destruct (trim_stops_spec _ _ _ _ Ht) as [Hcut Hsame].
  split; [|split].
  - split.
    + intros Htr. destruct (Hcut Htr) as (stop & ix & Hin & Hf & _).
      exists stop. split; [exact Hin | congruence].
    + intros (stop & Hin & Hf). destruct trimmed; [reflexivity|].
      destruct (Hsame eq_refl) as [_ Hno]. specialize (Hno _ Hin). contradiction.
  - exact Hcut.
  - intros Htr. apply Hsame. exact Htr.
Qed.

(** ** [ref_model] *)

Lemma chunk_index_in_batch (n i : nat) : (i < num_chunks n)%nat -> (i * mbs < n)%nat.
Proof.
  unfold num_chunks, mbs. intros Hi.
  assert (Hd : (S i <= (n + (8 - 1)) / 8)%nat) by lia.
  assert (Hm : (8 * S i <= n + (8 - 1))%nat).
  { etransitivity; [apply Nat.mul_le_mono_l; exact Hd|].
    apply Nat.Div0.mul_div_le. }
  lia.
Qed.

Lemma num_chunks_tight (n : nat) : (num_chunks n * mbs < n + mbs)%nat.
Proof.
  unfold num_chunks, mbs.
  pose proof (Nat.Div0.mul_div_le (n + (8 - 1)) 8). lia.
Qed.

(** X15. While the server answers, [ref_model] sends the batch in
    [ceil(B / 8)] requests, in order; request [i] holds rows [8 i] to
    [8 i + 7] of the token ids and of the masks as 32-bit integers, at
    least one row and at most 8, and the requests together hold every row
    once. *)
Theorem ref_model_requests_cover_the_batch {Lg} (client : triton_client Lg)
    (url model : string) (toks masks : list (list Z)) :
  (forall i, is_ok (client url (chunk_request model toks masks i)) = true) ->
  let sent := fst (ref_model_traced client url model toks masks) in
  let count := num_chunks (length toks) in
  length sent = count /\
  (length toks <= count * 8 < length toks + 8)%nat /\
  (forall i req, sent !! i = Some req ->
     req_model req = model /\
     req_inputs req
     = [("input_ids"%string, map (map astype_int32) (take 8 (drop (i * 8) toks)));
        ("attention_mask"%string, map (map astype_int32) (take 8 (drop (i * 8) masks)))] /\
     (1 <= length (take 8 (drop (i * 8) toks)) <= 8)%nat) /\
  concat (map (fun i => take 8 (drop (i * 8) toks)) (seq 0 count)) = toks.
Proof.
  intros Hok sent count. subst sent. unfold ref_model_traced.
  rewrite (ref_model_loop_all_ok client url model toks masks) by (intros; apply Hok).
  simpl. fold count.
  split; [rewrite length_map, length_seq; reflexivity|].
  split; [split; [apply (num_chunks_cover (length toks)) | apply (num_chunks_tight (length toks))]|].
  split.
  - intros i req Hreq. rewrite map_fmap, list_lookup_fmap in Hreq.
    destruct (seq 0 count !! i) as [j|] eqn:Hj; [|discriminate].
    apply lookup_seq in Hj as [-> Hlt]. simpl in Hreq. injection Hreq as <-.
    unfold chunk_request. cbv zeta. simpl.
    replace ((i + 1) * mbs)%nat with (i * mbs + mbs)%nat by lia.
    rewrite !slice_of_nat. unfold prepare_tensor, mbs.
    split; [reflexivity|]. split; [reflexivity|].
    pose proof (chunk_index_in_batch _ _ Hlt) as Hin. unfold mbs in Hin.
    rewrite length_take, length_drop. lia.
  - rewrite (concat_chunks 8 toks count 0). simpl. rewrite drop_0.
    apply take_ge. apply (num_chunks_cover (length toks)).
Qed.

(** ** [triton_server_ref_model] *)

Lemma split_slash_nonempty (s : string) : split_slash s <> [].
Proof.
  destruct s as [|c r]; simpl; [discriminate|].
  destruct (Ascii.eqb c "/"); [discriminate|]. destruct (split_slash r); discriminate.
Qed.

Lemma split_slash_head (s : string) :
  forall u rest,
    split_slash s = u :: rest ->
    slash_free u = true /\
    ((rest = [] /\ s = u) \/
     (exists r, s = u +:+ String "/" r /\ split_slash r = rest)).
Proof.
  induction s as [|c s IH]; intros u rest; simpl.
  - intros [= <- <-]. split; [reflexivity|]. left. auto.
  - destruct (Ascii.eqb c "/") eqn:Ec.
    + apply Ascii.eqb_eq in Ec. subst c. intros [= <- <-].
      split; [reflexivity|]. right. exists s. auto.
    + destruct (split_slash s) as [|w ws] eqn:Hs; [intros [= <- <-]|intros [= <- <-]].
      * exfalso. eapply split_slash_nonempty; eauto.
      * destruct (IH _ _ eq_refl) as [Hw Hc]. split; [simpl; rewrite Ec; exact Hw|].
        destruct Hc as [[-> ->]|(r & -> & Hr)]; [left; auto|].
        right. exists r. auto.
Qed.

(** X16. [triton_server_ref_model] returns the pair (url, model) exactly
    when [TRITON_HOST_REF] is set to [url/model] with no other slash; an
    unset variable fails the assertion, any other value raises
    [ValueError]. *)
Theorem triton_host_is_url_slash_model (environ : gmap string string) :
  (forall u m,
     triton_server_ref_model environ = Ok (u, m) <->
     (environ !! "TRITON_HOST_REF"%string = Some (u +:+ String "/" m) /\
      slash_free u = true /\ slash_free m = true)) /\
  (environ !! "TRITON_HOST_REF"%string = None ->
   triton_server_ref_model environ = Raise AssertionError) /\
  (forall host, environ !! "TRITON_HOST_REF"%string = Some host ->
     (forall u m, host = u +:+ String "/" m -> slash_free u = true -> slash_free m = false) ->
     triton_server_ref_model environ = Raise ValueError).
Proof.
  split; [|split].
  - intros u m. split.
    + unfold triton_server_ref_model.
      destruct (environ !! "TRITON_HOST_REF"%string) as [host|]; [|discriminate].
      destruct (split_slash host) as [|a [|b [|? ?]]] eqn:Hs; try discriminate.
      intros [= <- <-].
      destruct (split_slash_head _ _ _ Hs) as [Ha [[? _]|(r & -> & Hr)]]; [discriminate|].
      destruct (split_slash_head _ _ _ Hr) as [Hb [[_ ->]|(r' & _ & Hr')]].
      * auto.
      * exfalso. eapply split_slash_nonempty; eauto.
    + intros (He & Hu & Hm). apply triton_host_well_formed; assumption.
  - intros He. unfold triton_server_ref_model. rewrite He. reflexivity.
  - intros host He Hno. unfold triton_server_ref_model. rewrite He.
    destruct (split_slash host) as [|a [|b [|? ?]]] eqn:Hs; try reflexivity.
    exfalso.
    destruct (split_slash_head _ _ _ Hs) as [Ha [[? _]|(r & -> & Hr)]]; [discriminate|].
    destruct (split_slash_head _ _ _ Hr) as [Hb [[_ ->]|(r' & _ & Hr')]].
    + specialize (Hno _ _ eq_refl Ha). congruence.
    + eapply split_slash_nonempty; eauto.
Qed.

(** ** [make_experience] *)

(** X17. A call for no rollouts never succeeds: with [num_rollouts] at
    most 0 the loop is skipped, nothing is pushed, and the summary raises,
    [NameError] for the unassigned [exp_time] when a KL estimate of an
    earlier call is there. *)
Theorem make_experience_needs_a_rollout {F Lg RM} `{Scalar F} (w : world F Lg RM)
    (tk : tokenizer) (cfg : settings F) (num_rollouts iter_count : Z) (st : trainer F RM) :
  num_rollouts <= 0 ->
  make_experience w tk cfg num_rollouts iter_count st
  = Some (Raise (match mean_kl st with
                 | Some _ => NameError
                 | None => AttributeError
                 end)).
Proof.
  intros Hn. unfold make_experience.
  assert (Hl : forall fuel v,
            ppo_rl_elements v = [] ->
            rollout_loop fuel w tk cfg num_rollouts v = Some (Ok v)).
  { intros fuel v Hv.
    assert (E : (Z.of_nat (length (ppo_rl_elements v)) <? num_rollouts) = false)
      by (rewrite Hv; apply Z.ltb_ge; simpl; lia).
    destruct fuel; simpl; rewrite E; reflexivity. }
  rewrite Hl by reflexivity. unfold finish_rollouts. simpl.
  destruct (mean_kl st); reflexivity.
Qed.

(** X18. In every element of a turn the log-probabilities, the values
    and the rewards have one length, and it is at least 1. *)
Theorem element_tensors_have_one_length {F Lg RM} `{Scalar F} (w : world F Lg RM)
    (tk : tokenizer) (cfg : settings F) (st : trainer F RM) (t : turn_out F RM) :
  rollout_turn w tk cfg st = Ok t ->
  values_per_token w ->
  forall ix e, elements t !! ix = Some e ->
    length (logprobs e) = length (rewards e) /\
    length (values e) = length (rewards e) /\
    (1 <= length (rewards e))%nat.
Proof.
  intros Ht Hv ix e He.
  destruct (element_slices w tk cfg st t Ht Hv ix e He) as (stop & _ & _ & _ & _ & Hl).
  cbv zeta in Hl. destruct Hl as (Hlp & Hvs & Hrw).
  split; [congruence|]. split; [congruence|].
  destruct (rollout_turn_steps w tk cfg st t Ht).
  apply build_elements_lookup in ts_build as [_ Hb].
  apply Hb, build_element_fields in He as (cut & score & _ & _ & Hadd & _).
  apply add_to_last_inv in Hadd as (before & last & _ & ->).
  rewrite length_app. simpl. lia.
Qed.

(** X19. A call of [make_experience] that returns leaves the KL
    coefficient as it was and logs once, at step [iter_count]: the entry
    holds ["kl_ctl_value"] (the coefficient), ["time/exp"] and
    ["policy/sqrt_kl"]. *)
Theorem make_experience_logs_once {F Lg RM} `{Scalar F} (w : world F Lg RM)
    (tk : tokenizer) (cfg : settings F) (num_rollouts iter_count : Z)
    (st st' : trainer F RM) :
  make_experience w tk cfg num_rollouts iter_count st = Some (Ok st') ->
  kl_ctl_value st' = kl_ctl_value st /\
  exists entry,
    logged st' = logged st ++ [(entry, iter_count)] /\
    entry !! "kl_ctl_value"%string = Some (kl_ctl_value st) /\
    is_Some (entry !! "time/exp"%string) /\
    is_Some (entry !! "policy/sqrt_kl"%string).
Proof.
  intros Hm. apply make_experience_loop in Hm as (v & Hloop & Hfin).
  apply rollout_loop_turns in Hloop as (ts & Hrun & Hself & _). simpl in Hself, Hrun.
  apply run_turns_frame in Hrun as (_ & Hlog & Hkl).
  unfold finish_rollouts in Hfin.
  destruct (mean_kl (self v)) as [kl|]; [|discriminate].
  destruct (negb (exp_time_bound v)); [discriminate|].
  injection Hfin as <-. simpl. rewrite Hself, Hkl, Hlog.
  split; [reflexivity|]. eexists. split; [reflexivity|].
  split; [|split].
  - rewrite lookup_insert_ne by discriminate. apply lookup_insert_eq.
  - rewrite lookup_insert_eq. eauto.
  - rewrite lookup_insert_ne by discriminate. rewrite lookup_insert_ne by discriminate.
    rewrite lookup_insert_eq. eauto.
Qed.

Lemma max_len_bound {A} (outputs : list (list A)) (o : list A) :
  In o outputs -> (length o <= foldr Nat.max 0 (map length outputs))%nat.
Proof.
  induction outputs as [|x outputs IH]; simpl; [intros []|].
  intros [->|Hin]; [lia|]. specialize (IH Hin). lia.
Qed.

Lemma max_len_attained {A} (outputs : list (list A)) :
  outputs <> [] ->
  exists o, In o outputs /\ length o = foldr Nat.max 0%nat (map length outputs).
Proof.
  induction outputs as [|x outputs IH]; [congruence|]. intros _. simpl.
  destruct outputs as [|y outputs].
  - exists x. split; [left; reflexivity | simpl; lia].
  - destruct IH as (o & Hin & Hlen); [discriminate|].
    destruct (Nat.max_spec (length x) (foldr Nat.max 0%nat (map length (y :: outputs))))
      as [[_ Hm]|[_ Hm]].
    + exists o. split; [right; exact Hin|]. rewrite Hm. exact Hlen.
    + exists x. split; [left; reflexivity|]. rewrite Hm. reflexivity.
Qed.

(** X20. The response tensor of a turn is rectangular: with [outputs]
    the decoded outputs of the local samples, tokenized again, and [width]
    the length of the longest of them, each row is one of the [outputs], in
    order, followed by padding ids up to [width]; so every row has [width]
    entries, and a longest output is a row without padding. *)
Theorem sample_outputs_are_rectangular {F} (tk : tokenizer) (cfg : settings F)
    (prompt_tensors samples sample_outputs : list (list Z)) :
  local_sample_outputs tk cfg prompt_tensors samples = Ok sample_outputs ->
  exists str_samples str_prompts str_outputs,
    decode tk cfg prompt_tensors samples None true
    = Ok (str_samples, str_prompts, str_outputs) /\
    let outputs := map (tok_encode tk) str_outputs in
    let width := foldr Nat.max 0%nat (map length outputs) in
    sample_outputs
    = map (fun o => o ++ repeat (pad_token_id tk) (width - length o)) outputs /\
    Forall (fun row => length row = width) sample_outputs /\
    Exists (fun o => length o = width /\ In o sample_outputs) outputs.
Proof.
  intros Hl.
  assert (Hseq : is_seq2seq cfg = false).
  { destruct (is_seq2seq cfg) eqn:E; [|reflexivity].
    pose proof (local_sample_outputs_seq2seq tk cfg prompt_tensors samples E) as Hno.
    rewrite Hl in Hno. discriminate. }
  unfold local_sample_outputs in Hl. rewrite Hseq in Hl.
  apply bind_ok in Hl as ([[ss ps] os] & Hd & Hl). cbv zeta in Hl.
  apply bind_ok in Hl as (width & Hw & Hl). injection Hl as <-.
  exists ss, ps, os. split; [exact Hd|]. cbv zeta.
  set (outputs := map (tok_encode tk) os) in *.
  unfold max_len in Hw. destruct outputs as [|o0 outputs'] eqn:Ho; [discriminate|].
  rewrite <- Ho in *. injection Hw as <-.
  split; [reflexivity|]. split.
  - apply List.Forall_forall. intros row Hrow. apply in_map_iff in Hrow as (o & <- & Hin).
    unfold pad_right. rewrite length_app, repeat_length.
    pose proof (max_len_bound _ _ Hin). lia.
  - destruct (max_len_attained outputs) as (o & Hin & Hlen); [rewrite Ho; discriminate|].
    apply List.Exists_exists. exists o. split; [exact Hin|]. split; [exact Hlen|].
    apply in_map_iff. exists o. split; [|exact Hin].
    unfold pad_right. rewrite Hlen, Nat.sub_diag. simpl. apply app_nil_r.
Qed.

(** ** Scores of the processes *)

Lemma rows_of_concat {A} (width count : nat) :
  forall l : list A,
    length l = (width * count)%nat ->
    length (rows_of width count l) = count /\
    Forall (fun r => length r = width) (rows_of width count l) /\
    concat (rows_of width count l) = l.
Proof.
  induction count as [|count IH]; intros l Hl; simpl.
  - split; [reflexivity|]. split; [constructor|].
    destruct l; [reflexivity | simpl in Hl; lia].
  - destruct (IH (drop width l)) as (H1 & H2 & H3); [rewrite length_drop; lia|].
    split; [lia|]. split.
    + constructor; [rewrite length_take; lia | exact H2].
    + rewrite H3. apply take_drop.
Qed.

(** X21. Splitting the scores among the processes: [reshape(n, -1)]
    succeeds exactly when [n] is positive and divides the number of
    scores, and then gives [n] shares of equal length that, put together
    in order, are the scores; no scores give [n] empty shares. *)
Theorem score_shares_partition_the_scores {A} (np : nat) (scores : list A) :
  (is_ok (reshape_rows np scores) = true
   <-> (0 < np)%nat /\ (length scores mod np = 0)%nat) /\
  (forall shares,
     reshape_rows np scores = Ok shares ->
     length shares = np /\
     Forall (fun r => (length r * np)%nat = length scores) shares /\
     concat shares = scores).
Proof.
  unfold reshape_rows.
  destruct (Nat.eqb_spec np 0) as [->|Hnp].
  { split; [|discriminate]. simpl. split; [discriminate | intros [Hc _]; lia]. }
  destruct (Nat.eqb_spec (length scores mod np) 0) as [Hmod|Hmod]; simpl.
  - split; [split; [intros _; split; [lia | exact Hmod] | reflexivity]|].
    intros shares [= <-].
    assert (Hdiv : length scores = (length scores / np * np)%nat).
    { pose proof (Nat.div_mod_eq (length scores) np). lia. }
    destruct (rows_of_concat (length scores / np) np scores) as (H1 & H2 & H3); [lia|].
    split; [exact H1|]. split; [|exact H3].
    eapply Forall_impl; [exact H2|]. simpl. intros r ->. lia.
  - split; [|discriminate]. split; [discriminate | intros [_ Hc]; contradiction].
Qed.

(** ** Tokenizer set-up *)

(** X22. Setting up the tokenizer never renumbers a token: every token
    keeps its id, the end-of-sequence token is kept, the vocabulary grows
    by at most the padding token, and it is untouched when the loaded
    padding id differs from the end-of-sequence id; the two sides are
    those of the configuration. *)
Theorem tokenizer_setup_keeps_ids (loaded : HF.t) (ps ts : string) :
  let tk := HF.init_tokenizer loaded ps ts in
  (forall tok i, HF.vocab loaded !! tok = Some i -> HF.vocab tk !! tok = Some i) /\
  (forall tok, tok <> "<|padding|>"%string ->
     HF.vocab tk !! tok = HF.vocab loaded !! tok) /\
  HF.eos_token tk = HF.eos_token loaded /\
  (HF.pad_token_id loaded <> HF.eos_token_id loaded ->
   HF.vocab tk = HF.vocab loaded /\ HF.pad_token tk = HF.pad_token loaded) /\
  HF.padding_side tk = ps /\ HF.truncation_side tk = ts.
Proof.
  intros tk. subst tk. unfold HF.init_tokenizer.
  destruct (decide (HF.pad_token_id loaded = HF.eos_token_id loaded)) as [He|Hne]; simpl;
    [destruct (HF.vocab loaded !! "<|padding|>"%string) eqn:Hp|];
    (split; [|split; [|split; [|split; [|split]]]]);
    try reflexivity; try (intros Hc; contradiction); try (intros; auto; fail).
  - intros tok i Ht. rewrite lookup_insert_ne; [exact Ht|]. congruence.
  - intros tok Ht. apply lookup_insert_ne. congruence.
Qed.

(** ** Instances *)

Lemma decode_lists_are_aligned_witness :
  exists ss ps os,
    decode Toy.tk (Toy.cfg [] None None)
      [[80; 81]; [82; 83]] [[80; 81; 65; 66; 2]; [82; 83; 67; 2; 0]] None true
    = Ok (ss, ps, os) /\
    length ss = 2%nat /\ length ps = 2%nat /\ length os = 2%nat.
Proof.
  do 3 eexists. split; [reflexivity|].
  destruct (decode_lists_are_aligned Toy.tk (Toy.cfg [] None None)
              [[80; 81]; [82; 83]] [[80; 81; 65; 66; 2]; [82; 83; 67; 2; 0]] None true
              _ _ _ eq_refl) as (H1 & H2 & H3 & _).
  split; [exact H1|]. split; [exact H2 | exact H3].
Defined.

Lemma stop_sequences_cut_the_output_witness :
  cut_at "abcd" ["cd"; "bc"]%string "ab".
Proof.
  apply (stop_sequences_cut_the_output ["cd"; "bc"]%string "abcd" "ab" true);
    reflexivity.
Defined.

Lemma ref_model_requests_cover_the_batch_witness :
  length (fst (ref_model_traced Toy.triton "localhost:8001" "ref"
                 (repeat [80; 81; 65] 9) (repeat [1; 1; 1] 9)))
  = 2%nat.
Proof.
  apply (ref_model_requests_cover_the_batch Toy.triton "localhost:8001" "ref"
           (repeat [80; 81; 65] 9) (repeat [1; 1; 1] 9)).
  intros i. reflexivity.
Defined.

Lemma triton_host_is_url_slash_model_witness :
  triton_server_ref_model {["TRITON_HOST_REF"%string := "localhost:8001/ref"%string]}
  = Ok ("localhost:8001", "ref")%string.
Proof.
  apply (triton_host_is_url_slash_model
           {["TRITON_HOST_REF"%string := "localhost:8001/ref"%string]}).
  split; [reflexivity|]. split; reflexivity.
Defined.

Lemma make_experience_needs_a_rollout_witness :
  make_experience Toy.scenario Toy.tk Toy.scenario_cfg 0 0 Toy.fresh_trainer
  = Some (Raise AttributeError).
Proof.
  apply (make_experience_needs_a_rollout Toy.scenario Toy.tk Toy.scenario_cfg 0 0
           Toy.fresh_trainer).
  lia.
Defined.

Lemma element_tensors_have_one_length_witness :
  exists t e,
    rollout_turn Toy.two_lengths Toy.tk Toy.hash_stop_cfg Toy.fresh_trainer = Ok t /\
    elements t !! 1%nat = Some e /\
    length (logprobs e) = length (rewards e) /\
    length (values e) = length (rewards e) /\
    (1 <= length (rewards e))%nat.
Proof.
  destruct (rollout_turn Toy.two_lengths Toy.tk Toy.hash_stop_cfg Toy.fresh_trainer)
    as [t|e] eqn:Ht; [|vm_compute in Ht; discriminate].
  destruct (elements t !! 1%nat) as [e|] eqn:He.
  2:{ vm_compute in Ht. injection Ht as <-. vm_compute in He. discriminate. }
  exists t, e. split; [reflexivity|]. split; [exact He|].
  apply (element_tensors_have_one_length Toy.two_lengths Toy.tk Toy.hash_stop_cfg
           Toy.fresh_trainer t Ht (toy_values_per_token _ _ _) 1%nat e He).
Defined.

Lemma make_experience_logs_once_witness :
  exists st' entry,
    make_experience Toy.scenario Toy.tk Toy.scenario_cfg 6 3 Toy.fresh_trainer
    = Some (Ok st') /\
    logged st' = [(entry, 3)] /\
    entry !! "kl_ctl_value"%string = Some (1 # 10)%Q.
Proof.
  destruct (make_experience Toy.scenario Toy.tk Toy.scenario_cfg 6 3 Toy.fresh_trainer)
    as [[st'|e]|] eqn:Hm; try (vm_compute in Hm; discriminate).
  destruct (make_experience_logs_once Toy.scenario Toy.tk Toy.scenario_cfg 6 3
              Toy.fresh_trainer st' Hm) as (_ & entry & Hlog & Hkl & _).
  exists st', entry. split; [reflexivity|]. split; assumption.
Defined.

Lemma sample_outputs_are_rectangular_witness :
  exists so,
    local_sample_outputs Toy.tk Toy.hash_stop_cfg
      [[80; 81]; [82; 83]] [[80; 81; 65; 66; 67; 68; 2]; [82; 83; 69; 35; 2; 0; 0]]
    = Ok so /\
    so = [[65; 66; 67; 68; 2]; [69; 2; 0; 0; 0]] /\
    Forall (fun row => length row = 5%nat) so.
Proof.
  destruct (local_sample_outputs Toy.tk Toy.hash_stop_cfg
              [[80; 81]; [82; 83]] [[80; 81; 65; 66; 67; 68; 2]; [82; 83; 69; 35; 2; 0; 0]])
    as [so|e] eqn:Hl; [|vm_compute in Hl; discriminate].
  destruct (sample_outputs_are_rectangular Toy.tk Toy.hash_stop_cfg _ _ so Hl)
    as (ss & ps & os & Hd & Hso & Hall & _).
  vm_compute in Hd. injection Hd as <- <- <-.
  exists so. split; [reflexivity|]. split; [exact Hso | exact Hall].
Defined.

Lemma score_shares_partition_the_scores_witness :
  reshape_rows 2 [1; 2; 3; 4] = Ok [[1; 2]; [3; 4]] /\
  concat [[1; 2]; [3; 4]] = [1; 2; 3; 4] /\
  is_ok (reshape_rows 1 (@nil Z)) = true.
Proof.
  split; [reflexivity|]. split.
  - apply (proj2 (score_shares_partition_the_scores 2 [1; 2; 3; 4]) [[1; 2]; [3; 4]]).
    reflexivity.
  - apply (proj1 (score_shares_partition_the_scores 1 (@nil Z))). split; [lia | reflexivity].
Defined.

Lemma tokenizer_setup_keeps_ids_witness :
  HF.vocab (HF.init_tokenizer Toy.loaded "left" "left") !! "</s>"%string = Some 2.
Proof.
  apply (proj1 (tokenizer_setup_keeps_ids Toy.loaded "left" "left")). reflexivity.
Defined.
